(** * Quote aggregation with circuit breaking, retry and scoring

    A shallow embedding of [q1/commons.ts], [q1/quote-fallback.ts] and
    [q1/quote-jup.ts], and the properties of the circuit breaker, the retry
    manager, the staged fallback and the quote scorer.

    Conventions of the embedding.
    - A JavaScript number that only ever holds an integer (timestamps,
      counters, thresholds, HTTP status codes, basis points) is a [Z].
    - A timeout or a backoff delay is a [Q]: it is built with a division or
      with [Math.random()] and is only handed to a timer.
    - A number obtained with [parseFloat] and everything computed from one
      (price impact, scores) is a [Number]: a real, an infinity or NaN.
      Rounding to binary64 and the sign of zero are not represented.
    - An [async] function is a function from the environment script and the
      current state to a completion and the next state.  What the outside
      world answers (clock readings, random draws, upstream responses, which
      of two racing promises settles first) is read from the script [Env];
      nothing is assumed about it, in particular the clock need not be
      monotone. *)

From Stdlib Require Import ZArith QArith Qminmax Lia List String Ascii Bool.
From Stdlib Require Import Reals Qreals Lra DecimalString Permutation.
Import ListNotations.

Set Implicit Arguments.

(* ================================================================= *)
(** ** Values thrown and completions *)

(** What a [catch (error)] clause may receive.  Every [Error] instance
    (Error, TypeError, SyntaxError, the DOMException of an aborted fetch)
    is an [ErrorObject] with its [message]. *)
Inductive JsValue : Type :=
| ErrorObject (message : string)
| StringValue (s : string)
| Undefined.

Inductive Completion (A : Type) : Type :=
| Returned (a : A)
| Thrown (e : JsValue).
Arguments Returned {A} a.
Arguments Thrown {A} e.

(** The engine's own TypeError, an [Error] instance like the others. *)
Definition TypeError (message : string) : JsValue := ErrorObject message.

(* ================================================================= *)
(** ** Sources *)

Inductive Source : Type := jupiter | dflow | hashflow | pyth_oracle.

Definition Source_eqb (a b : Source) : bool :=
  match a, b with
  | jupiter, jupiter | dflow, dflow | hashflow, hashflow
  | pyth_oracle, pyth_oracle => true
  | _, _ => false
  end.

(* ================================================================= *)
(** ** The outside world *)

(** What [response.json()] settles to: the payload, or a rejection with an
    [Error] instance (SyntaxError, abort) of the given message. *)
Inductive Body (D : Type) : Type :=
| Json (data : D)
| Malformed (message : string).
Arguments Json {D} data.
Arguments Malformed {D} message.

(** What [fetch] settles to: a rejection with an [Error] instance (network
    failure, abort by the timeout's controller), or a response. *)
Inductive Fetched (D : Type) : Type :=
| NetworkError (message : string)
| Response (ok : bool) (status : Z) (statusText : string) (body : Body D).
Arguments NetworkError {D} message.
Arguments Response {D} ok status statusText body.

(** What is observed of a run.  [Fetch] and [Sleep] are the two effects on
    the outside; [Called] and [Answered] mark where the aggregator calls
    [getQuote] on one of its services and where that call resolves with a
    quote. *)
Inductive Event : Type :=
| Called (src : Source) (timeoutMs : Q)
| Answered (src : Source)
| Fetch (src : Source)
| Sleep (delayMs : Q).

(** Mutable part: how many clock readings and random draws were consumed, and
    what happened so far, most recent event first. *)
Record World : Type := mkWorld {
  ticks : nat;
  rolls : nat;
  trace : list Event
}.

Definition isFetch (src : Source) (e : Event) : bool :=
  match e with Fetch s => Source_eqb s src | _ => false end.

Definition isCalled (src : Source) (e : Event) : bool :=
  match e with Called s _ => Source_eqb s src | _ => false end.

Definition isAnswered (e : Event) : bool :=
  match e with Answered _ => true | _ => false end.

Definition isSleep (e : Event) : bool :=
  match e with Sleep _ => true | _ => false end.

Definition fetchCount (src : Source) (w : World) : nat :=
  List.length (filter (isFetch src) (trace w)).

Definition callCount (src : Source) (w : World) : nat :=
  List.length (filter (isCalled src) (trace w)).

(** How many quotes the services have produced so far. *)
Definition answerCount (w : World) : nat :=
  List.length (filter isAnswered (trace w)).

Definition sleepCount (w : World) : nat :=
  List.length (filter isSleep (trace w)).

Definition record (e : Event) (w : World) : World :=
  mkWorld (ticks w) (rolls w) (e :: trace w).

(* ================================================================= *)
(** ** Upstream payloads, as far as the services read them *)

Module JupiterJson.
Record t : Type := mk {
  inAmount : string;
  outAmount : string;
  priceImpactPact : option string;      (* the key getQuote reads *)
  priceImpactPct : option string;       (* the key of the same name as the
                                           field of QuoteResponse; getQuote
                                           does not read it *)
  routePlan : option (list string);
  otherAmountThreshold : string;
  swapMode : option string;
  slippageBps : Z
}.
End JupiterJson.

Module DFlowJson.
Record t : Type := mk {
  outputAmount : string;
  priceImpact : option Q;               (* a JSON number, when present *)
  minOutputAmount : string
}.
End DFlowJson.

Module HashflowJson.
Record t : Type := mk {
  quoteTokenAmount : string;
  effectiveQuoteTokenAmount : string
}.
End HashflowJson.

(** The script of one run of the process. *)
Record Env : Type := mkEnv {
  clock : nat -> Z;                        (* n-th reading of Date.now() *)
  random : nat -> Q;                       (* n-th draw of Math.random() *)
  jupiterApi : nat -> Fetched JupiterJson.t;
  dflowApi : nat -> Fetched DFlowJson.t;
  hashflowApi : nat -> Fetched HashflowJson.t;
  pythApi : nat -> Fetched string;         (* n-th price lookup *)
  backupRace : bool;   (* hashflow's rejection is caught before dflow's *)
  priceRace : bool     (* the output-price lookup rejects before the input one *)
}.

(* ================================================================= *)
(** ** Async functions *)

Definition Async (S A : Type) : Type := Env -> S -> Completion A * S.

Definition resolve {S A} (a : A) : Async S A := fun _ s => (Returned a, s).
Definition reject {S A} (e : JsValue) : Async S A := fun _ s => (Thrown e, s).

Definition await {S A B} (m : Async S A) (k : A -> Async S B) : Async S B :=
  fun env s =>
    match m env s with
    | (Returned a, s') => k a env s'
    | (Thrown e, s') => (Thrown e, s')
    end.

(** [try { body } catch (error) { handler }] *)
Definition tryCatch {S A} (body : Async S A) (handler : JsValue -> Async S A)
  : Async S A :=
  fun env s =>
    match body env s with
    | (Returned a, s') => (Returned a, s')
    | (Thrown e, s') => handler e env s'
    end.

(** An effect on the world alone, run beside a private state. *)
Definition global {X A} (m : Async World A) : Async (X * World) A :=
  fun env s =>
    let (r, w') := m env (snd s) in (r, (fst s, w')).

(** An effect on a private state alone. *)
Definition modify {X} (f : X -> X) : Async (X * World) unit :=
  fun _ s => (Returned tt, (f (fst s), snd s)).

Definition readState {X} : Async (X * World) X :=
  fun _ s => (Returned (fst s), s).

Declare Scope async_scope.
Delimit Scope async_scope with async.
Notation "x <- m ;; k" := (await m (fun x => k))
  (at level 61, m at next level, right associativity) : async_scope.
Notation "m ;;; k" := (await m (fun _ => k))
  (at level 61, right associativity) : async_scope.

Definition Date_now : Async World Z :=
  fun env w => (Returned (clock env (ticks w)),
                mkWorld (S (ticks w)) (rolls w) (trace w)).

Definition Math_random : Async World Q :=
  fun env w => (Returned (random env (rolls w)),
                mkWorld (ticks w) (S (rolls w)) (trace w)).

Definition log (e : Event) : Async World unit :=
  fun _ w => (Returned tt, record e w).

(** [await new Promise(resolve => setTimeout(resolve, delay))] *)
Definition sleep (delay : Q) : Async World unit := log (Sleep delay).

(* ================================================================= *)
(** ** commons.ts: CircuitBreaker *)

Record CircuitBreakerState : Type := mkState {
  isOpen : bool;
  failureCount : Z;
  lastFailureTime : Z;
  nextAttemptTime : Z
}.

(** The constructor's parameters; the state lives beside them. *)
Record CircuitBreaker : Type := mkBreaker {
  failureThreshold : Z;
  timeoutMs : Z;
  halfOpenRetryDelayMs : Z
}.

Definition defaultBreaker : CircuitBreaker := mkBreaker 5 30000 10000.

Definition initialState : CircuitBreakerState := mkState false 0 0 0.

Definition circuitOpen : JsValue := ErrorObject "Circuit breaker is OPEN".

Local Open Scope async_scope.
Local Open Scope Z_scope.

Module CircuitBreaker.

(** The guard at the head of [execute]: fail fast while open and the next
    attempt is not due, otherwise let the call through, half-open. *)
Definition gate : Async (CircuitBreakerState * World) unit :=
  st <- readState ;;
  if isOpen st then
    now <- global Date_now ;;
    if now <? nextAttemptTime st then reject circuitOpen
    else modify (fun st => mkState false (failureCount st)
                                   (lastFailureTime st) (nextAttemptTime st))
  else resolve tt.

Definition onSuccess : Async (CircuitBreakerState * World) unit :=
  modify (fun st => mkState (isOpen st) 0
                            (lastFailureTime st) (nextAttemptTime st)) ;;;
  modify (fun st => mkState false (failureCount st)
                            (lastFailureTime st) (nextAttemptTime st)).

Definition onFailure (cb : CircuitBreaker)
  : Async (CircuitBreakerState * World) unit :=
  modify (fun st => mkState (isOpen st) (failureCount st + 1)
                            (lastFailureTime st) (nextAttemptTime st)) ;;;
  t <- global Date_now ;;
  modify (fun st => mkState (isOpen st) (failureCount st)
                            t (nextAttemptTime st)) ;;;
  st <- readState ;;
  if failureCount st >=? failureThreshold cb then
    modify (fun st => mkState true (failureCount st)
                              (lastFailureTime st) (nextAttemptTime st)) ;;;
    t' <- global Date_now ;;
    modify (fun st => mkState (isOpen st) (failureCount st)
                              (lastFailureTime st)
                              (t' + halfOpenRetryDelayMs cb))
  else resolve tt.

Definition execute {T} (cb : CircuitBreaker) (operation : Async World T)
  : Async (CircuitBreakerState * World) T :=
  gate ;;;
  tryCatch
    (result <- global operation ;;
     onSuccess ;;;
     resolve result)
    (fun error =>
       onFailure cb ;;;
       reject error).

(** The method [isOpen()]. *)
Definition isOpen_ (st : CircuitBreakerState) : bool := isOpen st.

End CircuitBreaker.

(* ================================================================= *)
(** ** commons.ts: RetryManager *)

(** [String.prototype.includes] *)
Fixpoint includes (s needle : string) : bool :=
  String.prefix needle s
  || match s with
     | EmptyString => false
     | String _ rest => includes rest needle
     end.

Module RetryManager.

(** [error.includes(...)]: a string answers; an [Error] instance has no
    method [includes], so calling it throws a TypeError, and so does
    reading a property of [undefined]. *)
Definition isNonRetryableError (error : JsValue) : Completion bool :=
  match error with
  | StringValue s =>
      Returned (includes s "invalid token"
                || includes s "token not found"
                || includes s "invalid amount"
                || includes s "unauthorized")
  | ErrorObject _ =>
      Thrown (TypeError "error.includes is not a function")
  | Undefined =>
      Thrown (TypeError
                "Cannot read properties of undefined (reading 'includes')")
  end.

Definition backoff (baseDelayMs maxDelayMs : Q) (attempt : Z) (jitter : Q)
  : Q :=
  Qmin (baseDelayMs * 2 ^ attempt + jitter * 100)%Q maxDelayMs.

Section Loop.
Context {X T : Type}.
Variable operation : Async (X * World) T.
Variables (maxRetries : Z) (baseDelayMs maxDelayMs : Q).

(** The [for] loop from [attempt] on, then [throw lastError];
    [fuel] bounds the iterations left. *)
Fixpoint attempts (fuel : nat) (attempt : Z) (lastError : JsValue)
  : Async (X * World) T :=
  match fuel with
  | O => reject lastError
  | S fuel' =>
      if attempt <=? maxRetries then
        tryCatch operation
          (fun error =>
             if attempt =? maxRetries then reject error
             else
               match isNonRetryableError error with
               | Thrown typeError => reject typeError
               | Returned true => reject error
               | Returned false =>
                   jitter <- global Math_random ;;
                   global (sleep (backoff baseDelayMs maxDelayMs
                                          attempt jitter)) ;;;
                   attempts fuel' (attempt + 1) error
               end)
      else reject lastError
  end.

Definition executeWithRetry : Async (X * World) T :=
  attempts (Z.to_nat (maxRetries + 1)) 0 Undefined.
End Loop.

Definition defaultMaxRetries : Z := 3.
Definition defaultBaseDelayMs : Q := 100.
Definition defaultMaxDelayMs : Q := 1000.

End RetryManager.

(* ================================================================= *)
(** ** Numbers that come out of [parseFloat] *)

(** The numbers of the code, idealised: a finite number is a real and the
    arithmetic on it is exact.  The rounding of binary64, its overflow to
    Infinity and its underflow to 0 are not represented, nor is the
    approximation [Math.log] computes.  What is proved below of scores and
    of selection is independent of this: it holds of any scoring, or of
    the literals 0, 7, 0.2 and Infinity, whose comparisons with 1 and 5
    come out the same after rounding. *)
Inductive Number : Type :=
| NaN
| Infinity (negative : bool)
| Finite (r : R).

Definition Rsign (r : R) : comparison :=
  match total_order_T r 0 with
  | inleft (left _) => Lt
  | inleft (right _) => Eq
  | inright _ => Gt
  end.

Definition Number_neg (a : Number) : Number :=
  match a with
  | NaN => NaN
  | Infinity n => Infinity (negb n)
  | Finite r => Finite (- r)
  end.

Definition Number_add (a b : Number) : Number :=
  match a, b with
  | NaN, _ | _, NaN => NaN
  | Infinity n, Infinity m => if Bool.eqb n m then Infinity n else NaN
  | Infinity n, Finite _ => Infinity n
  | Finite _, Infinity m => Infinity m
  | Finite x, Finite y => Finite (x + y)
  end.

Definition Number_sub (a b : Number) : Number := Number_add a (Number_neg b).

Definition Number_mul (a b : Number) : Number :=
  match a, b with
  | NaN, _ | _, NaN => NaN
  | Infinity n, Infinity m => Infinity (xorb n m)
  | Infinity n, Finite y =>
      match Rsign y with
      | Lt => Infinity (negb n) | Eq => NaN | Gt => Infinity n
      end
  | Finite x, Infinity m =>
      match Rsign x with
      | Lt => Infinity (negb m) | Eq => NaN | Gt => Infinity m
      end
  | Finite x, Finite y => Finite (x * y)
  end.

Definition Number_div (a b : Number) : Number :=
  match a, b with
  | NaN, _ | _, NaN => NaN
  | Infinity _, Infinity _ => NaN
  | Infinity n, Finite y =>
      match Rsign y with Lt => Infinity (negb n) | _ => Infinity n end
  | Finite _, Infinity _ => Finite 0
  | Finite x, Finite y =>
      match Rsign y with
      | Eq => match Rsign x with
              | Lt => Infinity true | Eq => NaN | Gt => Infinity false
              end
      | _ => Finite (x / y)
      end
  end.

(** [a > b] *)
Definition Number_gt (a b : Number) : bool :=
  match a, b with
  | NaN, _ | _, NaN => false
  | Infinity n, Infinity m => negb n && m
  | Infinity n, Finite _ => negb n
  | Finite _, Infinity m => m
  | Finite x, Finite y => if Rlt_dec y x then true else false
  end.

Definition Math_log (a : Number) : Number :=
  match a with
  | NaN => NaN
  | Infinity n => if n then NaN else Infinity false
  | Finite r =>
      match Rsign r with
      | Lt => NaN | Eq => Infinity true | Gt => Finite (ln r)
      end
  end.

Definition Math_floor (a : Number) : Number :=
  match a with
  | Finite r => Finite (IZR (Int_part r))
  | other => other
  end.

Definition Z_toString (z : Z) : string := NilZero.string_of_int (Z.to_int z).

(** [Number.prototype.toString] of an integral number below 1e21.  From
    1e21 on JavaScript prints the exponent notation of the binary64 value,
    which is not represented: nothing below is stated about the digits of
    an amount the oracle computes. *)
Definition Number_toString (a : Number) : string :=
  match a with
  | NaN => "NaN"
  | Infinity n => if n then "-Infinity" else "Infinity"
  | Finite r => Z_toString (Int_part r)
  end.

Definition ofZ (z : Z) : Number := Finite (IZR z).

(* ----------------------------------------------------------------- *)
(** *** parseFloat *)

Inductive Literal : Type :=
| NotANumber
| InfinityLiteral (negative : bool)
| Decimal (q : Q).

Definition isWhiteSpace (c : ascii) : bool :=
  let n := nat_of_ascii c in
  (Nat.eqb n 32 || Nat.eqb n 9 || Nat.eqb n 10
   || Nat.eqb n 11 || Nat.eqb n 12 || Nat.eqb n 13)%bool.

Fixpoint trimStart (s : string) : string :=
  match s with
  | String c rest => if isWhiteSpace c then trimStart rest else s
  | EmptyString => s
  end.

Definition digit (c : ascii) : option Z :=
  let n := Z.of_nat (nat_of_ascii c) in
  if (48 <=? n) && (n <=? 57) then Some (n - 48) else None.

(** Reads the digits at the head of [s] onto the accumulator: the value, how
    many digits were read, and what follows them. *)
Fixpoint digits (s : string) (acc : Z) (count : Z) : Z * Z * string :=
  match s with
  | String c rest =>
      match digit c with
      | Some d => digits rest (10 * acc + d) (count + 1)
      | None => (acc, count, s)
      end
  | EmptyString => (acc, count, s)
  end.

Definition exponentPart (s : string) : Z :=
  match s with
  | String c rest =>
      if (Ascii.eqb c "e" || Ascii.eqb c "E")%bool then
        match rest with
        | String "-" rest' =>
            let '(e, n, _) := digits rest' 0 0 in if n =? 0 then 0 else - e
        | String "+" rest' =>
            let '(e, n, _) := digits rest' 0 0 in if n =? 0 then 0 else e
        | _ =>
            let '(e, n, _) := digits rest 0 0 in if n =? 0 then 0 else e
        end
      else 0
  | EmptyString => 0
  end.

Definition scale (mantissa exponent : Z) : Q :=
  if 0 <=? exponent then inject_Z (mantissa * 10 ^ exponent)
  else Qmake mantissa (Z.to_pos (10 ^ (- exponent))).

(** The longest prefix of the trimmed string that is a StrDecimalLiteral. *)
Definition readLiteral (input : string) : Literal :=
  let s := trimStart input in
  let '(negative, s) :=
    match s with
    | String "-" rest => (true, rest)
    | String "+" rest => (false, rest)
    | _ => (false, s)
    end in
  if String.prefix "Infinity" s then InfinityLiteral negative
  else
    let '(whole, n, s) := digits s 0 0 in
    let '(mantissa, m, s) :=
      match s with
      | String "." rest => digits rest whole 0
      | _ => (whole, 0, s)
      end in
    if n + m =? 0 then NotANumber
    else Decimal (scale (if negative then - mantissa else mantissa)
                        (exponentPart s - m)).

(** The literal read, taken as the exact decimal: [parseFloat] of the code
    rounds it to the nearest binary64 number, which is Infinity for a
    literal such as 1e400. *)
Definition parseFloat (input : string) : Number :=
  match readLiteral input with
  | NotANumber => NaN
  | InfinityLiteral negative => Infinity negative
  | Decimal q => Finite (Q2R q)
  end.

(* ================================================================= *)
(** ** commons.ts: the data model *)

Module QuoteRequest.
Record t : Type := mk {
  inputMint : string;
  outputMint : string;
  amount : string;
  slippageBps : Z;
  userPublicKey : option string
}.
End QuoteRequest.

Inductive Confidence : Type := high | medium | low.

Definition Confidence_eqb (a b : Confidence) : bool :=
  match a, b with
  | high, high | medium, medium | low, low => true
  | _, _ => false
  end.

Record QuoteResponse : Type := mkQuote {
  inputAmount : string;
  outputAmount : string;
  priceImpactPct : Number;
  routePlan : list string;
  otherAmountThreshold : string;
  swapMode : string;
  slippageBps : Z;
  source : Source;
  confidence : Confidence;
  warnings : option (list string)
}.

(** The interface [QuoteService]; an implementation keeps its breaker's
    state to itself. *)
Record QuoteService : Type := mkService {
  getQuote : QuoteRequest.t -> Q -> Async (CircuitBreakerState * World)
                                          QuoteResponse
}.

(** [fetch(...)]: the request is issued, the script answers. *)
Definition fetch {D} (src : Source) (api : Env -> nat -> Fetched D)
  : Async World (Fetched D) :=
  fun env w => (Returned (api env (fetchCount src w)), record (Fetch src) w).

(** [await fetch(...)] followed by [await response.json()], for the callers
    that do not look at [response.ok]. *)
Definition fetchJson {D} (src : Source) (api : Env -> nat -> Fetched D)
  : Async World D :=
  response <- fetch src api ;;
  match response with
  | NetworkError message => reject (ErrorObject message)
  | Response _ _ _ (Malformed message) => reject (ErrorObject message)
  | Response _ _ _ (Json data) => resolve data
  end.

(** [value || fallback] on a string that may be absent. *)
Definition orElse (value : option string) (fallback : string) : string :=
  match value with
  | Some EmptyString | None => fallback
  | Some s => s
  end.

(* ================================================================= *)
(** ** quote-jup.ts: JupiterQuoteService *)

Module JupiterQuoteService.

Definition circuitBreaker : CircuitBreaker := mkBreaker 3 2000 5000.

Definition highImpactWarning : string :=
  "High price impact detected - may indicate illiquid routing".
Definition complexRouteWarning : string :=
  "Complex routing detected - multiple hops may increase slippage".

(** Lines 36 to 66: validation of the response and the quote returned. *)
Definition validate (data : JupiterJson.t) : QuoteResponse :=
  let priceImpact :=
    parseFloat (orElse (JupiterJson.priceImpactPact data) "0") in
  let warnings : list string := [] in
  let confidence := high in
  let '(warnings, confidence) :=
    if Number_gt priceImpact (ofZ 5) then
      (warnings ++ [highImpactWarning], low)
    else if Number_gt priceImpact (ofZ 1) then (warnings, medium)
    else (warnings, confidence) in
  let '(warnings, confidence) :=
    match JupiterJson.routePlan data with
    | Some plan =>
        if (4 <? List.length plan)%nat then
          (warnings ++ [complexRouteWarning],
           match confidence with high => medium | _ => low end)
        else (warnings, confidence)
    | None => (warnings, confidence)
    end in
  {| inputAmount := JupiterJson.inAmount data;
     outputAmount := JupiterJson.outAmount data;
     priceImpactPct := priceImpact;
     routePlan := match JupiterJson.routePlan data with
                  | Some plan => plan
                  | None => []
                  end;
     otherAmountThreshold := JupiterJson.otherAmountThreshold data;
     swapMode := orElse (JupiterJson.swapMode data) "ExactIn";
     slippageBps := JupiterJson.slippageBps data;
     source := jupiter;
     confidence := confidence;
     warnings := if (0 <? List.length warnings)%nat then Some warnings
                 else None |}.

(** The arrow function handed to [circuitBreaker.execute]. *)
Definition operation (request : QuoteRequest.t) (timeoutMs : Q)
  : Async World QuoteResponse :=
  response <- fetch jupiter jupiterApi ;;
  match response with
  | NetworkError message => reject (ErrorObject message)
  | Response ok status statusText body =>
      if negb ok then
        reject (ErrorObject ("Jupiter API error: " ++ Z_toString status
                             ++ " " ++ statusText))
      else
        match body with
        | Malformed message => reject (ErrorObject message)
        | Json data => resolve (validate data)
        end
  end.

Definition service : QuoteService :=
  mkService (fun request timeoutMs =>
    CircuitBreaker.execute circuitBreaker (operation request timeoutMs)).

Definition isHealthy (st : CircuitBreakerState) : bool :=
  negb (CircuitBreaker.isOpen_ st).

End JupiterQuoteService.

(* ================================================================= *)
(** ** quote-fallback.ts *)

Module DFlowQuoteService.

Definition circuitBreaker : CircuitBreaker := mkBreaker 3 2000 5000.

Definition operation (request : QuoteRequest.t) (timeoutMs : Q)
  : Async World QuoteResponse :=
  data <- fetchJson dflow dflowApi ;;
  resolve
    {| inputAmount := QuoteRequest.amount request;
       outputAmount := DFlowJson.outputAmount data;
       priceImpactPct := match DFlowJson.priceImpact data with
                         | Some q => Finite (Q2R q)
                         | None => ofZ 0
                         end;
       routePlan := [];
       otherAmountThreshold := DFlowJson.minOutputAmount data;
       swapMode := "ExactIn";
       slippageBps := QuoteRequest.slippageBps request;
       source := dflow;
       confidence := medium;
       warnings := None |}.

Definition service : QuoteService :=
  mkService (fun request timeoutMs =>
    CircuitBreaker.execute circuitBreaker (operation request timeoutMs)).

End DFlowQuoteService.

Module HashflowQuoteService.

Definition circuitBreaker : CircuitBreaker := mkBreaker 3 2000 5000.

Definition operation (request : QuoteRequest.t) (timeoutMs : Q)
  : Async World QuoteResponse :=
  data <- fetchJson hashflow hashflowApi ;;
  resolve
    {| inputAmount := QuoteRequest.amount request;
       outputAmount := HashflowJson.quoteTokenAmount data;
       priceImpactPct := ofZ 0;
       routePlan := [];
       otherAmountThreshold := HashflowJson.effectiveQuoteTokenAmount data;
       swapMode := "ExactIn";
       slippageBps := 0;
       source := hashflow;
       confidence := high;
       warnings := None |}.

Definition service : QuoteService :=
  mkService (fun request timeoutMs =>
    CircuitBreaker.execute circuitBreaker (operation request timeoutMs)).

End HashflowQuoteService.

Module PythOracleQuoteService.

Definition circuitBreaker : CircuitBreaker := mkBreaker 2 1000 3000.

Definition getPythPrice (mint : string) : Async World Number :=
  json <- fetchJson pyth_oracle pythApi ;;
  resolve (parseFloat json).

(** [Promise.all] of two promises: both are started; it rejects with the
    reason of whichever rejects first. *)
Definition Promise_all {A B} (first : Async World A) (second : Async World B)
  : Async World (A * B) :=
  fun env w =>
    let (a, w1) := first env w in
    let (b, w2) := second env w1 in
    (match a, b with
     | Returned x, Returned y => Returned (x, y)
     | Thrown e, Returned _ => Thrown e
     | Returned _, Thrown e => Thrown e
     | Thrown e1, Thrown e2 => Thrown (if priceRace env then e2 else e1)
     end, w2).

Definition disclaimers : list string :=
  [ "APPROXIMATE QUOTE ONLY - Based on oracle prices";
    "Actual swap may have different rates and availability";
    "Please verify liquidity before executing" ]%string.

Definition operation (request : QuoteRequest.t) (timeoutMs : Q)
  : Async World QuoteResponse :=
  prices <- Promise_all (getPythPrice (QuoteRequest.inputMint request))
                        (getPythPrice (QuoteRequest.outputMint request)) ;;
  let inputPrice := fst prices in
  let outputPrice := snd prices in
  let inputAmount_ := parseFloat (QuoteRequest.amount request) in
  let estimatedOutput :=
    Number_div (Number_mul inputAmount_ inputPrice) outputPrice in
  let slippageMultiplier :=
    Number_sub (ofZ 1)
      (Number_div (ofZ (QuoteRequest.slippageBps request)) (ofZ 10000)) in
  let adjustedOutput :=
    Number_mul (Number_mul estimatedOutput slippageMultiplier)
               (Finite (95 / 100)) in
  resolve
    {| inputAmount := QuoteRequest.amount request;
       outputAmount := Number_toString (Math_floor adjustedOutput);
       priceImpactPct := ofZ 0;
       routePlan := [];
       otherAmountThreshold :=
         Number_toString
           (Math_floor (Number_mul adjustedOutput (Finite (95 / 100))));
       swapMode := "ExactIn";
       slippageBps := QuoteRequest.slippageBps request;
       source := pyth_oracle;
       confidence := low;
       warnings := Some disclaimers |}.

Definition service : QuoteService :=
  mkService (fun request timeoutMs =>
    CircuitBreaker.execute circuitBreaker (operation request timeoutMs)).

End PythOracleQuoteService.

(* ================================================================= *)
(** ** Array helpers *)

(** [e.message] for a caught value: a string has no such property, and
    reading a property of [undefined] throws. *)
Definition message (e : JsValue) : Completion (option string) :=
  match e with
  | ErrorObject m => Returned (Some m)
  | StringValue _ => Returned None
  | Undefined =>
      Thrown (TypeError
                "Cannot read properties of undefined (reading 'message')")
  end.

(** [errors.map(e => e.message)] *)
Fixpoint messages (errors : list JsValue) : Completion (list (option string)) :=
  match errors with
  | [] => Returned []
  | e :: rest =>
      match message e with
      | Thrown t => Thrown t
      | Returned m =>
          match messages rest with
          | Thrown t => Thrown t
          | Returned ms => Returned (m :: ms)
          end
      end
  end.

(** [Array.prototype.join]: an [undefined] element is rendered empty. *)
Fixpoint join (parts : list (option string)) (separator : string) : string :=
  match parts with
  | [] => EmptyString
  | [p] => match p with Some s => s | None => EmptyString end
  | p :: rest =>
      (match p with Some s => s | None => EmptyString end)
        ++ separator ++ join rest separator
  end.

(** The sign test [Array.prototype.sort] applies to what the comparator
    returns; NaN counts as zero. *)
Definition isPositive (v : Number) : bool := Number_gt v (ofZ 0).

(** [Array.prototype.sort(compareFn)].  The sort is stable, so for a
    comparator that orders its arguments consistently the result is the one
    of any stable sort; insertion is taken here: an element moves behind a
    later one only when [compareFn] of the two is positive.  For a
    comparator that is not consistent (a NaN among the scores) the order is
    the engine's own and this definition does not follow it: what is
    proved of the order of the result assumes scores that are numbers. *)
Section Sort.
Context {A : Type}.
Variable compareFn : A -> A -> Number.

Fixpoint insert (x : A) (sorted : list A) : list A :=
  match sorted with
  | [] => [x]
  | y :: rest =>
      if isPositive (compareFn x y) then y :: insert x rest
      else x :: sorted
  end.

Definition Array_sort (l : list A) : list A := fold_right insert [] l.
End Sort.

(* ================================================================= *)
(** ** quote-jup.ts: QuoteAggregatorService *)

Record Breakers : Type := mkBreakers {
  jupiterBreaker : CircuitBreakerState;
  dflowBreaker : CircuitBreakerState;
  hashflowBreaker : CircuitBreakerState;
  pythBreaker : CircuitBreakerState
}.

Definition freshBreakers : Breakers :=
  mkBreakers initialState initialState initialState initialState.

Definition breakerOf (src : Source) (b : Breakers) : CircuitBreakerState :=
  match src with
  | jupiter => jupiterBreaker b
  | dflow => dflowBreaker b
  | hashflow => hashflowBreaker b
  | pyth_oracle => pythBreaker b
  end.

Definition setBreaker (src : Source) (st : CircuitBreakerState) (b : Breakers)
  : Breakers :=
  match src with
  | jupiter => mkBreakers st (dflowBreaker b) (hashflowBreaker b) (pythBreaker b)
  | dflow => mkBreakers (jupiterBreaker b) st (hashflowBreaker b) (pythBreaker b)
  | hashflow => mkBreakers (jupiterBreaker b) (dflowBreaker b) st (pythBreaker b)
  | pyth_oracle =>
      mkBreakers (jupiterBreaker b) (dflowBreaker b) (hashflowBreaker b) st
  end.

Record Scored : Type := mkScored {
  quote : QuoteResponse;
  score : Number
}.

Module QuoteAggregatorService.

(** [this.services], in the order of the constructor: index 0 is Jupiter,
    1 DFlow, 2 Hashflow, 3 the Pyth oracle. *)
Definition services (src : Source) : QuoteService :=
  match src with
  | jupiter => JupiterQuoteService.service
  | dflow => DFlowQuoteService.service
  | hashflow => HashflowQuoteService.service
  | pyth_oracle => PythOracleQuoteService.service
  end.

Definition QUOTE_TIMEOUT_MS : Z := 2000.

(** A method of the service [src] run on its own breaker. *)
Definition on {A} (src : Source) (m : Async (CircuitBreakerState * World) A)
  : Async (Breakers * World) A :=
  fun env s =>
    let (r, s') := m env (breakerOf src (fst s), snd s) in
    (r, (setBreaker src (fst s') (fst s), snd s')).

(** [this.services[i].getQuote(request, timeoutMs)], observed. *)
Definition call (src : Source) (request : QuoteRequest.t) (timeoutMs : Q)
  : Async (Breakers * World) QuoteResponse :=
  global (log (Called src timeoutMs)) ;;;
  quote <- on src (getQuote (services src) request timeoutMs) ;;
  global (log (Answered src)) ;;;
  resolve quote.

(** [QUOTE_TIMEOUT_MS - (Date.now() - startTime)] *)
Definition remainingTime (startTime : Z) : Async (Breakers * World) Z :=
  now <- global Date_now ;;
  resolve (QUOTE_TIMEOUT_MS - (now - startTime)).

(** The two arrays [results] and [errors]. *)
Definition Collected : Type := (list QuoteResponse * list JsValue)%type.

(** Primary attempt: Jupiter, through the retry manager. *)
Definition primaryAttempt (request : QuoteRequest.t) (startTime : Z)
  : Async (Breakers * World) Collected :=
  tryCatch
    (remaining <- remainingTime startTime ;;
     if remaining >? 200 then
       jupiterQuote <-
         RetryManager.executeWithRetry
           (call jupiter request (inject_Z (Z.min (remaining - 100) 1000)))
           2 50 200 ;;
       resolve ([jupiterQuote], [])
     else resolve ([], []))
    (fun error => resolve ([], [error])).

Definition succeededWithHighConfidence (results : list QuoteResponse) : bool :=
  match results with
  | first :: _ => Confidence_eqb (confidence first) high
  | [] => false
  end.

(** One element of [backupPromises]: it never rejects. *)
Definition backup (src : Source) (request : QuoteRequest.t) (timeoutMs : Q)
  : Async (Breakers * World) (Completion QuoteResponse) :=
  tryCatch
    (quote <- call src request timeoutMs ;; resolve (Returned quote))
    (fun error => resolve (Thrown error)).

Definition fulfilled (settled : Completion QuoteResponse)
  : list QuoteResponse :=
  match settled with Returned quote => [quote] | Thrown _ => [] end.

(** DFlow and Hashflow side by side.  The two calls touch disjoint
    breakers, so they run here one after the other; the code starts both
    before either completes, so its breakers take their readings of the
    clock in another order than here.  The properties below hold for
    every script of the clock.  The results are pushed in the order of the
    array, DFlow first, whichever settles first; the order in which two
    rejections reach [errors] is the script's. *)
Definition backupAttempts (request : QuoteRequest.t) (startTime : Z)
    (collected : Collected) : Async (Breakers * World) Collected :=
  remaining <- remainingTime startTime ;;
  if remaining >? 300 then
    let serviceTimeout := Qmin (inject_Z remaining / 2) 800 in
    first <- backup dflow request serviceTimeout ;;
    second <- backup hashflow request serviceTimeout ;;
    fun env =>
      resolve
        (fst collected ++ fulfilled first ++ fulfilled second,
         snd collected ++
           match first, second with
           | Thrown e1, Thrown e2 =>
               if backupRace env then [e2; e1] else [e1; e2]
           | Thrown e1, Returned _ => [e1]
           | Returned _, Thrown e2 => [e2]
           | Returned _, Returned _ => []
           end) env
  else resolve collected.

Definition noGoodQuotes (results : list QuoteResponse) : bool :=
  (Nat.eqb (List.length results) 0
   || forallb (fun r => Confidence_eqb (confidence r) low) results)%bool.

(** Last resort: the Pyth oracle. *)
Definition oracleFallback (request : QuoteRequest.t) (startTime : Z)
    (collected : Collected) : Async (Breakers * World) Collected :=
  if noGoodQuotes (fst collected) then
    finalRemainingTime <- remainingTime startTime ;;
    if finalRemainingTime >? 200 then
      tryCatch
        (oracleQuote <-
           call pyth_oracle request (inject_Z (finalRemainingTime - 50)) ;;
         resolve (fst collected ++ [oracleQuote], snd collected))
        (fun error => resolve (fst collected, snd collected ++ [error]))
    else resolve collected
  else resolve collected.

(** The stages up to the final test on [results]. *)
Definition collect (request : QuoteRequest.t) (startTime : Z)
  : Async (Breakers * World) Collected :=
  afterPrimary <- primaryAttempt request startTime ;;
  if succeededWithHighConfidence (fst afterPrimary) then resolve afterPrimary
  else
    afterBackup <- backupAttempts request startTime afterPrimary ;;
    oracleFallback request startTime afterBackup.

(** What is thrown when [results] is empty: the aggregate error, unless
    building its message throws first. *)
Definition allFailed (errors : list JsValue) : JsValue :=
  match messages errors with
  | Thrown typeError => typeError
  | Returned ms =>
      ErrorObject ("All quote services failed: " ++ join ms "; ")
  end.

Definition executeParallelWithFallback (request : QuoteRequest.t)
    (startTime : Z) : Async (Breakers * World) (list QuoteResponse) :=
  collected <- collect request startTime ;;
  match fst collected with
  | [] => reject (allFailed (snd collected))
  | results => resolve results
  end.

Definition calculateQuoteScore (quote : QuoteResponse) : Number :=
  let score := ofZ 0 in
  let score :=
    match confidence quote with
    | high => Number_add score (ofZ 1000)
    | medium => Number_add score (ofZ 500)
    | low => Number_add score (ofZ 100)
    end in
  let outputAmount_ := parseFloat (outputAmount quote) in
  let score :=
    Number_add score
      (Number_mul (Math_log (Number_add outputAmount_ (ofZ 1))) (ofZ 10)) in
  let score :=
    match source quote with
    | jupiter => Number_add score (ofZ 100)
    | hashflow => Number_add score (ofZ 80)
    | dflow => Number_add score (ofZ 60)
    | pyth_oracle => Number_add score (ofZ 20)
    end in
  let score :=
    match warnings quote with
    | Some ws =>
        if (0 <? List.length ws)%nat then
          Number_sub score
            (Number_mul (ofZ (Z.of_nat (List.length ws))) (ofZ 50))
        else score
    | None => score
    end in
  score.

(** [(a, b) => b.score - a.score].  The sort looks at the sign of the
    difference alone, and the difference of two scores is positive exactly
    when the second is above the first, in binary64 as over the reals;
    two equal infinities give NaN, a tie. *)
Definition compareFn (a b : Scored) : Number :=
  Number_sub (score b) (score a).

(** The body of [selectBestQuote], over the scoring method it calls. *)
Definition selectBestBy (calculateQuoteScore : QuoteResponse -> Number)
    (quotes : list QuoteResponse) : Completion QuoteResponse :=
  match quotes with
  | [] => Thrown (ErrorObject "No quotes available")
  | _ =>
      let scored :=
        map (fun quote => mkScored quote (calculateQuoteScore quote))
            quotes in
      match Array_sort compareFn scored with
      | best :: _ => Returned (quote best)
      | [] => Thrown (TypeError
                "Cannot read properties of undefined (reading 'quote')")
      end
  end.

Definition selectBestQuote (quotes : list QuoteResponse)
  : Completion QuoteResponse :=
  selectBestBy calculateQuoteScore quotes.

Definition getOptimalQuote (request : QuoteRequest.t)
  : Async (Breakers * World) QuoteResponse :=
  startTime <- global Date_now ;;
  results <- executeParallelWithFallback request startTime ;;
  fun _ s => (selectBestQuote results, s).

End QuoteAggregatorService.

(* ================================================================= *)
(** ** Vocabulary of the properties *)

(** The world after one more reading of the clock, and after [n] of them. *)
Definition tick (w : World) : World :=
  mkWorld (S (ticks w)) (rolls w) (trace w).

Definition ticked (n : nat) (w : World) : World :=
  mkWorld (n + ticks w) (rolls w) (trace w).

Section BreakerRuns.
Context {T : Type}.
Variable cb : CircuitBreaker.
Variable env : Env.

(** A failure of the breaker's bookkeeping: the call gets past the guard
    and the wrapped operation throws. *)
Definition failedCall (operation : Async World T)
    (s : CircuitBreakerState * World) : bool :=
  match CircuitBreaker.gate env s with
  | (Returned _, s1) =>
      match operation env (snd s1) with
      | (Thrown _, _) => true
      | (Returned _, _) => false
      end
  | (Thrown _, _) => false
  end.

(** The calls of [operations], one after the other. *)
Fixpoint runCalls (operations : list (Async World T))
    (s : CircuitBreakerState * World)
  : list (Completion T) * (CircuitBreakerState * World) :=
  match operations with
  | [] => ([], s)
  | operation :: rest =>
      let (c, s1) := CircuitBreaker.execute cb operation env s in
      let (cs, s2) := runCalls rest s1 in
      (c :: cs, s2)
  end.

(** Every call of the run is a failure. *)
Fixpoint failureStreak (operations : list (Async World T))
    (s : CircuitBreakerState * World) : bool :=
  match operations with
  | [] => true
  | operation :: rest =>
      failedCall operation s
      && failureStreak rest (snd (CircuitBreaker.execute cb operation env s))
  end.
End BreakerRuns.

(** An operation scripted by its outcomes: the n-th invocation answers
    [script n]; its private state counts the invocations. *)
Definition scripted {T} (script : nat -> Completion T) : Async (nat * World) T :=
  fun _ s => (script (fst s), (S (fst s), snd s)).

(** [k] failures of the scripted operation, from invocation [n] on, each of
    which the classifier of the retry manager finds retryable. *)
Definition transientFailures {T} (script : nat -> Completion T) (n k : nat)
  : Prop :=
  forall i, (i < k)%nat ->
    exists e, script (n + i)%nat = Thrown e
              /\ RetryManager.isNonRetryableError e = Returned false.

(** The confidence rule for the primary source in the words of the
    specification: by price impact first, then one level down for a route
    of more than four hops. *)
Definition confidenceByImpact (impact : Number) : Confidence :=
  if Number_gt impact (ofZ 5) then low
  else if Number_gt impact (ofZ 1) && negb (Number_gt impact (ofZ 5))
       then medium
       else high.

Definition oneLevelDown (c : Confidence) : Confidence :=
  match c with
  | high => medium
  | medium => low
  | low => low
  end.

Definition primaryConfidence (impact : Number) (hops : nat) : Confidence :=
  if (4 <? hops)%nat then oneLevelDown (confidenceByImpact impact)
  else confidenceByImpact impact.

Definition primaryWarnings (impact : Number) (hops : nat) : list string :=
  (if Number_gt impact (ofZ 5)
   then [JupiterQuoteService.highImpactWarning] else [])
  ++ (if (4 <? hops)%nat
      then [JupiterQuoteService.complexRouteWarning] else []).

(** The warnings of a quote, none when the field is absent. *)
Definition warningsOf (q : QuoteResponse) : list string :=
  match warnings q with
  | Some ws => ws
  | None => []
  end.

(** [w'] continues [w] with events that all satisfy [P]. *)
Definition extends (P : Event -> bool) (w w' : World) : Prop :=
  exists new, trace w' = new ++ trace w /\ forallb P new = true.

(** The caught value is an [Error] instance. *)
Definition isErrorInstance (e : JsValue) : bool :=
  match e with
  | ErrorObject _ => true
  | StringValue _ | Undefined => false
  end.

(** The events a step may add when only the services in [allowed] are its
    to call: their calls, answers and requests, and sleeps. *)
Definition eventOf (allowed : Source -> bool) (e : Event) : bool :=
  match e with
  | Called s _ | Answered s | Fetch s => allowed s
  | Sleep _ => true
  end.

(** From [s] to [s'] only the services in [allowed] were involved: the
    trace grew by their events, and every other breaker is as it was. *)
Definition confined (allowed : Source -> bool) (s s' : Breakers * World)
  : Prop :=
  extends (eventOf allowed) (snd s) (snd s')
  /\ forall src, allowed src = false ->
                 breakerOf src (fst s') = breakerOf src (fst s).

Definition only (src : Source) : Source -> bool := fun s => Source_eqb s src.

(** The two sources of the backup stage. *)
Definition backups : Source -> bool := fun s => only dflow s || only hashflow s.

(** The message of the aggregate failure for the given reasons. *)
Definition aggregateMessage (reasons : list string) : string :=
  "All quote services failed: " ++ join (map Some reasons) "; ".

(** The score in the words of the specification: a base for the
    confidence, a liquidity term, a bonus for the source and a penalty for
    each warning, added up. *)
Definition confidenceBase (c : Confidence) : Z :=
  match c with
  | high => 1000
  | medium => 500
  | low => 100
  end.

Definition reliabilityBonus (s : Source) : Z :=
  match s with
  | jupiter => 100
  | hashflow => 80
  | dflow => 60
  | pyth_oracle => 20
  end.

Definition liquidityTerm (q : QuoteResponse) : Number :=
  Number_mul (Math_log (Number_add (parseFloat (outputAmount q)) (ofZ 1)))
             (ofZ 10).

Definition warningPenalty (q : QuoteResponse) : Z :=
  - 50 * Z.of_nat (List.length (warningsOf q)).

Definition totalScore (q : QuoteResponse) : Number :=
  Number_add
    (Number_add
       (Number_add (ofZ (confidenceBase (confidence q))) (liquidityTerm q))
       (ofZ (reliabilityBonus (source q))))
    (ofZ (warningPenalty q)).

(* ----------------------------------------------------------------- *)
(** *** Sample inputs *)

Definition sampleRequest : QuoteRequest.t :=
  QuoteRequest.mk "So11111111111111111111111111111111111111112" "newToken"
                  "1000000000" 50 None.

Definition emptyWorld : World := mkWorld 0 0 [].

(** Every upstream is unreachable; the clock advances by ten milliseconds
    a reading from 1000 on. *)
Definition outage : Env :=
  mkEnv (fun n => 1000 + 10 * Z.of_nat n) (fun _ => 1 # 2)
        (fun _ => NetworkError "jupiter unreachable")
        (fun _ => NetworkError "dflow unreachable")
        (fun _ => NetworkError "hashflow unreachable")
        (fun _ => NetworkError "pyth unreachable")
        false false.

(** An operation whose first failure is non-retryable and whose second
    invocation would succeed. *)
Definition unauthorizedOnce (n : nat) : Completion Z :=
  match n with
  | O => Thrown (StringValue "unauthorized")
  | S _ => Returned 42
  end.

(** An operation whose first failure is transient. *)
Definition busyOnce (n : nat) : Completion Z :=
  match n with
  | O => Thrown (StringValue "busy")
  | S _ => Returned 42
  end.

(** Jupiter answers with a price impact of 7, under both keys, and a route
    of five hops. *)
Definition illiquidRoute : JupiterJson.t :=
  JupiterJson.mk "1000000000" "52000" (Some "7"%string) (Some "7"%string)
                 (Some ["a"; "b"; "c"; "d"; "e"]%string) "51000" None 50.

Definition illiquid : Env :=
  mkEnv (clock outage) (random outage)
        (fun _ => Response true 200 "OK" (Json illiquidRoute))
        (dflowApi outage) (hashflowApi outage) (pythApi outage)
        false false.

(** Jupiter answers with a price impact of 0.2, under both keys, and a
    route of two hops. *)
Definition liquidRoute : JupiterJson.t :=
  JupiterJson.mk "1000000000" "52000" (Some "0.2"%string) (Some "0.2"%string)
                 (Some ["a"; "b"]%string) "51000" None 50.

(** Jupiter answers with a price impact of 7 under the key [priceImpactPct]
    alone, and a route of two hops. *)
Definition impactfulRoute : JupiterJson.t :=
  JupiterJson.mk "1000000000" "52000" None (Some "7"%string)
                 (Some ["a"; "b"]%string) "51000" None 50.

Definition impactful : Env :=
  mkEnv (clock outage) (random outage)
        (fun _ => Response true 200 "OK" (Json impactfulRoute))
        (dflowApi outage) (hashflowApi outage) (pythApi outage)
        false false.

Definition calm : Env :=
  mkEnv (clock outage) (random outage)
        (fun _ => Response true 200 "OK" (Json liquidRoute))
        (dflowApi outage) (hashflowApi outage) (pythApi outage)
        false false.

(** Only DFlow answers. *)
Definition dflowOnly : Env :=
  mkEnv (clock outage) (random outage) (jupiterApi outage)
        (fun _ => Response true 200 "OK"
                    (Json (DFlowJson.mk "51000" None "50000")))
        (hashflowApi outage) (pythApi outage)
        false false.

(** The quote DFlow returns for [sampleRequest] when it answers as in
    [dflowOnly]. *)
Definition quoteA : QuoteResponse :=
  mkQuote "1000000000" "51000" (ofZ 0) [] "50000" "ExactIn" 50
          dflow medium None.

(** A quote whose output amount does not read as a number. *)
Definition quoteUnreadable : QuoteResponse :=
  mkQuote "1000000000" "n/a" (ofZ 0) [] "0" "ExactIn" 50
          hashflow high None.

(* ----------------------------------------------------------------- *)
(** *** Further vocabulary *)

(** What every state a breaker can reach satisfies: the count is not
    negative, and an open breaker has counted up to its threshold. *)
Definition counted (cb : CircuitBreaker) (st : CircuitBreakerState) : Prop :=
  0 <= failureCount st
  /\ (isOpen st = true -> failureThreshold cb <= failureCount st).

(** The guard lets the call through: the breaker is closed, or the clock
    reading taken by the guard is at or past the next attempt time. *)
Definition letThrough (env : Env) (s : CircuitBreakerState * World) : bool :=
  negb (isOpen (fst s))
  || negb (clock env (ticks (snd s)) <? nextAttemptTime (fst s)).

(** The world the wrapped operation starts from. *)
Definition pastGuard (s : CircuitBreakerState * World) : World :=
  if isOpen (fst s) then tick (snd s) else snd s.

(** An operation that is down whatever the world. *)
Definition alwaysDown : Async World QuoteResponse :=
  fun _ w => (Thrown (ErrorObject "down"), w).

(** The account of a run of the retry loop entered at [attempt], from the
    invocation count [n] and the world [w] to [n'] and [w']: the trace grew
    by sleeps of at most [maxDelayMs], one between any two invocations, and
    the invocations are within what the loop condition allows. *)
Definition retryAccount (maxRetries : Z) (maxDelayMs : Q) (attempt : Z)
    (n : nat) (w : World) (n' : nat) (w' : World) : Prop :=
  exists delays,
    trace w' = map Sleep delays ++ trace w
    /\ Forall (fun d => (d <= maxDelayMs)%Q) delays
    /\ ticks w' = ticks w
    /\ rolls w' = (List.length delays + rolls w)%nat
    /\ (n <= n')%nat
    /\ (n' - n <= Z.to_nat (maxRetries + 1 - attempt))%nat
    /\ List.length delays = Nat.pred (n' - n)
    /\ (attempt <= maxRetries -> (n < n')%nat).

(** An operation that is busy on every invocation. *)
Definition alwaysBusy (n : nat) : Completion Z :=
  Thrown (StringValue "busy").

(** An operation whose first failure is an [Error] instance. *)
Definition errorOnce (n : nat) : Completion Z :=
  match n with
  | O => Thrown (ErrorObject "Jupiter API error: 503 Busy")
  | S _ => Returned 42
  end.

(** Jupiter answers 429 with a body that would parse. *)
Definition rateLimited : Env :=
  mkEnv (clock outage) (random outage)
        (fun _ => Response false 429 "Too Many Requests" (Json liquidRoute))
        (dflowApi outage) (hashflowApi outage) (pythApi outage)
        false false.

(** DFlow answers 503 with a body that parses. *)
Definition dflowUnavailable : Env :=
  mkEnv (clock outage) (random outage) (jupiterApi outage)
        (fun _ => Response false 503 "Service Unavailable"
                    (Json (DFlowJson.mk "51000" None "50000")))
        (hashflowApi outage) (pythApi outage)
        false false.

(** The timeouts the stages hand to the services: Jupiter above 100 ms and
    at most 1000, a backup above 150 and at most 800, the oracle above
    150. *)
Definition Qlt_bool (a b : Q) : bool := negb (Qle_bool b a).

Definition stageTimeout (src : Source) (timeoutMs : Q) : bool :=
  match src with
  | jupiter => Qlt_bool 100 timeoutMs && Qle_bool timeoutMs 1000
  | dflow | hashflow => Qlt_bool 150 timeoutMs && Qle_bool timeoutMs 800
  | pyth_oracle => Qlt_bool 150 timeoutMs
  end.

(** An event of a request: a call with a timeout of its stage, an answer
    or an upstream request; not a sleep. *)
Definition requestEvent (e : Event) : bool :=
  match e with
  | Called s t => stageTimeout s t
  | Answered _ | Fetch _ => true
  | Sleep _ => false
  end.

(** The sources of a list of results that holds at most one quote of each
    source, in the order of the stages. *)
Definition inStageOrder (sources : list Source) : Prop :=
  exists j d h p : bool,
    sources = (if j then [jupiter] else [])
              ++ (if d then [dflow] else [])
              ++ (if h then [hashflow] else [])
              ++ (if p then [pyth_oracle] else []).

(** The event loop stalls: the first reading of the clock is 0, every
    later one 5000. *)
Definition stalled : Env :=
  mkEnv (fun n => match n with O => 0 | S _ => 5000 end) (random outage)
        (jupiterApi outage) (dflowApi outage) (hashflowApi outage)
        (pythApi outage) false false.

(** Jupiter's breaker is open until the clock shows 9000. *)
Definition jupiterTripped : Breakers :=
  mkBreakers (mkState true 3 4000 9000) initialState initialState initialState.

(** Jupiter is down; DFlow and Hashflow both answer with the output
    amount Infinity. *)
Definition unbounded : Env :=
  mkEnv (clock outage) (random outage) (jupiterApi outage)
        (fun _ => Response true 200 "OK"
                    (Json (DFlowJson.mk "Infinity" None "Infinity")))
        (fun _ => Response true 200 "OK"
                    (Json (HashflowJson.mk "Infinity" "Infinity")))
        (pythApi outage) false false.

(** The quotes DFlow and Hashflow return for [sampleRequest] then. *)
Definition quoteDFlowUnbounded : QuoteResponse :=
  mkQuote "1000000000" "Infinity" (ofZ 0) [] "Infinity" "ExactIn" 50
          dflow medium None.

Definition quoteHashflowUnbounded : QuoteResponse :=
  mkQuote "1000000000" "Infinity" (ofZ 0) [] "Infinity" "ExactIn" 0
          hashflow high None.

(* ================================================================= *)
(** * Properties *)

Unset Implicit Arguments.

(* ================================================================= *)
(** ** Circuit breaker *)

Ltac unfold_async :=
  unfold await, tryCatch, readState, modify, global, resolve, reject,
    Date_now, Math_random, sleep, log, record, tick in *.

(** [execute] in closed form. *)
Lemma execute_eq T (cb : CircuitBreaker) (operation : Async World T) env st w :
  CircuitBreaker.execute cb operation env (st, w) =
  if isOpen st && (clock env (ticks w) <? nextAttemptTime st)
  then (Thrown circuitOpen, (st, tick w))
  else
    match operation env (if isOpen st then tick w else w) with
    | (Returned v, w2) =>
        (Returned v,
         (mkState false 0 (lastFailureTime st) (nextAttemptTime st), w2))
    | (Thrown e, w2) =>
        (Thrown e,
         if failureCount st + 1 >=? failureThreshold cb
         then (mkState true (failureCount st + 1) (clock env (ticks w2))
                       (clock env (S (ticks w2)) + halfOpenRetryDelayMs cb),
               tick (tick w2))
         else (mkState false (failureCount st + 1) (clock env (ticks w2))
                       (nextAttemptTime st),
               tick w2))
    end.
Proof.
  unfold CircuitBreaker.execute, CircuitBreaker.gate, CircuitBreaker.onSuccess,
    CircuitBreaker.onFailure.
  unfold_async. cbn.
  destruct (isOpen st) eqn:Ho; cbn.
  - destruct (clock env (ticks w) <? nextAttemptTime st); cbn; [reflexivity|].
    destruct (operation env _) as [[v|e] w2]; cbn; [reflexivity|].
    destruct (failureCount st + 1 >=? failureThreshold cb); reflexivity.
  - destruct (operation env w) as [[v|e] w2]; cbn; [reflexivity|].
    destruct (failureCount st + 1 >=? failureThreshold cb); rewrite ?Ho;
      reflexivity.
Qed.

Lemma gate_eq env st w :
  CircuitBreaker.gate env (st, w) =
  if isOpen st then
    if clock env (ticks w) <? nextAttemptTime st
    then (Thrown circuitOpen, (st, tick w))
    else (Returned tt,
          (mkState false (failureCount st) (lastFailureTime st)
                   (nextAttemptTime st), tick w))
  else (Returned tt, (st, w)).
Proof.
  unfold CircuitBreaker.gate. unfold_async. cbn.
  destruct (isOpen st); cbn; [|reflexivity].
  destruct (clock env (ticks w) <? nextAttemptTime st); reflexivity.
Qed.

(** C10.  A call that finds the breaker open before the next attempt is due
    throws the open-circuit error and leaves the four fields of the state as
    they were: the failure count is not incremented and the next attempt
    time is not pushed back.  Only the clock was read; the result does not
    depend on the wrapped operation, which is not run. *)
Theorem fast_fail_leaves_state_unchanged :
  forall T (cb : CircuitBreaker) (operation : Async World T) env st w,
    isOpen st = true ->
    clock env (ticks w) < nextAttemptTime st ->
    CircuitBreaker.execute cb operation env (st, w)
    = (Thrown circuitOpen, (st, tick w)).
Proof.
  intros T cb operation env st w Hopen Hnow.
  rewrite execute_eq, Hopen.
  apply Z.ltb_lt in Hnow. rewrite Hnow. reflexivity.
Qed.

Lemma ticked_tick n w : ticked n (tick w) = ticked (S n) w.
Proof. unfold ticked, tick; cbn. now rewrite Nat.add_succ_r. Qed.

(** What one failure does to the state. *)
Lemma failedCall_step T (cb : CircuitBreaker) env (operation : Async World T) st w :
  failedCall env operation (st, w) = true ->
  exists e st' w',
    CircuitBreaker.execute cb operation env (st, w) = (Thrown e, (st', w'))
    /\ failureCount st' = failureCount st + 1
    /\ isOpen st' = (failureCount st' >=? failureThreshold cb)
    /\ (isOpen st' = true ->
        nextAttemptTime st'
        = clock env (pred (ticks w')) + halfOpenRetryDelayMs cb).
Proof.
  unfold failedCall. rewrite gate_eq, execute_eq.
  destruct (isOpen st) eqn:Ho; cbn.
  - destruct (clock env (ticks w) <? nextAttemptTime st); cbn; [discriminate|].
    destruct (operation env (tick w)) as [[v|e] w2]; [discriminate|].
    intros _. exists e.
    destruct (failureCount st + 1 >=? failureThreshold cb) eqn:Hc;
      eexists; eexists; (split; [reflexivity|]); cbn; rewrite Hc;
      repeat split; congruence.
  - destruct (operation env w) as [[v|e] w2]; [discriminate|].
    intros _. exists e.
    destruct (failureCount st + 1 >=? failureThreshold cb) eqn:Hc;
      eexists; eexists; (split; [reflexivity|]); cbn; rewrite Hc;
      repeat split; congruence.
Qed.

(** A run of failures counts each of them, and the breaker is open after
    the last one exactly when the count has reached the threshold. *)
Lemma failureStreak_counts T (cb : CircuitBreaker) env
    (operations : list (Async World T)) :
  forall s,
    failureStreak cb env operations s = true ->
    operations <> [] ->
    let s' := snd (runCalls cb env operations s) in
    failureCount (fst s') = failureCount (fst s) + Z.of_nat (List.length operations)
    /\ isOpen (fst s') = (failureCount (fst s') >=? failureThreshold cb)
    /\ (isOpen (fst s') = true ->
        nextAttemptTime (fst s')
        = clock env (pred (ticks (snd s'))) + halfOpenRetryDelayMs cb).
Proof.
  induction operations as [|op rest IH]; intros [st w] Hs Hne; [congruence|].
  cbn [failureStreak] in Hs. apply andb_prop in Hs as [Hf Hrest].
  destruct (failedCall_step _ cb env op st w Hf)
    as (e & st' & w' & Hex & Hcount & Hopen & Hnext).
  cbn [runCalls]. rewrite Hex in *. cbn [snd] in Hrest.
  destruct rest as [|op' rest'].
  - cbn. repeat split; assumption.
  - specialize (IH (st', w') Hrest ltac:(discriminate)).
    destruct (runCalls cb env (op' :: rest') (st', w')) as [cs s2] eqn:Hrun.
    cbn [snd fst] in *. destruct IH as (IHc & IHo & IHn).
    repeat split; try assumption.
    rewrite IHc, Hcount. cbn [List.length]. lia.
Qed.

(** While the breaker is open and the next attempt is not due, calls fail
    fast one after the other: nothing but the clock moves. *)
Lemma open_breaker_fails_fast T (cb : CircuitBreaker) env
    (later : list (Async World T)) st :
  isOpen st = true ->
  forall w,
    (forall i, (i < List.length later)%nat ->
               clock env (i + ticks w) < nextAttemptTime st) ->
    runCalls cb env later (st, w)
    = (map (fun _ => Thrown circuitOpen) later, (st, ticked (List.length later) w)).
Proof.
  intros Hopen. induction later as [|op rest IH]; intros w Hdue.
  - cbn. unfold ticked. now destruct w.
  - cbn [runCalls].
    rewrite (fast_fail_leaves_state_unchanged _ cb op env st w Hopen
               (Hdue 0%nat ltac:(cbn; lia))).
    rewrite IH.
    + cbn [map List.length]. now rewrite ticked_tick.
    + intros i Hi. cbn [tick ticks].
      replace (i + S (ticks w))%nat with (S i + ticks w)%nat by lia.
      apply Hdue. cbn. lia.
Qed.

(** The half-open trial: once the next attempt is due, the call goes
    through, and its success closes the breaker and clears the count. *)
Lemma trial_success_closes T (cb : CircuitBreaker) env
    (trial : Async World T) st w v w' :
  isOpen st = true ->
  nextAttemptTime st <= clock env (ticks w) ->
  trial env (tick w) = (Returned v, w') ->
  CircuitBreaker.execute cb trial env (st, w)
  = (Returned v,
     (mkState false 0 (lastFailureTime st) (nextAttemptTime st), w')).
Proof.
  intros Hopen Hdue Htrial. rewrite execute_eq, Hopen.
  apply Z.ltb_ge in Hdue. rewrite Hdue. cbn. now rewrite Htrial.
Qed.

(** C2.  Count consecutive failures from a state whose failure count is
    zero (a new breaker, or any breaker after a success).  After a run of
    exactly [failureThreshold] failures the breaker is open, its next
    attempt being due [halfOpenRetryDelayMs] after the clock reading taken
    when it opened.  From then on every call whose clock reading is before
    that time throws the open-circuit error, moves nothing but the clock
    and does not run its operation.  A call whose reading is at or past
    that time runs its operation, and when that succeeds the breaker is
    closed with a failure count of zero. *)
Theorem breaker_opens_fails_fast_then_closes :
  forall T (cb : CircuitBreaker) env (failures : list (Async World T)) s,
    failureCount (fst s) = 0 ->
    failures <> [] ->
    Z.of_nat (List.length failures) = failureThreshold cb ->
    failureStreak cb env failures s = true ->
    let opened := snd (runCalls cb env failures s) in
    isOpen (fst opened) = true
    /\ nextAttemptTime (fst opened)
       = clock env (pred (ticks (snd opened))) + halfOpenRetryDelayMs cb
    /\ (forall (later : list (Async World T)) w,
          (forall i, (i < List.length later)%nat ->
                     clock env (i + ticks w) < nextAttemptTime (fst opened)) ->
          runCalls cb env later (fst opened, w)
          = (map (fun _ => Thrown circuitOpen) later,
             (fst opened, ticked (List.length later) w)))
    /\ (forall (trial : Async World T) w v w',
          nextAttemptTime (fst opened) <= clock env (ticks w) ->
          trial env (tick w) = (Returned v, w') ->
          exists closed,
            CircuitBreaker.execute cb trial env (fst opened, w)
            = (Returned v, (closed, w'))
            /\ isOpen closed = false
            /\ failureCount closed = 0).
Proof.
  intros T cb env failures s Hzero Hne Hlen Hstreak opened.
  destruct (failureStreak_counts _ cb env failures s Hstreak Hne)
    as (Hcount & Hopen & Hnext).
  fold opened in Hcount, Hopen, Hnext.
  assert (Hisopen : isOpen (fst opened) = true).
  { rewrite Hopen, Hcount, Hzero, Hlen. apply Z.geb_le. lia. }
  split; [exact Hisopen|]. split; [exact (Hnext Hisopen)|]. split.
  - intros later w Hdue. now apply open_breaker_fails_fast.
  - intros trial w v w' Hdue Htrial.
    eexists. split; [now apply trial_success_closes|]. split; reflexivity.
Qed.

(** A run of consecutive failures starts from a count of zero: the state of
    a new breaker, and the state any successful call leaves. *)
Lemma success_clears_count T (cb : CircuitBreaker) env
    (operation : Async World T) s v s' :
  CircuitBreaker.execute cb operation env s = (Returned v, s') ->
  failureCount (fst s') = 0 /\ isOpen (fst s') = false.
Proof.
  destruct s as [st w]. rewrite execute_eq.
  destruct (isOpen st && _); [discriminate|].
  destruct (operation env _) as [[v'|e] w2].
  - intros H; inversion H; subst. split; reflexivity.
  - destruct (_ >=? _); discriminate.
Qed.

(** Below the threshold a run of failures leaves the breaker closed. *)
Lemma breaker_stays_closed_below_threshold T (cb : CircuitBreaker) env
    (failures : list (Async World T)) s :
  failureCount (fst s) = 0 ->
  failures <> [] ->
  Z.of_nat (List.length failures) < failureThreshold cb ->
  failureStreak cb env failures s = true ->
  isOpen (fst (snd (runCalls cb env failures s))) = false.
Proof.
  intros Hzero Hne Hlen Hstreak.
  destruct (failureStreak_counts _ cb env failures s Hstreak Hne)
    as (Hcount & Hopen & _).
  rewrite Hopen, Hcount, Hzero.
  destruct (0 + Z.of_nat (List.length failures) >=? failureThreshold cb) eqn:H;
    [apply Z.geb_le in H; lia | reflexivity].
Qed.

(** C10 at a breaker opened at 1000 for five seconds and called at 1000. *)
Lemma fast_fail_leaves_state_unchanged_witness :
  CircuitBreaker.execute JupiterQuoteService.circuitBreaker
    (JupiterQuoteService.operation sampleRequest 900) outage
    (mkState true 3 1000 6000, emptyWorld)
  = (Thrown circuitOpen, (mkState true 3 1000 6000, tick emptyWorld)).
Proof.
  apply fast_fail_leaves_state_unchanged; [reflexivity | cbn; lia].
Defined.

(** C2 at Jupiter's breaker (threshold 3) during an outage. *)
Lemma breaker_opens_fails_fast_then_closes_witness :
  isOpen
    (fst (snd (runCalls JupiterQuoteService.circuitBreaker outage
                 [JupiterQuoteService.operation sampleRequest 900;
                  JupiterQuoteService.operation sampleRequest 900;
                  JupiterQuoteService.operation sampleRequest 900]
                 (initialState, emptyWorld))))
  = true.
Proof.
  exact (proj1 (breaker_opens_fails_fast_then_closes QuoteResponse
                  JupiterQuoteService.circuitBreaker outage
                  [JupiterQuoteService.operation sampleRequest 900;
                   JupiterQuoteService.operation sampleRequest 900;
                   JupiterQuoteService.operation sampleRequest 900]
                  (initialState, emptyWorld)
                  eq_refl ltac:(discriminate) eq_refl eq_refl)).
Defined.

(* ================================================================= *)
(** ** Retry manager *)

(** The fuel [executeWithRetry] starts with is never what ends the loop:
    with at least the iterations the loop condition allows, one more unit
    changes nothing. *)
Lemma attempts_fuel_suffices X T (operation : Async (X * World) T)
    maxRetries baseDelayMs maxDelayMs fuel :
  forall attempt lastError env s,
    (Z.to_nat (maxRetries + 1 - attempt) <= fuel)%nat ->
    RetryManager.attempts operation maxRetries baseDelayMs maxDelayMs
                          (S fuel) attempt lastError env s
    = RetryManager.attempts operation maxRetries baseDelayMs maxDelayMs
                            fuel attempt lastError env s.
Proof.
  induction fuel as [|fuel IH]; intros attempt lastError env s Hfuel.
  - cbn [RetryManager.attempts].
    replace (attempt <=? maxRetries) with false; [reflexivity|].
    symmetry. apply Z.leb_gt. lia.
  - cbn [RetryManager.attempts].
    destruct (attempt <=? maxRetries) eqn:Hguard; [|reflexivity].
    unfold tryCatch. destruct (operation env s) as [[v|error] s1];
      [reflexivity|].
    destruct (attempt =? maxRetries); [reflexivity|].
    destruct (RetryManager.isNonRetryableError error) as [[|]|e];
      try reflexivity.
    unfold await. destruct (global Math_random env s1) as [[j|e] s2];
      [|reflexivity].
    destruct (global (sleep _) env s2) as [[u|e] s3]; [|reflexivity].
    rewrite <- IH by lia. reflexivity.
Qed.

Section Retry.
Context {T : Type}.
Variable script : nat -> Completion T.
Variables (maxRetries : Z) (baseDelayMs maxDelayMs : Q).
Variable env : Env.

(** The loop entered at [attempt] with [k] transient failures ahead and
    room for them: it returns the success after [k + 1] invocations and
    [k] sleeps. *)
Lemma attempts_reach_success :
  forall k fuel attempt n w lastError v,
    (k < fuel)%nat ->
    attempt + Z.of_nat k <= maxRetries ->
    transientFailures script n k ->
    script (n + k)%nat = Returned v ->
    exists w',
      RetryManager.attempts (scripted script) maxRetries baseDelayMs
                            maxDelayMs fuel attempt lastError env (n, w)
      = (Returned v, ((n + k + 1)%nat, w'))
      /\ ticks w' = ticks w
      /\ rolls w' = (k + rolls w)%nat
      /\ sleepCount w' = (k + sleepCount w)%nat
      /\ (forall src, fetchCount src w' = fetchCount src w).
Proof.
  induction k as [|k IH]; intros fuel attempt n w lastError v Hfuel Hroom
    Htransient Hsuccess.
  - destruct fuel as [|fuel]; [lia|].
    exists w. cbn [RetryManager.attempts].
    replace (attempt <=? maxRetries) with true
      by (symmetry; apply Z.leb_le; lia).
    unfold tryCatch, scripted. cbn [fst snd].
    rewrite Nat.add_0_r in Hsuccess. rewrite Hsuccess.
    replace (n + 0 + 1)%nat with (S n) by lia.
    repeat split; reflexivity.
  - destruct fuel as [|fuel]; [lia|].
    destruct (Htransient 0%nat ltac:(lia)) as (e & He & Hclass).
    rewrite Nat.add_0_r in He.
    destruct (IH fuel (attempt + 1) (S n)
                 (record (Sleep (RetryManager.backoff baseDelayMs maxDelayMs
                                   attempt (random env (rolls w))))
                         (mkWorld (ticks w) (S (rolls w)) (trace w)))
                 e v)
      as (w' & Hrun & Hticks & Hrolls & Hsleeps & Hfetches).
    + lia.
    + lia.
    + intros i Hi. replace (S n + i)%nat with (n + S i)%nat by lia.
      apply Htransient. lia.
    + replace (S n + k)%nat with (n + S k)%nat by lia. exact Hsuccess.
    + exists w'. cbn [RetryManager.attempts].
      replace (attempt <=? maxRetries) with true
        by (symmetry; apply Z.leb_le; lia).
      unfold tryCatch at 1. unfold scripted at 1. cbn [fst snd].
      rewrite He.
      replace (attempt =? maxRetries) with false
        by (symmetry; apply Z.eqb_neq; lia).
      rewrite Hclass. unfold_async. cbn [fst snd].
      cbn [fst snd] in Hrun. rewrite Hrun.
      replace (S n + k + 1)%nat with (n + S k + 1)%nat by lia.
      split; [reflexivity|].
      cbn in Hticks, Hrolls. unfold sleepCount, fetchCount in *.
      cbn in Hsleeps, Hfetches.
      repeat split; try lia.
      intros src. rewrite Hfetches. reflexivity.
Qed.

(** A first failure the classifier finds non-retryable ends the loop at
    once: one invocation, the failure itself thrown, the world untouched
    (no random draw, no sleep). *)
Lemma non_retryable_stops_at_once :
  forall n w e,
    0 <= maxRetries ->
    script n = Thrown e ->
    RetryManager.isNonRetryableError e = Returned true ->
    RetryManager.executeWithRetry (scripted script) maxRetries
                                  baseDelayMs maxDelayMs env (n, w)
    = (Thrown e, (S n, w)).
Proof.
  intros n w e Hmax He Hclass. unfold RetryManager.executeWithRetry.
  destruct (Z.to_nat (maxRetries + 1)) as [|fuel] eqn:Hfuel; [lia|].
  cbn [RetryManager.attempts].
  replace (0 <=? maxRetries) with true by (symmetry; apply Z.leb_le; lia).
  unfold tryCatch, scripted. cbn [fst snd]. rewrite He, Hclass.
  destruct (0 =? maxRetries); reflexivity.
Qed.

(** A failure that is an [Error] instance cannot be classified: while
    retries remain the classifier's own TypeError is what is thrown, after
    that single invocation. *)
Lemma error_instance_is_not_retried :
  forall n w m,
    0 < maxRetries ->
    script n = Thrown (ErrorObject m) ->
    RetryManager.executeWithRetry (scripted script) maxRetries
                                  baseDelayMs maxDelayMs env (n, w)
    = (Thrown (TypeError "error.includes is not a function"), (S n, w)).
Proof.
  intros n w m Hmax He. unfold RetryManager.executeWithRetry.
  destruct (Z.to_nat (maxRetries + 1)) as [|fuel] eqn:Hfuel; [lia|].
  cbn [RetryManager.attempts].
  replace (0 <=? maxRetries) with true by (symmetry; apply Z.leb_le; lia).
  unfold tryCatch, scripted. cbn [fst snd]. rewrite He.
  replace (0 =? maxRetries) with false by (symmetry; apply Z.eqb_neq; lia).
  reflexivity.
Qed.

(** What the loop does with failures the classifier can read, that is,
    with strings.  When the operation fails [k < maxRetries] times, each
    failure being a string the classifier finds retryable, and then
    succeeds, [executeWithRetry] returns that success after [k + 1]
    invocations, which is at most [maxRetries], having slept [k] times.
    When the first failure is a string the classifier finds non-retryable
    (and [maxRetries] is not negative), the operation is invoked exactly
    once and that failure is thrown with no delay: the world is as it
    was. *)
Theorem retry_returns_success_or_stops_at_once :
  forall n w,
    (forall k v,
        Z.of_nat k < maxRetries ->
        transientFailures script n k ->
        script (n + k)%nat = Returned v ->
        exists w',
          RetryManager.executeWithRetry (scripted script) maxRetries
                                        baseDelayMs maxDelayMs env (n, w)
          = (Returned v, ((n + k + 1)%nat, w'))
          /\ Z.of_nat (k + 1) <= maxRetries
          /\ sleepCount w' = (k + sleepCount w)%nat)
    /\ (forall e,
           0 <= maxRetries ->
           script n = Thrown e ->
           RetryManager.isNonRetryableError e = Returned true ->
           RetryManager.executeWithRetry (scripted script) maxRetries
                                         baseDelayMs maxDelayMs env (n, w)
           = (Thrown e, (S n, w))).
Proof.
  intros n w. split.
  - intros k v Hk Htransient Hsuccess.
    destruct (attempts_reach_success k (Z.to_nat (maxRetries + 1)) 0 n w
                Undefined v)
      as (w' & Hrun & _ & _ & Hsleeps & _); try assumption; try lia.
    exists w'. repeat split; [exact Hrun | lia | exact Hsleeps].
  - intros e. apply non_retryable_stops_at_once.
Qed.
End Retry.

(** C3.  The claim fails at an operation that rejects once with an [Error]
    and would then succeed, with three retries allowed: the catch block
    takes the caught value for an [Error] and still calls [includes] on
    it, so the TypeError of that call leaves the loop after the one
    invocation, and the success of the second invocation is never
    reached. *)
Theorem transient_error_is_not_retried :
  errorOnce 0 = Thrown (ErrorObject "Jupiter API error: 503 Busy")
  /\ errorOnce 1 = Returned 42
  /\ Z.of_nat 1 < 3
  /\ RetryManager.isNonRetryableError
       (ErrorObject "Jupiter API error: 503 Busy")
     = Thrown (TypeError "error.includes is not a function")
  /\ RetryManager.executeWithRetry (scripted errorOnce) 3 100 1000
                                   outage (0%nat, emptyWorld)
     = (Thrown (TypeError "error.includes is not a function"),
        (1%nat, emptyWorld)).
Proof.
  split; [reflexivity|]. split; [reflexivity|]. split; [reflexivity|].
  split; [reflexivity|].
  apply (error_instance_is_not_retried errorOnce 3 100 1000 outage
           0%nat emptyWorld "Jupiter API error: 503 Busy"%string);
    reflexivity.
Qed.

(** At an operation that is busy once and at one that is unauthorized. *)
Lemma retry_returns_success_or_stops_at_once_witness :
  (exists w',
      RetryManager.executeWithRetry (scripted busyOnce) 3 100 1000
                                    outage (0%nat, emptyWorld)
      = (Returned 42, ((0 + 1 + 1)%nat, w'))
      /\ Z.of_nat (1 + 1) <= 3
      /\ sleepCount w' = (1 + sleepCount emptyWorld)%nat)
  /\ RetryManager.executeWithRetry (scripted unauthorizedOnce) 3 100 1000
                                   outage (0%nat, emptyWorld)
     = (Thrown (StringValue "unauthorized"), (1%nat, emptyWorld)).
Proof.
  split.
  - apply (proj1 (retry_returns_success_or_stops_at_once
                    busyOnce 3 100 1000 outage 0%nat emptyWorld) 1%nat 42).
    + reflexivity.
    + intros i Hi. exists (StringValue "busy").
      destruct i; [split; reflexivity | lia].
    + reflexivity.
  - apply (proj2 (retry_returns_success_or_stops_at_once
                    unauthorizedOnce 3 100 1000 outage 0%nat emptyWorld)).
    + discriminate.
    + reflexivity.
    + reflexivity.
Defined.

(** The operations of this repository throw [Error] instances, and for
    those the retry never happens.  Here Jupiter is unreachable once. *)
Example error_instance_is_not_retried_example :
  RetryManager.executeWithRetry
    (scripted (fun n : nat =>
                 match n with
                 | O => Thrown (ErrorObject "Jupiter API error: 503 Busy")
                 | S _ => Returned 42
                 end))
    2 50 200 outage (0%nat, emptyWorld)
  = (Thrown (TypeError "error.includes is not a function"),
     (1%nat, emptyWorld)).
Proof. reflexivity. Qed.

(* ================================================================= *)
(** ** Primary source *)

Lemma Q2R_inject_Z z : Q2R (inject_Z z) = IZR z.
Proof. unfold Q2R, inject_Z. cbn. lra. Qed.

(** Comparing a decimal with an integer is a comparison of rationals. *)
Lemma Number_gt_decimal q z :
  Number_gt (Finite (Q2R q)) (ofZ z) = negb (Qle_bool q (inject_Z z)).
Proof.
  unfold Number_gt, ofZ. rewrite <- Q2R_inject_Z.
  destruct (Rlt_dec (Q2R (inject_Z z)) (Q2R q)) as [H|H].
  - apply Rlt_Qlt in H.
    destruct (Qle_bool q (inject_Z z)) eqn:Hle; [|reflexivity].
    apply Qle_bool_iff in Hle. exfalso. now apply (Qlt_not_le _ _ H).
  - destruct (Qle_bool q (inject_Z z)) eqn:Hle; [reflexivity|].
    exfalso. apply H. apply Qlt_Rlt. apply Qnot_le_lt.
    intros Hq. apply Qle_bool_iff in Hq. congruence.
Qed.

Lemma parseFloat_decimal s q :
  readLiteral s = Decimal q -> parseFloat s = Finite (Q2R q).
Proof. unfold parseFloat. now intros ->. Qed.

Lemma confidenceByImpact_eq impact :
  confidenceByImpact impact
  = if Number_gt impact (ofZ 5) then low
    else if Number_gt impact (ofZ 1) then medium else high.
Proof.
  unfold confidenceByImpact.
  destruct (Number_gt impact (ofZ 5)); [reflexivity|].
  now rewrite andb_true_r.
Qed.

(** The quote built from a response follows the rule. *)
Lemma validate_confidence data :
  let q := JupiterQuoteService.validate data in
  confidence q
  = primaryConfidence (priceImpactPct q) (List.length (routePlan q))
  /\ warningsOf q
     = primaryWarnings (priceImpactPct q) (List.length (routePlan q))
  /\ source q = jupiter.
Proof.
  unfold JupiterQuoteService.validate, primaryConfidence, primaryWarnings,
    warningsOf.
  rewrite confidenceByImpact_eq. cbn [priceImpactPct routePlan].
  set (impact := parseFloat (orElse (JupiterJson.priceImpactPact data) "0")).
  destruct (Number_gt impact (ofZ 5)) eqn:H5;
    [|destruct (Number_gt impact (ofZ 1)) eqn:H1];
    (destruct (JupiterJson.routePlan data) as [plan|];
     [destruct (4 <? List.length plan)%nat eqn:Hhops|]);
    cbn -[Nat.ltb]; rewrite ?H5, ?H1, ?Hhops; repeat split.
Qed.

(** A quote that Jupiter's [getQuote] returns was built by [validate] from
    a response. *)
Lemma jupiter_quote_is_validated request timeoutMs env s q s' :
  getQuote JupiterQuoteService.service request timeoutMs env s
  = (Returned q, s') ->
  exists data, q = JupiterQuoteService.validate data.
Proof.
  destruct s as [st w]. cbn [getQuote JupiterQuoteService.service].
  rewrite execute_eq.
  destruct (isOpen st && _); [discriminate|].
  unfold JupiterQuoteService.operation, fetch. unfold_async.
  destruct (jupiterApi env _) as [m|ok status text [data|m]]; cbn.
  - destruct (_ >=? _); discriminate.
  - destruct ok; cbn.
    + intros H; inversion H; subst. now exists data.
    + destruct (_ >=? _); discriminate.
  - destruct ok; cbn; destruct (_ >=? _); discriminate.
Qed.

(** The fields that [validate] copies from the response. *)
Lemma validate_fields data :
  priceImpactPct (JupiterQuoteService.validate data)
  = parseFloat (orElse (JupiterJson.priceImpactPact data) "0")
  /\ routePlan (JupiterQuoteService.validate data)
     = match JupiterJson.routePlan data with
       | Some plan => plan
       | None => []
       end
  /\ outputAmount (JupiterQuoteService.validate data)
     = JupiterJson.outAmount data.
Proof.
  unfold JupiterQuoteService.validate.
  destruct (Number_gt _ _); [|destruct (Number_gt _ _)];
    (destruct (JupiterJson.routePlan data) as [plan|];
     [destruct (4 <? List.length plan)%nat|]);
    split; try reflexivity; split; reflexivity.
Qed.

(** The quote that Jupiter's [getQuote] returns for a response that is [ok]
    and parses: the rule applied to the number read under the key
    [priceImpactPact], 0 when that key is absent, and to the length of the
    route of the response.  What the response holds under [priceImpactPct]
    plays no part. *)
Lemma jupiter_confidence_follows_the_key_read :
  forall request timeoutMs env st w status statusText data,
    isOpen st = false ->
    jupiterApi env (fetchCount jupiter w)
    = Response true status statusText (Json data) ->
    exists q s',
      getQuote JupiterQuoteService.service request timeoutMs env (st, w)
      = (Returned q, s')
      /\ priceImpactPct q
         = parseFloat (orElse (JupiterJson.priceImpactPact data) "0")
      /\ routePlan q
         = match JupiterJson.routePlan data with
           | Some plan => plan
           | None => []
           end
      /\ confidence q
         = primaryConfidence (priceImpactPct q) (List.length (routePlan q))
      /\ warningsOf q
         = primaryWarnings (priceImpactPct q) (List.length (routePlan q)).
Proof.
  intros request timeoutMs env st w status statusText data Hclosed Hapi.
  cbn [getQuote JupiterQuoteService.service].
  rewrite execute_eq, Hclosed. cbn [andb].
  unfold JupiterQuoteService.operation, fetch. unfold_async.
  cbn [fst snd]. rewrite Hapi. cbn [negb].
  eexists. eexists. split; [reflexivity|].
  destruct (validate_confidence data) as (Hc & Hw & _).
  destruct (validate_fields data) as (Hi & Hr & _).
  split; [exact Hi|]. split; [exact Hr|]. split; [exact Hc | exact Hw].
Qed.

(** C4.  The claim fails at a response that carries its price impact under
    the key [priceImpactPct]: an impact of 7 over a route of two hops.  The
    rule of the claim gives low confidence with the high-impact warning;
    [getQuote] looks under [priceImpactPact], finds nothing, takes the
    impact for 0 and returns a quote of high confidence without
    warnings. *)
Theorem payload_price_impact_is_not_read :
  JupiterJson.priceImpactPct impactfulRoute = Some "7"%string
  /\ primaryConfidence (parseFloat "7"%string) 2%nat = low
  /\ primaryWarnings (parseFloat "7"%string) 2%nat
     = [JupiterQuoteService.highImpactWarning]
  /\ exists q s',
       getQuote JupiterQuoteService.service sampleRequest 1000 impactful
                (initialState, emptyWorld)
       = (Returned q, s')
       /\ priceImpactPct q = parseFloat "0"%string
       /\ List.length (routePlan q) = 2%nat
       /\ confidence q = high
       /\ warnings q = None.
Proof.
  split; [reflexivity|].
  assert (H7 : Number_gt (parseFloat "7"%string) (ofZ 5) = true)
    by (rewrite (parseFloat_decimal "7"%string 7 eq_refl), Number_gt_decimal;
        reflexivity).
  assert (H0 : Number_gt (parseFloat "0"%string) (ofZ 5) = false
               /\ Number_gt (parseFloat "0"%string) (ofZ 1) = false)
    by (rewrite (parseFloat_decimal "0"%string 0 eq_refl), !Number_gt_decimal;
        split; reflexivity).
  split.
  { unfold primaryConfidence. rewrite confidenceByImpact_eq, H7.
    reflexivity. }
  split.
  { unfold primaryWarnings. rewrite H7. reflexivity. }
  exists (JupiterQuoteService.validate impactfulRoute).
  eexists. split; [reflexivity|].
  unfold JupiterQuoteService.validate, impactfulRoute.
  cbn [JupiterJson.priceImpactPact JupiterJson.routePlan orElse].
  destruct H0 as (H5 & H1). rewrite H5, H1.
  repeat split.
Qed.

(* ================================================================= *)
(** ** What a call to a service leaves behind *)

Lemma extends_refl P w : extends P w w.
Proof. exists []. split; reflexivity. Qed.

Lemma extends_trans P w1 w2 w3 :
  extends P w1 w2 -> extends P w2 w3 -> extends P w1 w3.
Proof.
  intros (n1 & H1 & F1) (n2 & H2 & F2). exists (n2 ++ n1). split.
  - now rewrite H2, H1, app_assoc.
  - rewrite forallb_app. now rewrite F1, F2.
Qed.

Lemma extends_weaken (P Q : Event -> bool) w w' :
  (forall e, P e = true -> Q e = true) -> extends P w w' -> extends Q w w'.
Proof.
  intros HPQ (new & H & F). exists new. split; [exact H|].
  rewrite forallb_forall in *. auto.
Qed.

Lemma extends_record P e w : P e = true -> extends P w (record e w).
Proof. intros He. exists [e]. split; [reflexivity|]. cbn. now rewrite He. Qed.

Lemma extends_same_trace P w w' : trace w' = trace w -> extends P w w'.
Proof. intros H. exists []. split; [exact H | reflexivity]. Qed.

(** Events that [Q] does not count leave the count as it was. *)
Lemma extends_count (P Q : Event -> bool) w w' :
  (forall e, P e = true -> Q e = false) ->
  extends P w w' ->
  List.length (filter Q (trace w')) = List.length (filter Q (trace w)).
Proof.
  intros HPQ (new & H & F). rewrite H, filter_app, length_app.
  replace (filter Q new) with (@nil Event); [reflexivity|].
  symmetry. clear H. induction new as [|e new IH]; [reflexivity|].
  cbn in F. apply andb_prop in F as [Fe Fnew]. cbn.
  rewrite (HPQ e Fe). auto.
Qed.

Lemma Source_eqb_eq a b : Source_eqb a b = true <-> a = b.
Proof. destruct a, b; cbn; split; congruence. Qed.

Lemma Source_eqb_refl a : Source_eqb a a = true.
Proof. now destruct a. Qed.

Lemma Source_eqb_neq a b : a <> b -> Source_eqb a b = false.
Proof. destruct a, b; cbn; congruence. Qed.

(** [fetch] issues one request. *)
Lemma fetchJson_footprint D src (api : Env -> nat -> Fetched D) env w :
  exists r,
    fetchJson src api env w = (r, record (Fetch src) w)
    /\ (forall e, r = Thrown e -> isErrorInstance e = true).
Proof.
  unfold fetchJson, fetch. unfold_async.
  destruct (api env (fetchCount src w)) as [m|ok status text [data|m]];
    eexists; (split; [reflexivity|]); intros e He; inversion He; reflexivity.
Qed.

Lemma getPythPrice_footprint mint env w :
  exists r,
    PythOracleQuoteService.getPythPrice mint env w
    = (r, record (Fetch pyth_oracle) w)
    /\ (forall e, r = Thrown e -> isErrorInstance e = true).
Proof.
  unfold PythOracleQuoteService.getPythPrice, await.
  destruct (fetchJson_footprint _ pyth_oracle pythApi env w) as (r & Hr & He).
  rewrite Hr. destruct r as [json|e]; eexists; (split; [reflexivity|]).
  - discriminate.
  - intros e' H'. inversion H'; subst. now apply He.
Qed.

(** The operation each service wraps only issues requests to its own
    upstream, and what it throws is an [Error] instance. *)
Lemma operation_footprint src request timeoutMs env w :
  let operation :=
    match src with
    | jupiter => JupiterQuoteService.operation request timeoutMs
    | dflow => DFlowQuoteService.operation request timeoutMs
    | hashflow => HashflowQuoteService.operation request timeoutMs
    | pyth_oracle => PythOracleQuoteService.operation request timeoutMs
    end in
  extends (isFetch src) w (snd (operation env w))
  /\ ticks (snd (operation env w)) = ticks w
  /\ (forall e, fst (operation env w) = Thrown e -> isErrorInstance e = true).
Proof.
  destruct src; cbn zeta.
  - unfold JupiterQuoteService.operation, fetch. unfold_async.
    destruct (jupiterApi env _) as [m|ok status text [data|m]]; cbn;
      try destruct ok; cbn;
      (split; [apply (extends_record (isFetch jupiter) (Fetch jupiter));
               reflexivity|]);
      (split; [reflexivity|]); intros e He; inversion He; reflexivity.
  - unfold DFlowQuoteService.operation. unfold await.
    destruct (fetchJson_footprint _ dflow dflowApi env w) as (r & Hr & He).
    rewrite Hr. destruct r as [data|e]; cbn;
      (split; [apply (extends_record (isFetch dflow) (Fetch dflow));
               reflexivity|]);
      (split; [reflexivity|]); [discriminate|].
    intros e' H'. inversion H'; subst. now apply He.
  - unfold HashflowQuoteService.operation. unfold await.
    destruct (fetchJson_footprint _ hashflow hashflowApi env w)
      as (r & Hr & He).
    rewrite Hr. destruct r as [data|e]; cbn;
      (split; [apply (extends_record (isFetch hashflow) (Fetch hashflow));
               reflexivity|]);
      (split; [reflexivity|]); [discriminate|].
    intros e' H'. inversion H'; subst. now apply He.
  - unfold PythOracleQuoteService.operation,
      PythOracleQuoteService.Promise_all.
    unfold await at 1 2 3.
    destruct (getPythPrice_footprint (QuoteRequest.inputMint request) env w)
      as (r1 & Hr1 & He1).
    destruct (getPythPrice_footprint (QuoteRequest.outputMint request) env
                (record (Fetch pyth_oracle) w)) as (r2 & Hr2 & He2).
    rewrite Hr1, Hr2.
    assert (Hext : extends (isFetch pyth_oracle) w
                     (record (Fetch pyth_oracle)
                        (record (Fetch pyth_oracle) w))).
    { eapply extends_trans; apply extends_record; reflexivity. }
    destruct r1 as [j1|e1]; destruct r2 as [j2|e2]; cbn;
      (split; [exact Hext|]); (split; [reflexivity|]);
      intros e H; inversion H; subst; auto.
    destruct (priceRace env); auto.
Qed.

Lemma extends_by_trace P w0 w w' :
  trace w0 = trace w -> extends P w0 w' -> extends P w w'.
Proof. intros Heq (new & H & F). exists new. now rewrite <- Heq. Qed.

(** [getQuote] on any of the four services: requests to its own upstream,
    and [Error] instances when it throws. *)
Lemma getQuote_footprint src request timeoutMs env st w r st' w' :
  getQuote (QuoteAggregatorService.services src) request timeoutMs env (st, w)
  = (r, (st', w')) ->
  extends (isFetch src) w w'
  /\ (forall e, r = Thrown e -> isErrorInstance e = true).
Proof.
  set (operation :=
         match src with
         | jupiter => JupiterQuoteService.operation request timeoutMs
         | dflow => DFlowQuoteService.operation request timeoutMs
         | hashflow => HashflowQuoteService.operation request timeoutMs
         | pyth_oracle => PythOracleQuoteService.operation request timeoutMs
         end).
  set (cb :=
         match src with
         | jupiter => JupiterQuoteService.circuitBreaker
         | dflow => DFlowQuoteService.circuitBreaker
         | hashflow => HashflowQuoteService.circuitBreaker
         | pyth_oracle => PythOracleQuoteService.circuitBreaker
         end).
  replace (getQuote (QuoteAggregatorService.services src) request timeoutMs)
    with (CircuitBreaker.execute cb operation) by (now destruct src).
  rewrite execute_eq.
  destruct (isOpen st && _).
  - intros H; inversion H; subst. split.
    + now apply extends_same_trace.
    + intros e He; inversion He; reflexivity.
  - set (w0 := if isOpen st then tick w else w).
    assert (Hw0 : trace w0 = trace w) by (subst w0; now destruct (isOpen st)).
    destruct (operation_footprint src request timeoutMs env w0)
      as (Hext & _ & Herr).
    fold operation in Hext, Herr.
    destruct (operation env w0) as [[q|e] w2]; cbn [fst snd] in *.
    + intros H; inversion H; subst. split.
      * now apply (extends_by_trace _ w0).
      * discriminate.
    + destruct (_ >=? _); intros H; inversion H; subst; split;
        try (apply (extends_by_trace _ w0); [exact Hw0|];
             eapply extends_trans; [exact Hext|];
             now apply extends_same_trace);
        intros e' He'; inversion He'; subst; now apply Herr.
Qed.

Lemma breakerOf_setBreaker_other src other st b :
  other <> src -> breakerOf other (setBreaker src st b) = breakerOf other b.
Proof. destruct src, other; cbn; congruence. Qed.

(** [call] in closed form. *)
Lemma call_eq src request timeoutMs env b w :
  QuoteAggregatorService.call src request timeoutMs env (b, w)
  = match getQuote (QuoteAggregatorService.services src) request timeoutMs
            env (breakerOf src b, record (Called src timeoutMs) w) with
    | (Returned q, (st', w1)) =>
        (Returned q, (setBreaker src st' b, record (Answered src) w1))
    | (Thrown e, (st', w1)) => (Thrown e, (setBreaker src st' b, w1))
    end.
Proof.
  unfold QuoteAggregatorService.call, QuoteAggregatorService.on.
  unfold_async. cbn.
  destruct (getQuote _ _ _ _ _) as [[q|e] [st' w1]]; reflexivity.
Qed.

(** One call to a service: it is counted, it involves that service alone,
    and it adds an answer exactly when it returns a quote; what it throws
    is an [Error] instance. *)
Lemma call_spec src request timeoutMs env s r s' :
  QuoteAggregatorService.call src request timeoutMs env s = (r, s') ->
  confined (only src) s s'
  /\ callCount src (snd s') = S (callCount src (snd s))
  /\ match r with
     | Returned _ => answerCount (snd s') = S (answerCount (snd s))
     | Thrown e => answerCount (snd s') = answerCount (snd s)
                   /\ isErrorInstance e = true
     end.
Proof.
  destruct s as [b w]. rewrite call_eq.
  destruct (getQuote _ _ _ _ _) as [r0 [st' w1]] eqn:Hget.
  destruct (getQuote_footprint _ _ _ _ _ _ _ _ _ Hget) as (Hext & Herr).
  assert (Hcalls : callCount src w1 = S (callCount src w)).
  { unfold callCount.
    rewrite (extends_count (isFetch src) (isCalled src) _ _
               ltac:(now intros []) Hext).
    cbn. now rewrite Source_eqb_refl. }
  assert (Hanswers : answerCount w1 = answerCount w).
  { unfold answerCount.
    now rewrite (extends_count (isFetch src) isAnswered _ _
                   ltac:(now intros []) Hext). }
  assert (Hconf : extends (eventOf (only src)) w w1).
  { eapply extends_trans.
    - apply (extends_record _ (Called src timeoutMs)). cbn.
      apply Source_eqb_refl.
    - eapply extends_weaken; [|exact Hext]. now intros []. }
  assert (Hbreakers : forall other, only src other = false ->
            breakerOf other (setBreaker src st' b) = breakerOf other b).
  { intros other Ho. apply breakerOf_setBreaker_other. intros ->.
    unfold only in Ho. now rewrite Source_eqb_refl in Ho. }
  destruct r0 as [q|e]; intros H; inversion H; subst; cbn [fst snd].
  - split; [split; [|exact Hbreakers]|]; [|split].
    + eapply extends_trans; [exact Hconf|].
      apply extends_record. cbn. apply Source_eqb_refl.
    + exact Hcalls.
    + unfold answerCount in *. cbn. now rewrite Hanswers.
  - split; [split; [exact Hconf | exact Hbreakers]|].
    split; [exact Hcalls|]. split; [exact Hanswers|]. now apply Herr.
Qed.

Lemma confined_refl allowed s : confined allowed s s.
Proof. split; [apply extends_refl | reflexivity]. Qed.

Lemma confined_trans allowed s1 s2 s3 :
  confined allowed s1 s2 -> confined allowed s2 s3 -> confined allowed s1 s3.
Proof.
  intros [E1 B1] [E2 B2]. split.
  - eapply extends_trans; eassumption.
  - intros src Hsrc. now rewrite B2, B1.
Qed.

Lemma confined_weaken (allowed allowed' : Source -> bool) s s' :
  (forall src, allowed src = true -> allowed' src = true) ->
  confined allowed s s' -> confined allowed' s s'.
Proof.
  intros Hsub [E B]. split.
  - eapply extends_weaken; [|exact E]. intros [src t|src|src|d]; cbn; auto.
  - intros src Hsrc. apply B.
    destruct (allowed src) eqn:Ha; [|reflexivity].
    apply Hsub in Ha. congruence.
Qed.

(** Reading the clock involves no service. *)
Lemma confined_tick allowed b w : confined allowed (b, w) (b, tick w).
Proof. split; [now apply extends_same_trace | reflexivity]. Qed.

(** A service that a step was not allowed to involve was neither called nor
    asked to fetch, and its breaker is as it was. *)
Lemma confined_untouched allowed s s' src :
  confined allowed s s' ->
  allowed src = false ->
  callCount src (snd s') = callCount src (snd s)
  /\ fetchCount src (snd s') = fetchCount src (snd s)
  /\ breakerOf src (fst s') = breakerOf src (fst s).
Proof.
  intros [E B] Hsrc. unfold callCount, fetchCount.
  assert (Hother : forall s0, allowed s0 = true -> Source_eqb s0 src = false).
  { intros s0 H0. destruct (Source_eqb s0 src) eqn:Heq; [|reflexivity].
    apply Source_eqb_eq in Heq. congruence. }
  repeat split.
  - apply (extends_count (eventOf allowed)); [|exact E].
    intros [s0 t|s0|s0|d]; cbn; auto.
  - apply (extends_count (eventOf allowed)); [|exact E].
    intros [s0 t|s0|s0|d]; cbn; auto.
  - now apply B.
Qed.

Lemma remainingTime_eq startTime env b w :
  QuoteAggregatorService.remainingTime startTime env (b, w)
  = (Returned (QuoteAggregatorService.QUOTE_TIMEOUT_MS
               - (clock env (ticks w) - startTime)),
     (b, tick w)).
Proof. reflexivity. Qed.

(** The retry loop around a call to a service.  The services throw [Error]
    instances, which the classifier cannot read, so an iteration that is
    entered either returns the quote or throws at once. *)
Lemma attempts_call_spec src request timeoutMs maxRetries baseDelayMs
    maxDelayMs fuel attempt lastError env s r s' :
  attempt <= maxRetries ->
  RetryManager.attempts
    (QuoteAggregatorService.call src request timeoutMs)
    maxRetries baseDelayMs maxDelayMs (S fuel) attempt lastError env s
  = (r, s') ->
  confined (only src) s s'
  /\ callCount src (snd s') = S (callCount src (snd s))
  /\ match r with
     | Returned _ => answerCount (snd s') = S (answerCount (snd s))
     | Thrown e => answerCount (snd s') = answerCount (snd s)
                   /\ isErrorInstance e = true
     end.
Proof.
  intros Hle. cbn [RetryManager.attempts].
  apply Z.leb_le in Hle. rewrite Hle. unfold tryCatch.
  destruct (QuoteAggregatorService.call src request timeoutMs env s)
    as [[q|error] s1] eqn:Hcall.
  - intros H; inversion H; subst.
    exact (call_spec _ _ _ _ _ _ _ Hcall).
  - destruct (call_spec _ _ _ _ _ _ _ Hcall) as (Hconf & Hcalls & Hans & Hinst).
    destruct error as [m| |]; try discriminate.
    destruct (attempt =? maxRetries); cbn; unfold reject;
      intros H; inversion H; subst;
      (split; [exact Hconf|]); (split; [exact Hcalls|]);
      (split; [exact Hans | reflexivity]).
Qed.

(** The primary attempt never throws; it involves Jupiter alone; it leaves
    one quote and one more answer, or no quote and at most one error. *)
Lemma primaryAttempt_spec request startTime env s r s' :
  QuoteAggregatorService.primaryAttempt request startTime env s = (r, s') ->
  exists results errors,
    r = Returned (results, errors)
    /\ confined (only jupiter) s s'
    /\ answerCount (snd s') = (List.length results + answerCount (snd s))%nat
    /\ forallb isErrorInstance errors = true
    /\ (List.length results <= 1)%nat.
Proof.
  destruct s as [b w].
  unfold QuoteAggregatorService.primaryAttempt.
  unfold tryCatch at 1. unfold await at 1. rewrite remainingTime_eq.
  set (remaining := QuoteAggregatorService.QUOTE_TIMEOUT_MS
                    - (clock env (ticks w) - startTime)).
  destruct (remaining >? 200).
  - unfold await, RetryManager.executeWithRetry.
    change (Z.to_nat (2 + 1)) with 3%nat.
    destruct (RetryManager.attempts _ _ _ _ _ _ _ _ _) as [[q|e] s1] eqn:Hrun;
      apply attempts_call_spec in Hrun; try lia;
      destruct Hrun as (Hconf & _ & Hans).
    + unfold resolve. intros H; inversion H; subst.
      exists [q], []. split; [reflexivity|]. split.
      { eapply confined_trans; [apply confined_tick | exact Hconf]. }
      split; [exact Hans|]. split; [reflexivity | cbn; lia].
    + destruct Hans as [Hans Hinst].
      unfold resolve. intros H; inversion H; subst.
      exists [], [e]. split; [reflexivity|]. split.
      { eapply confined_trans; [apply confined_tick | exact Hconf]. }
      split; [exact Hans|]. split; [cbn; now rewrite Hinst | cbn; lia].
  - unfold resolve. intros H; inversion H; subst.
    exists [], []. split; [reflexivity|]. split; [apply confined_tick|].
    split; [reflexivity|]. split; [reflexivity | cbn; lia].
Qed.

Lemma backup_eq src request timeoutMs env s :
  QuoteAggregatorService.backup src request timeoutMs env s
  = (Returned (fst (QuoteAggregatorService.call src request timeoutMs env s)),
     snd (QuoteAggregatorService.call src request timeoutMs env s)).
Proof.
  unfold QuoteAggregatorService.backup. unfold_async.
  now destruct (QuoteAggregatorService.call src request timeoutMs env s)
    as [[q|e] s1].
Qed.

(** One backup: its quote or its [Error] instance, and the answer count
    that goes with it. *)
Lemma backup_spec src request timeoutMs env s :
  let settled := fst (QuoteAggregatorService.call src request timeoutMs env s) in
  let s' := snd (QuoteAggregatorService.call src request timeoutMs env s) in
  confined (only src) s s'
  /\ answerCount (snd s')
     = (List.length (QuoteAggregatorService.fulfilled settled)
        + answerCount (snd s))%nat
  /\ (forall e, settled = Thrown e -> isErrorInstance e = true).
Proof.
  destruct (QuoteAggregatorService.call src request timeoutMs env s)
    as [r s1] eqn:Hcall.
  destruct (call_spec _ _ _ _ _ _ _ Hcall) as (Hconf & _ & Hans).
  cbn [fst snd]. split; [exact Hconf|].
  destruct r as [q|e]; cbn.
  - split; [exact Hans | discriminate].
  - destruct Hans as [Hans Hinst]. split; [exact Hans|].
    intros e' H; inversion H; subst. exact Hinst.
Qed.

(** The backup stage never throws; it involves DFlow and Hashflow alone;
    every quote it adds is an answer and every error an [Error] instance. *)
Lemma backupAttempts_spec request startTime collected env s r s' :
  QuoteAggregatorService.backupAttempts request startTime collected env s
  = (r, s') ->
  exists added errors,
    r = Returned (fst collected ++ added, snd collected ++ errors)
    /\ confined backups s s'
    /\ answerCount (snd s') = (List.length added + answerCount (snd s))%nat
    /\ forallb isErrorInstance errors = true.
Proof.
  destruct s as [b w].
  unfold QuoteAggregatorService.backupAttempts.
  unfold await at 1. rewrite remainingTime_eq.
  set (remaining := QuoteAggregatorService.QUOTE_TIMEOUT_MS
                    - (clock env (ticks w) - startTime)).
  destruct (remaining >? 300).
  - set (t := Qmin (inject_Z remaining / 2) 800).
    unfold await. rewrite backup_eq.
    destruct (backup_spec dflow request t env (b, tick w))
      as (Hc1 & Ha1 & He1).
    set (first := fst (QuoteAggregatorService.call dflow request t env
                         (b, tick w))) in *.
    set (s1 := snd (QuoteAggregatorService.call dflow request t env
                      (b, tick w))) in *.
    rewrite backup_eq.
    destruct (backup_spec hashflow request t env s1) as (Hc2 & Ha2 & He2).
    set (second := fst (QuoteAggregatorService.call hashflow request t env s1))
      in *.
    set (s2 := snd (QuoteAggregatorService.call hashflow request t env s1))
      in *.
    unfold resolve. intros H; inversion H; subst r s'.
    eexists. eexists. split; [reflexivity|]. split; [|split].
    + eapply confined_trans; [apply confined_tick|].
      eapply confined_trans.
      * eapply confined_weaken; [|exact Hc1].
        unfold backups. intros src ->. reflexivity.
      * eapply confined_weaken; [|exact Hc2].
        unfold backups. intros src ->. apply orb_true_r.
    + rewrite Ha2, Ha1, length_app. cbn [snd].
      change (answerCount (tick w)) with (answerCount w). lia.
    + destruct first as [q1|e1], second as [q2|e2]; cbn;
        try destruct (backupRace env); cbn;
        rewrite ?(He1 _ eq_refl), ?(He2 _ eq_refl); reflexivity.
  - unfold resolve. intros H; inversion H; subst.
    exists [], []. rewrite !app_nil_r.
    split; [now destruct collected|]. split; [apply confined_tick|].
    split; reflexivity.
Qed.

(** The oracle stage never throws; it involves the oracle alone and calls
    it exactly when no good quote has been collected and more than 200 ms
    remain. *)
Lemma oracleFallback_spec request startTime collected env s r s' :
  QuoteAggregatorService.oracleFallback request startTime collected env s
  = (r, s') ->
  exists added errors,
    r = Returned (fst collected ++ added, snd collected ++ errors)
    /\ confined (only pyth_oracle) s s'
    /\ answerCount (snd s') = (List.length added + answerCount (snd s))%nat
    /\ forallb isErrorInstance errors = true
    /\ callCount pyth_oracle (snd s')
       = if QuoteAggregatorService.noGoodQuotes (fst collected)
            && (QuoteAggregatorService.QUOTE_TIMEOUT_MS
                - (clock env (ticks (snd s)) - startTime) >? 200)
         then S (callCount pyth_oracle (snd s))
         else callCount pyth_oracle (snd s).
Proof.
  destruct s as [b w].
  unfold QuoteAggregatorService.oracleFallback.
  destruct (QuoteAggregatorService.noGoodQuotes (fst collected)); cbn [andb].
  - unfold await at 1. rewrite remainingTime_eq. cbn [snd].
    set (remaining := QuoteAggregatorService.QUOTE_TIMEOUT_MS
                      - (clock env (ticks w) - startTime)).
    destruct (remaining >? 200).
    + unfold tryCatch, await.
      destruct (QuoteAggregatorService.call pyth_oracle request
                  (inject_Z (remaining - 50)) env (b, tick w))
        as [[q|e] s1] eqn:Hcall;
        destruct (call_spec _ _ _ _ _ _ _ Hcall) as (Hconf & Hcalls & Hans);
        unfold resolve; intros H; inversion H; subst r s'.
      * exists [q], []. rewrite app_nil_r.
        split; [reflexivity|]. split.
        { eapply confined_trans; [apply confined_tick | exact Hconf]. }
        split; [exact Hans|]. split; [reflexivity | exact Hcalls].
      * destruct Hans as [Hans Hinst].
        exists [], [e]. rewrite app_nil_r.
        split; [reflexivity|]. split.
        { eapply confined_trans; [apply confined_tick | exact Hconf]. }
        split; [exact Hans|]. split; [cbn; now rewrite Hinst | exact Hcalls].
    + unfold resolve. intros H; inversion H; subst.
      exists [], []. rewrite !app_nil_r.
      split; [now destruct collected|]. split; [apply confined_tick|].
      repeat split.
  - unfold resolve. intros H; inversion H; subst.
    exists [], []. rewrite !app_nil_r.
    split; [now destruct collected|]. split; [apply confined_refl|].
    repeat split.
Qed.

(** The two sample routes: impact 7 over five hops is low with both
    warnings, impact 0.2 over two hops is high with none. *)
Example illiquidRoute_is_low :
  confidence (JupiterQuoteService.validate illiquidRoute) = low
  /\ warnings (JupiterQuoteService.validate illiquidRoute)
     = Some [JupiterQuoteService.highImpactWarning;
             JupiterQuoteService.complexRouteWarning].
Proof.
  unfold JupiterQuoteService.validate, illiquidRoute.
  cbn [JupiterJson.priceImpactPact JupiterJson.routePlan orElse].
  rewrite (parseFloat_decimal "7" 7 eq_refl), !Number_gt_decimal.
  split; reflexivity.
Qed.

Example liquidRoute_is_high :
  confidence (JupiterQuoteService.validate liquidRoute) = high
  /\ warnings (JupiterQuoteService.validate liquidRoute) = None.
Proof.
  unfold JupiterQuoteService.validate, liquidRoute.
  cbn [JupiterJson.priceImpactPact JupiterJson.routePlan orElse].
  rewrite (parseFloat_decimal "0.2" (2 # 10) eq_refl), !Number_gt_decimal.
  split; reflexivity.
Qed.

(* ================================================================= *)
(** ** Staged fallback *)

(** The stages never throw; every collected quote is an answer of a service
    and every collected error an [Error] instance. *)
Lemma collect_spec request startTime env s r s' :
  QuoteAggregatorService.collect request startTime env s = (r, s') ->
  exists results errors,
    r = Returned (results, errors)
    /\ answerCount (snd s') = (List.length results + answerCount (snd s))%nat
    /\ forallb isErrorInstance errors = true.
Proof.
  unfold QuoteAggregatorService.collect. unfold await at 1.
  destruct (QuoteAggregatorService.primaryAttempt request startTime env s)
    as [r1 s1] eqn:H1.
  destruct (primaryAttempt_spec _ _ _ _ _ _ H1)
    as (results1 & errors1 & -> & _ & Ha1 & He1 & _).
  cbn [fst]. destruct (QuoteAggregatorService.succeededWithHighConfidence _).
  - unfold resolve. intros H; inversion H; subst.
    exists results1, errors1. repeat split; assumption.
  - unfold await.
    destruct (QuoteAggregatorService.backupAttempts _ _ _ _ _)
      as [r2 s2] eqn:H2.
    destruct (backupAttempts_spec _ _ _ _ _ _ _ H2)
      as (added2 & errors2 & -> & _ & Ha2 & He2).
    intros H3.
    destruct (oracleFallback_spec _ _ _ _ _ _ _ H3)
      as (added3 & errors3 & -> & _ & Ha3 & He3 & _).
    cbn [fst snd]. eexists. eexists. split; [reflexivity|]. split.
    + rewrite Ha3, Ha2, Ha1, !length_app. lia.
    + now rewrite !forallb_app, He1, He2, He3.
Qed.

(** C5.  When the primary attempt leaves a quote of high confidence, the
    run ends there: the results are that quote alone, the state is the one
    the primary attempt left, selection returns that quote, and no source
    other than Jupiter was called, was sent a request or had its breaker
    touched. *)
Theorem high_confidence_primary_is_returned_at_once :
  forall request startTime env s q rest errors s1,
    QuoteAggregatorService.primaryAttempt request startTime env s
    = (Returned (q :: rest, errors), s1) ->
    confidence q = high ->
    QuoteAggregatorService.executeParallelWithFallback request startTime env s
    = (Returned [q], s1)
    /\ QuoteAggregatorService.selectBestQuote [q] = Returned q
    /\ forall src, src <> jupiter ->
         callCount src (snd s1) = callCount src (snd s)
         /\ fetchCount src (snd s1) = fetchCount src (snd s)
         /\ breakerOf src (fst s1) = breakerOf src (fst s).
Proof.
  intros request startTime env s q rest errors s1 Hprimary Hhigh.
  destruct (primaryAttempt_spec _ _ _ _ _ _ Hprimary)
    as (results & errors' & Heq & Hconf & _ & _ & Hlen).
  inversion Heq; subst results errors'.
  assert (rest = []) by (destruct rest; [reflexivity | cbn in Hlen; lia]).
  subst rest. split; [|split].
  - unfold QuoteAggregatorService.executeParallelWithFallback,
      QuoteAggregatorService.collect, await.
    rewrite Hprimary. cbn [fst QuoteAggregatorService.succeededWithHighConfidence].
    rewrite Hhigh. reflexivity.
  - reflexivity.
  - intros src Hsrc. apply (confined_untouched (only jupiter)); [exact Hconf|].
    now apply Source_eqb_neq.
Qed.

(** C5 on a calm market: Jupiter answers a liquid route at once. *)
Lemma high_confidence_primary_is_returned_at_once_witness :
  QuoteAggregatorService.executeParallelWithFallback sampleRequest 1000 calm
    (freshBreakers, emptyWorld)
  = (Returned [JupiterQuoteService.validate liquidRoute],
     (freshBreakers,
      mkWorld 1 0 [Answered jupiter; Fetch jupiter;
                   Called jupiter (inject_Z 1000)])).
Proof.
  exact (proj1 (high_confidence_primary_is_returned_at_once
                  sampleRequest 1000 calm (freshBreakers, emptyWorld)
                  (JupiterQuoteService.validate liquidRoute) [] []
                  (freshBreakers,
                   mkWorld 1 0 [Answered jupiter; Fetch jupiter;
                                Called jupiter (inject_Z 1000)])
                  eq_refl (proj1 liquidRoute_is_high))).
Defined.

Lemma noGoodQuotes_iff results :
  QuoteAggregatorService.noGoodQuotes results = true
  <-> results = [] \/ Forall (fun q => confidence q = low) results.
Proof.
  unfold QuoteAggregatorService.noGoodQuotes. rewrite orb_true_iff. split.
  - intros [H|H].
    + left. destruct results; [reflexivity | discriminate].
    + right. rewrite forallb_forall in H. apply Forall_forall.
      intros q Hq. specialize (H q Hq). now destruct (confidence q).
  - intros [->|H]; [now left|]. right. apply forallb_forall.
    rewrite Forall_forall in H. intros q Hq. now rewrite (H q Hq).
Qed.

(** The primary and the backup stage leave the oracle alone. *)
Lemma stages_before_oracle request startTime env s c1 s1 c2 s2 :
  QuoteAggregatorService.primaryAttempt request startTime env s
  = (Returned c1, s1) ->
  QuoteAggregatorService.backupAttempts request startTime c1 env s1
  = (Returned c2, s2) ->
  callCount pyth_oracle (snd s2) = callCount pyth_oracle (snd s).
Proof.
  intros H1 H2.
  destruct (primaryAttempt_spec _ _ _ _ _ _ H1) as (? & ? & _ & Hc1 & _).
  destruct (backupAttempts_spec _ _ _ _ _ _ _ H2) as (? & ? & _ & Hc2 & _).
  destruct (confined_untouched _ _ _ pyth_oracle Hc1 eq_refl) as (E1 & _).
  destruct (confined_untouched _ _ _ pyth_oracle Hc2 eq_refl) as (E2 & _).
  congruence.
Qed.

(** C6.  In a run in which the oracle is called, the call happens after the
    primary stage did not return early and the backup stage is over, at a
    point where the collected results are empty or all of low confidence
    and the time remaining on the clock reading taken there is above
    200 ms; the oracle is called once.  Hence in every other run the oracle
    is not called. *)
Theorem oracle_is_called_only_as_last_resort :
  forall request startTime env s r s',
    QuoteAggregatorService.collect request startTime env s = (r, s') ->
    callCount pyth_oracle (snd s') <> callCount pyth_oracle (snd s) ->
    exists afterPrimary s1 afterBackup s2,
      QuoteAggregatorService.primaryAttempt request startTime env s
      = (Returned afterPrimary, s1)
      /\ QuoteAggregatorService.succeededWithHighConfidence (fst afterPrimary)
         = false
      /\ QuoteAggregatorService.backupAttempts request startTime afterPrimary
           env s1
         = (Returned afterBackup, s2)
      /\ (fst afterBackup = []
          \/ Forall (fun q => confidence q = low) (fst afterBackup))
      /\ QuoteAggregatorService.QUOTE_TIMEOUT_MS
         - (clock env (ticks (snd s2)) - startTime) > 200
      /\ callCount pyth_oracle (snd s') = S (callCount pyth_oracle (snd s)).
Proof.
  intros request startTime env s r s' Hrun Hcalled.
  unfold QuoteAggregatorService.collect in Hrun. unfold await at 1 in Hrun.
  destruct (QuoteAggregatorService.primaryAttempt request startTime env s)
    as [r1 s1] eqn:H1.
  destruct (primaryAttempt_spec _ _ _ _ _ _ H1)
    as (results1 & errors1 & -> & Hc1 & _).
  cbn [fst] in Hrun.
  destruct (QuoteAggregatorService.succeededWithHighConfidence results1)
    eqn:Hearly.
  - unfold resolve in Hrun. inversion Hrun; subst. exfalso. apply Hcalled.
    now destruct (confined_untouched _ _ _ pyth_oracle Hc1 eq_refl).
  - unfold await in Hrun.
    destruct (QuoteAggregatorService.backupAttempts _ _ _ _ _)
      as [r2 s2] eqn:H2.
    destruct (backupAttempts_spec _ _ _ _ _ _ _ H2)
      as (added2 & errors2 & -> & _).
    destruct (oracleFallback_spec _ _ _ _ _ _ _ Hrun)
      as (_ & _ & _ & _ & _ & _ & Hcalls).
    rewrite (stages_before_oracle _ _ _ _ _ _ _ _ H1 H2) in Hcalls.
    destruct (QuoteAggregatorService.noGoodQuotes _) eqn:Hnone;
      [|cbn in Hcalls; congruence].
    destruct (_ >? 200) eqn:Htime; [|cbn in Hcalls; congruence].
    cbn [andb] in Hcalls.
    exists (results1, errors1), s1, (results1 ++ added2, errors1 ++ errors2), s2.
    split; [reflexivity|]. split; [exact Hearly|]. split; [exact H2|].
    split; [now apply noGoodQuotes_iff|]. split; [|exact Hcalls].
    apply Z.gtb_lt in Htime. lia.
Qed.

(** The converse: at such a point the oracle is called. *)
Lemma oracle_is_called_as_last_resort request startTime env s c1 s1 c2 s2 :
  QuoteAggregatorService.primaryAttempt request startTime env s
  = (Returned c1, s1) ->
  QuoteAggregatorService.succeededWithHighConfidence (fst c1) = false ->
  QuoteAggregatorService.backupAttempts request startTime c1 env s1
  = (Returned c2, s2) ->
  fst c2 = [] \/ Forall (fun q => confidence q = low) (fst c2) ->
  QuoteAggregatorService.QUOTE_TIMEOUT_MS
  - (clock env (ticks (snd s2)) - startTime) > 200 ->
  callCount pyth_oracle
    (snd (snd (QuoteAggregatorService.collect request startTime env s)))
  = S (callCount pyth_oracle (snd s)).
Proof.
  intros H1 Hearly H2 Hnone Htime.
  unfold QuoteAggregatorService.collect, await.
  rewrite H1, Hearly, H2.
  destruct (QuoteAggregatorService.oracleFallback _ _ _ _ _) as [r s'] eqn:H3.
  destruct (oracleFallback_spec _ _ _ _ _ _ _ H3)
    as (_ & _ & _ & _ & _ & _ & Hcalls).
  apply noGoodQuotes_iff in Hnone. rewrite Hnone in Hcalls.
  replace (_ >? 200) with true in Hcalls
    by (symmetry; apply Z.gtb_lt; lia).
  cbn [andb snd] in *.
  now rewrite Hcalls, (stages_before_oracle _ _ _ _ _ _ _ _ H1 H2).
Qed.

(** C6 during an outage: every stage fails and the oracle is tried. *)
Lemma oracle_is_called_only_as_last_resort_witness :
  exists afterPrimary s1 afterBackup s2,
    QuoteAggregatorService.primaryAttempt sampleRequest 1000 outage
      (freshBreakers, emptyWorld)
    = (Returned afterPrimary, s1)
    /\ QuoteAggregatorService.succeededWithHighConfidence (fst afterPrimary)
       = false
    /\ QuoteAggregatorService.backupAttempts sampleRequest 1000 afterPrimary
         outage s1
       = (Returned afterBackup, s2)
    /\ (fst afterBackup = []
        \/ Forall (fun q => confidence q = low) (fst afterBackup))
    /\ QuoteAggregatorService.QUOTE_TIMEOUT_MS
       - (clock outage (ticks (snd s2)) - 1000) > 200
    /\ callCount pyth_oracle
         (snd (snd (QuoteAggregatorService.collect sampleRequest 1000 outage
                      (freshBreakers, emptyWorld))))
       = S (callCount pyth_oracle (snd (freshBreakers, emptyWorld))).
Proof.
  apply (oracle_is_called_only_as_last_resort sampleRequest 1000 outage
           (freshBreakers, emptyWorld)
           (fst (QuoteAggregatorService.collect sampleRequest 1000 outage
                   (freshBreakers, emptyWorld)))).
  - apply surjective_pairing.
  - vm_compute. discriminate.
Defined.

(* ================================================================= *)
(** ** Sorting and strings *)

Lemma insert_permutation A (compareFn : A -> A -> Number) x l :
  Permutation (insert compareFn x l) (x :: l).
Proof.
  induction l as [|y l IH]; cbn; [reflexivity|].
  destruct (isPositive (compareFn x y)); [|reflexivity].
  rewrite IH. apply perm_swap.
Qed.

Lemma Array_sort_permutation A (compareFn : A -> A -> Number) l :
  Permutation (Array_sort compareFn l) l.
Proof.
  induction l as [|x l IH]; cbn; [reflexivity|].
  rewrite insert_permutation. now constructor.
Qed.

Lemma prefix_append m rest : String.prefix m (m ++ rest) = true.
Proof.
  induction m as [|c m IH]; cbn; [now destruct rest|].
  destruct (ascii_dec c c); [exact IH | congruence].
Qed.

Lemma includes_prefix s needle :
  String.prefix needle s = true -> includes s needle = true.
Proof. destruct s; cbn; intros ->; reflexivity. Qed.

Lemma includes_append_right a b needle :
  includes b needle = true -> includes (a ++ b) needle = true.
Proof.
  induction a as [|c a IH]; cbn [append]; [trivial|].
  intros H. cbn. rewrite (IH H). apply orb_true_r.
Qed.

Lemma includes_append_left m rest : includes (m ++ rest) m = true.
Proof. apply includes_prefix, prefix_append. Qed.

Lemma includes_self m : includes m m = true.
Proof.
  apply includes_prefix. induction m as [|c m IH]; cbn; [reflexivity|].
  destruct (ascii_dec c c); [exact IH | congruence].
Qed.

(** Every joined string can be read in the result. *)
Lemma join_includes reasons separator m :
  In m reasons -> includes (join (map Some reasons) separator) m = true.
Proof.
  induction reasons as [|r reasons IH]; [contradiction|].
  intros [->|Hin].
  - destruct reasons as [|r' reasons]; cbn [map join].
    + apply includes_self.
    + apply includes_append_left.
  - destruct reasons as [|r' reasons]; [contradiction|].
    cbn [map join]. cbn [map] in IH.
    apply includes_append_right, includes_append_right. now apply IH.
Qed.

Lemma aggregateMessage_includes reasons m :
  In m reasons -> includes (aggregateMessage reasons) m = true.
Proof.
  intros Hin. unfold aggregateMessage.
  apply includes_append_right. now apply join_includes.
Qed.

(** The message of an [Error] instance can always be read. *)
Lemma messages_of_instances errors :
  forallb isErrorInstance errors = true ->
  exists reasons,
    errors = map ErrorObject reasons
    /\ messages errors = Returned (map Some reasons).
Proof.
  induction errors as [|e errors IH]; cbn.
  - intros _. now exists [].
  - intros H. apply andb_prop in H as [He Hrest].
    destruct (IH Hrest) as (reasons & -> & Hm).
    destruct e as [m| |]; try discriminate.
    exists (m :: reasons). cbn [map messages message].
    fold (map ErrorObject reasons). rewrite Hm. split; reflexivity.
Qed.

(** Selection from a list that is not empty returns one of its quotes. *)
Lemma selectBestQuote_returns quotes :
  quotes <> [] ->
  exists q, QuoteAggregatorService.selectBestQuote quotes = Returned q
            /\ In q quotes.
Proof.
  intros Hne. unfold QuoteAggregatorService.selectBestQuote,
    QuoteAggregatorService.selectBestBy.
  destruct quotes as [|q0 rest]; [congruence|].
  set (scored := map _ (q0 :: rest)).
  pose proof (Array_sort_permutation _ QuoteAggregatorService.compareFn scored)
    as Hperm.
  destruct (Array_sort _ scored) as [|best sorted].
  - apply Permutation_nil in Hperm. discriminate.
  - exists (quote best). split; [reflexivity|].
    assert (Hin : In best scored)
      by (eapply Permutation_in; [exact Hperm | now left]).
    subst scored. apply in_map_iff in Hin as (q & <- & Hq). exact Hq.
Qed.

(* ================================================================= *)
(** ** The outcome of a request *)

Lemma getOptimalQuote_eq request env b w :
  QuoteAggregatorService.getOptimalQuote request env (b, w)
  = match QuoteAggregatorService.collect request (clock env (ticks w)) env
            (b, tick w) with
    | (Returned ([], errors), s') =>
        (Thrown (QuoteAggregatorService.allFailed errors), s')
    | (Returned (q :: rest, _), s') =>
        (QuoteAggregatorService.selectBestQuote (q :: rest), s')
    | (Thrown e, s') => (Thrown e, s')
    end.
Proof.
  unfold QuoteAggregatorService.getOptimalQuote,
    QuoteAggregatorService.executeParallelWithFallback.
  unfold_async. cbn [fst snd].
  destruct (QuoteAggregatorService.collect _ _ _ _)
    as [[[[|q rest] errors]|e] s']; reflexivity.
Qed.

(** C1.  [getOptimalQuote] throws exactly when no service produced a quote
    during the run.  What it throws then is the aggregate error: the errors
    the stages collected are [Error] instances, the message is the fixed
    prefix followed by their messages joined with "; ", and each of those
    messages can be read in it.  When at least one service produced a
    quote a quote is returned, whatever else failed. *)
Theorem aggregate_failure_iff_no_quote :
  forall request env s r s',
    QuoteAggregatorService.getOptimalQuote request env s = (r, s') ->
    ((exists e, r = Thrown e)
     <-> answerCount (snd s') = answerCount (snd s))
    /\ (forall e, r = Thrown e ->
          exists reasons,
            QuoteAggregatorService.collect request
              (clock env (ticks (snd s))) env (fst s, tick (snd s))
            = (Returned ([], map ErrorObject reasons), s')
            /\ e = ErrorObject (aggregateMessage reasons)
            /\ forall m, In m reasons ->
                         includes (aggregateMessage reasons) m = true)
    /\ (answerCount (snd s') <> answerCount (snd s) ->
        exists q, r = Returned q).
Proof.
  intros request env [b w] r s' Hrun. rewrite getOptimalQuote_eq in Hrun.
  cbn [fst snd].
  destruct (QuoteAggregatorService.collect _ _ _ _) as [rc sc] eqn:Hcollect.
  destruct (collect_spec _ _ _ _ _ _ Hcollect)
    as (results & errors & -> & Hanswers & Hinst).
  change (answerCount (snd (b, tick w))) with (answerCount w) in Hanswers.
  destruct results as [|q rest].
  - destruct (messages_of_instances errors Hinst) as (reasons & -> & Hm).
    unfold QuoteAggregatorService.allFailed in Hrun. rewrite Hm in Hrun.
    inversion Hrun; subst r s'. cbn in Hanswers.
    split; [split; [intros _; exact Hanswers | intros _; now eexists]|].
    split.
    + intros e He. inversion He; subst e. exists reasons.
      split; [reflexivity|]. split; [reflexivity|].
      intros m. apply aggregateMessage_includes.
    + intros Hne. congruence.
  - destruct (selectBestQuote_returns (q :: rest) ltac:(discriminate))
      as (best & Hbest & _).
    rewrite Hbest in Hrun. inversion Hrun; subst r s'.
    cbn [List.length] in Hanswers.
    split; [split; [intros [e He]; discriminate | intros Heq; lia]|].
    split; [intros e He; discriminate|].
    intros _. now exists best.
Qed.

(** C1 during an outage: no quote, and the four collected reasons. *)
Lemma aggregate_failure_iff_no_quote_witness :
  (exists e,
      fst (QuoteAggregatorService.getOptimalQuote sampleRequest outage
             (freshBreakers, emptyWorld)) = Thrown e)
  <-> answerCount
        (snd (snd (QuoteAggregatorService.getOptimalQuote sampleRequest outage
                     (freshBreakers, emptyWorld))))
      = answerCount (snd (freshBreakers, emptyWorld)).
Proof.
  exact (proj1 (aggregate_failure_iff_no_quote sampleRequest outage
                  (freshBreakers, emptyWorld) _ _
                  (surjective_pairing _))).
Defined.

Example outage_is_reported :
  fst (QuoteAggregatorService.getOptimalQuote sampleRequest outage
         (freshBreakers, emptyWorld))
  = Thrown (ErrorObject
      "All quote services failed: error.includes is not a function; dflow unreachable; hashflow unreachable; pyth unreachable").
Proof. reflexivity. Qed.

(** Partial failure: Jupiter, Hashflow and the oracle are down, DFlow
    answers, and its medium-confidence quote is what the caller gets. *)
Example dflow_quote_is_returned :
  fst (QuoteAggregatorService.getOptimalQuote sampleRequest dflowOnly
         (freshBreakers, emptyWorld))
  = Returned (mkQuote "1000000000" "51000" (ofZ 0) [] "50000" "ExactIn" 50
                      dflow medium None).
Proof. reflexivity. Qed.

(* ================================================================= *)
(** ** Scoring *)

Lemma Number_add_zero_r a : Number_add a (ofZ 0) = a.
Proof.
  destruct a as [|n|r]; cbn; try reflexivity. f_equal. lra.
Qed.

(** The score as the code accumulates it is the sum of the four terms. *)
Lemma calculateQuoteScore_total q :
  QuoteAggregatorService.calculateQuoteScore q = totalScore q.
Proof.
  unfold QuoteAggregatorService.calculateQuoteScore, totalScore,
    warningPenalty, warningsOf.
  fold (liquidityTerm q).
  assert (Hbase : forall z, Number_add (ofZ 0) (ofZ z) = ofZ z).
  { intros z. unfold ofZ, Number_add. f_equal. lra. }
  assert (Hstart :
    match confidence q with
    | high => Number_add (ofZ 0) (ofZ 1000)
    | medium => Number_add (ofZ 0) (ofZ 500)
    | low => Number_add (ofZ 0) (ofZ 100)
    end = ofZ (confidenceBase (confidence q))).
  { destruct (confidence q); apply Hbase. }
  rewrite Hstart.
  set (partial := Number_add (ofZ (confidenceBase (confidence q)))
                             (liquidityTerm q)).
  assert (Hbonus :
    match source q with
    | jupiter => Number_add partial (ofZ 100)
    | dflow => Number_add partial (ofZ 60)
    | hashflow => Number_add partial (ofZ 80)
    | pyth_oracle => Number_add partial (ofZ 20)
    end = Number_add partial (ofZ (reliabilityBonus (source q)))).
  { now destruct (source q). }
  rewrite Hbonus.
  set (subtotal := Number_add partial (ofZ (reliabilityBonus (source q)))).
  destruct (warnings q) as [[|w ws]|]; cbn [List.length Nat.ltb Nat.leb].
  - change (ofZ (- 50 * Z.of_nat 0)) with (ofZ 0).
    now rewrite Number_add_zero_r.
  - unfold Number_sub. f_equal. unfold ofZ. cbn [Number_mul Number_neg].
    f_equal. rewrite mult_IZR. lra.
  - change (ofZ (- 50 * Z.of_nat 0)) with (ofZ 0).
    now rewrite Number_add_zero_r.
Qed.

(** C7.  The score of a quote is the confidence base (1000, 500, 100)
    plus ten times the logarithm of the output amount plus one, plus the
    bonus of its source (Jupiter 100, Hashflow 80, DFlow 60, the Pyth
    oracle 20), less 50 for each warning. *)
Theorem score_is_sum_of_four_terms :
  forall q,
    QuoteAggregatorService.calculateQuoteScore q
    = Number_add
        (Number_add
           (Number_add (ofZ (confidenceBase (confidence q)))
              (Number_mul
                 (Math_log (Number_add (parseFloat (outputAmount q)) (ofZ 1)))
                 (ofZ 10)))
           (ofZ (reliabilityBonus (source q))))
        (ofZ (- 50 * Z.of_nat (List.length (warningsOf q))))
    /\ confidenceBase high = 1000 /\ confidenceBase medium = 500
    /\ confidenceBase low = 100
    /\ reliabilityBonus jupiter = 100 /\ reliabilityBonus hashflow = 80
    /\ reliabilityBonus dflow = 60 /\ reliabilityBonus pyth_oracle = 20.
Proof.
  intros q. split; [apply calculateQuoteScore_total|]. repeat split.
Qed.

(** C9.  Two quotes with the same source, confidence, output amount and
    number of warnings have the same score, whatever their other fields
    hold. *)
Theorem score_depends_on_four_fields_only :
  forall q1 q2,
    source q1 = source q2 ->
    confidence q1 = confidence q2 ->
    outputAmount q1 = outputAmount q2 ->
    List.length (warningsOf q1) = List.length (warningsOf q2) ->
    QuoteAggregatorService.calculateQuoteScore q1
    = QuoteAggregatorService.calculateQuoteScore q2.
Proof.
  intros q1 q2 Hsource Hconfidence Hamount Hwarnings.
  rewrite !calculateQuoteScore_total.
  unfold totalScore, liquidityTerm, warningPenalty.
  now rewrite Hsource, Hconfidence, Hamount, Hwarnings.
Qed.

(** C9 at a Jupiter quote and one that differs from it in every field the
    score does not read, warning text included. *)
Lemma score_depends_on_four_fields_only_witness :
  QuoteAggregatorService.calculateQuoteScore
    (mkQuote "1000000000" "52000" (ofZ 7) ["a"; "b"; "c"; "d"; "e"]%string
             "51000" "ExactIn" 50 jupiter low
             (Some [JupiterQuoteService.highImpactWarning]))
  = QuoteAggregatorService.calculateQuoteScore
      (mkQuote "5" "52000" (ofZ 0) [] "1" "ExactOut" 10 jupiter low
               (Some ["something else"%string])).
Proof.
  apply score_depends_on_four_fields_only; reflexivity.
Defined.

Lemma Rsign_positive r : (0 < r)%R -> Rsign r = Gt.
Proof.
  intros H. unfold Rsign. destruct (total_order_T r 0) as [[Hlt|Heq]|Hgt];
    [lra | lra | reflexivity].
Qed.

Ltac order_cases :=
  cbn;
  repeat match goal with b : bool |- _ => destruct b end; cbn;
  repeat match goal with
         | |- context [Rlt_dec ?x ?y] => destruct (Rlt_dec x y)
         end;
  intros; try reflexivity; try discriminate; try congruence; try lra;
  try (f_equal; lra).

(** What [sort] makes of the comparator's result is the order of the
    scores. *)
Lemma isPositive_sub b a : isPositive (Number_sub b a) = Number_gt b a.
Proof.
  unfold isPositive, Number_sub, ofZ.
  destruct a as [|n|x], b as [|m|y]; order_cases.
Qed.

Lemma Number_gt_asymmetric a b :
  Number_gt a b = true -> Number_gt b a = false.
Proof. destruct a as [|n|x], b as [|m|y]; order_cases. Qed.

Lemma Number_gt_transitive a b c :
  Number_gt a b = true -> Number_gt b c = true -> Number_gt a c = true.
Proof. destruct a as [|n|x], b as [|m|y], c as [|k|z]; order_cases. Qed.

(** Among numbers, not being above is transitive. *)
Lemma Number_gt_negatively_transitive a b c :
  b <> NaN ->
  Number_gt a b = false -> Number_gt b c = false -> Number_gt a c = false.
Proof. destruct a as [|n|x], b as [|m|y], c as [|k|z]; order_cases. Qed.

(** Two numbers neither of which is above the other are the same. *)
Lemma Number_gt_total a b :
  a <> NaN -> b <> NaN ->
  Number_gt a b = false -> Number_gt b a = false -> a = b.
Proof. destruct a as [|n|x], b as [|m|y]; order_cases. Qed.

Lemma insert_head A (compareFn : A -> A -> Number) x l :
  hd_error (insert compareFn x l)
  = match l with
    | [] => Some x
    | y :: _ => if isPositive (compareFn x y) then Some y else Some x
    end.
Proof.
  destruct l as [|y l]; cbn; [reflexivity|].
  now destruct (isPositive (compareFn x y)).
Qed.

Section Selection.
Variable scoreOf : QuoteResponse -> Number.

Lemma selectBestBy_head quotes :
  quotes <> [] ->
  QuoteAggregatorService.selectBestBy scoreOf quotes
  = match hd_error
            (Array_sort QuoteAggregatorService.compareFn
               (map (fun q => mkScored q
                                (scoreOf q))
                    quotes)) with
    | Some best => Returned (quote best)
    | None => Thrown (TypeError
                "Cannot read properties of undefined (reading 'quote')")
    end.
Proof.
  intros Hne. unfold QuoteAggregatorService.selectBestBy.
  destruct quotes as [|q rest]; [congruence|].
  now destruct (Array_sort _ _).
Qed.

(** The head of the sorted list is the first of the quotes of highest
    score: every quote before it scores strictly lower, none after it
    scores higher. *)
Lemma sorted_head_is_first_highest quotes :
  quotes <> [] ->
  (forall q, In q quotes ->
             scoreOf q <> NaN) ->
  exists before best after,
    quotes = before ++ best :: after
    /\ hd_error
         (Array_sort QuoteAggregatorService.compareFn
            (map (fun q => mkScored q
                             (scoreOf q))
                 quotes))
       = Some (mkScored best
                 (scoreOf best))
    /\ (forall q, In q before ->
          Number_gt (scoreOf best)
                    (scoreOf q) = true)
    /\ (forall q, In q after ->
          Number_gt (scoreOf q)
                    (scoreOf best) = false).
Proof.
  induction quotes as [|x rest IH]; intros Hne Hnum; [congruence|].
  cbn [map Array_sort fold_right]. rewrite insert_head.
  destruct rest as [|y rest'].
  - cbn. exists [], x, []. repeat split; intros q [].
  - destruct IH as (before & best & after & Hsplit & Hhead & Hbefore & Hafter).
    + discriminate.
    + intros q Hq. apply Hnum. now right.
    + unfold Array_sort in Hhead.
      destruct (fold_right _ _ _) as [|top sorted]; [discriminate|].
      cbn [hd_error] in Hhead. inversion Hhead; subst top.
      unfold QuoteAggregatorService.compareFn at 1. cbn [score].
      rewrite isPositive_sub.
      destruct (Number_gt (scoreOf best)
                          (scoreOf x))
        eqn:Hgt.
      * exists (x :: before), best, after. rewrite Hsplit.
        split; [reflexivity|]. split; [reflexivity|]. split; [|exact Hafter].
        intros q [<-|Hq]; [exact Hgt | now apply Hbefore].
      * exists [], x, (y :: rest').
        split; [reflexivity|]. split; [reflexivity|].
        split; [intros q []|].
        intros q Hq. rewrite Hsplit in Hq.
        apply in_app_or in Hq as [Hq|[<-|Hq]].
        -- destruct (Number_gt (scoreOf q)
                       (scoreOf x))
             eqn:Hqx; [|reflexivity].
           rewrite (Number_gt_transitive _ _ _ (Hbefore q Hq) Hqx) in Hgt.
           discriminate.
        -- exact Hgt.
        -- apply (Number_gt_negatively_transitive _
                    (scoreOf best));
             [|now apply Hafter | exact Hgt].
           apply Hnum. right. rewrite Hsplit. apply in_or_app. right. now left.
Qed.

(** No quote of the list scores higher than the selected one. *)
Lemma first_highest_is_highest before best after q :
  (forall q, In q before ->
     Number_gt (scoreOf best)
               (scoreOf q) = true) ->
  (forall q, In q after ->
     Number_gt (scoreOf q)
               (scoreOf best) = false) ->
  In q (before ++ best :: after) ->
  Number_gt (scoreOf q)
            (scoreOf best) = false.
Proof.
  intros Hbefore Hafter Hq. apply in_app_or in Hq as [Hq|[<-|Hq]].
  - now apply Number_gt_asymmetric, Hbefore.
  - destruct (Number_gt _ _) eqn:H; [|reflexivity].
    now rewrite (Number_gt_asymmetric _ _ H) in H.
  - now apply Hafter.
Qed.

Lemma Number_gt_irreflexive a : Number_gt a a = false.
Proof.
  destruct (Number_gt a a) eqn:H; [|reflexivity].
  now rewrite (Number_gt_asymmetric _ _ H) in H.
Qed.

End Selection.

Lemma selectBestQuote_head quotes :
  quotes <> [] ->
  QuoteAggregatorService.selectBestQuote quotes
  = match hd_error
            (Array_sort QuoteAggregatorService.compareFn
               (map (fun q => mkScored q
                                (QuoteAggregatorService.calculateQuoteScore q))
                    quotes)) with
    | Some best => Returned (quote best)
    | None => Thrown (TypeError
                "Cannot read properties of undefined (reading 'quote')")
    end.
Proof. apply selectBestBy_head. Qed.

(** An output amount that reads as Infinity makes the score infinite,
    whatever the confidence, the source and the warnings. *)
Lemma score_of_unbounded_amount q :
  readLiteral (outputAmount q) = InfinityLiteral false ->
  QuoteAggregatorService.calculateQuoteScore q = Infinity false.
Proof.
  intros Hread. rewrite calculateQuoteScore_total.
  unfold totalScore, liquidityTerm, parseFloat. rewrite Hread.
  unfold ofZ. cbn [Number_add Math_log Number_mul].
  rewrite Rsign_positive by lra. reflexivity.
Qed.

(** Of two quotes of the same score the one given first is selected. *)
Lemma tie_goes_to_the_first a b :
  QuoteAggregatorService.calculateQuoteScore a
  = QuoteAggregatorService.calculateQuoteScore b ->
  QuoteAggregatorService.selectBestQuote [a; b] = Returned a.
Proof.
  intros Hab. unfold QuoteAggregatorService.selectBestQuote,
    QuoteAggregatorService.selectBestBy.
  cbn [map Array_sort fold_right insert].
  unfold QuoteAggregatorService.compareFn. cbn [score].
  now rewrite isPositive_sub, Hab, Number_gt_irreflexive.
Qed.

(** C8 as stated fails on the code.  Jupiter is down, DFlow and Hashflow
    both answer with the output amount Infinity: the stages collect
    DFlow's quote before Hashflow's, both scores are infinite and so
    equal, and the request returns DFlow's quote although the bonus of
    Hashflow is the larger; given in the other order, the same two quotes
    yield Hashflow's. *)
Lemma ties_ignore_the_source_bonus_counterexample :
  fst (QuoteAggregatorService.collect sampleRequest 1000 unbounded
         (freshBreakers, tick emptyWorld))
  = Returned ([quoteDFlowUnbounded; quoteHashflowUnbounded],
              [TypeError "error.includes is not a function"])
  /\ fst (QuoteAggregatorService.getOptimalQuote sampleRequest unbounded
            (freshBreakers, emptyWorld))
     = Returned quoteDFlowUnbounded
  /\ QuoteAggregatorService.calculateQuoteScore quoteDFlowUnbounded
     = QuoteAggregatorService.calculateQuoteScore quoteHashflowUnbounded
  /\ reliabilityBonus (source quoteDFlowUnbounded)
     < reliabilityBonus (source quoteHashflowUnbounded)
  /\ Permutation [quoteDFlowUnbounded; quoteHashflowUnbounded]
                 [quoteHashflowUnbounded; quoteDFlowUnbounded]
  /\ QuoteAggregatorService.selectBestQuote
       [quoteDFlowUnbounded; quoteHashflowUnbounded]
     = Returned quoteDFlowUnbounded
  /\ QuoteAggregatorService.selectBestQuote
       [quoteHashflowUnbounded; quoteDFlowUnbounded]
     = Returned quoteHashflowUnbounded
  /\ quoteDFlowUnbounded <> quoteHashflowUnbounded.
Proof.
  assert (Hcollect :
    QuoteAggregatorService.collect sampleRequest 1000 unbounded
      (freshBreakers, tick emptyWorld)
    = (Returned ([quoteDFlowUnbounded; quoteHashflowUnbounded],
                 [TypeError "error.includes is not a function"]),
       snd (QuoteAggregatorService.collect sampleRequest 1000 unbounded
              (freshBreakers, tick emptyWorld))))
    by (vm_compute; reflexivity).
  assert (Hscores :
    QuoteAggregatorService.calculateQuoteScore quoteDFlowUnbounded
    = QuoteAggregatorService.calculateQuoteScore quoteHashflowUnbounded)
    by (now rewrite !score_of_unbounded_amount).
  split; [now rewrite Hcollect|]. split.
  { rewrite getOptimalQuote_eq.
    change (clock unbounded (ticks emptyWorld)) with 1000.
    rewrite Hcollect. cbn [fst]. now apply tie_goes_to_the_first. }
  split; [exact Hscores|]. split; [reflexivity|].
  split; [apply perm_swap|].
  split; [now apply tie_goes_to_the_first|].
  split; [now apply tie_goes_to_the_first | discriminate].
Qed.

(** C8, as the code has it.  From a list of quotes that is not empty and
    whose scores are numbers, the quote selected is the first, in the order
    given, of those with the highest score: every quote before it scores
    strictly lower and none after it scores higher.  Hence every
    permutation of the list yields a quote of that same score, and the same
    quote whenever no other quote of the list has that score.  Among quotes
    of equal score the order given decides; neither the bonus of the source
    nor the output amount is consulted.  This holds of the selection
    whatever the scoring method computes, so it does not depend on how the
    scores are rounded. *)
Theorem first_of_the_highest_scores_is_selected :
  forall (scoreOf : QuoteResponse -> Number) quotes,
    quotes <> [] ->
    (forall q, In q quotes -> scoreOf q <> NaN) ->
    exists before best after,
      quotes = before ++ best :: after
      /\ QuoteAggregatorService.selectBestBy scoreOf quotes = Returned best
      /\ (forall q, In q before ->
            Number_gt (scoreOf best) (scoreOf q) = true)
      /\ (forall q, In q after ->
            Number_gt (scoreOf q) (scoreOf best) = false)
      /\ forall quotes',
           Permutation quotes quotes' ->
           exists best',
             QuoteAggregatorService.selectBestBy scoreOf quotes'
             = Returned best'
             /\ scoreOf best' = scoreOf best
             /\ ((forall q, In q quotes ->
                    scoreOf q = scoreOf best -> q = best) ->
                 best' = best).
Proof.
  intros scoreOf quotes Hne Hnum.
  destruct (sorted_head_is_first_highest scoreOf quotes Hne Hnum)
    as (before & best & after & Hsplit & Hhead & Hbefore & Hafter).
  exists before, best, after.
  split; [exact Hsplit|]. split.
  { rewrite (selectBestBy_head scoreOf quotes Hne), Hhead. reflexivity. }
  split; [exact Hbefore|]. split; [exact Hafter|].
  intros quotes' Hperm.
  assert (Hne' : quotes' <> []).
  { intros ->. apply Permutation_sym, Permutation_nil in Hperm. congruence. }
  assert (Hnum' : forall q, In q quotes' -> scoreOf q <> NaN).
  { intros q Hq. apply Hnum.
    eapply Permutation_in; [apply Permutation_sym; exact Hperm | exact Hq]. }
  destruct (sorted_head_is_first_highest scoreOf quotes' Hne' Hnum')
    as (before' & best' & after' & Hsplit' & Hhead' & Hbefore' & Hafter').
  assert (Hin : In best quotes')
    by (eapply Permutation_in; [exact Hperm|];
        rewrite Hsplit; apply in_or_app; right; now left).
  assert (Hin' : In best' quotes)
    by (eapply Permutation_in; [apply Permutation_sym; exact Hperm|];
        rewrite Hsplit'; apply in_or_app; right; now left).
  assert (Hsame : scoreOf best' = scoreOf best).
  { apply Number_gt_total.
    - now apply Hnum.
    - apply Hnum. rewrite Hsplit. apply in_or_app. right. now left.
    - apply (first_highest_is_highest scoreOf before best after);
        [exact Hbefore | exact Hafter | now rewrite <- Hsplit].
    - apply (first_highest_is_highest scoreOf before' best' after');
        [exact Hbefore' | exact Hafter' | now rewrite <- Hsplit']. }
  exists best'. split.
  { rewrite (selectBestBy_head scoreOf quotes' Hne'), Hhead'. reflexivity. }
  split; [exact Hsame|].
  intros Hunique. now apply Hunique.
Qed.

(** C8 as amended, at the two quotes of infinite score and with the scoring
    of the code. *)
Lemma first_of_the_highest_scores_is_selected_witness :
  exists before best after,
    [quoteDFlowUnbounded; quoteHashflowUnbounded] = before ++ best :: after
    /\ QuoteAggregatorService.selectBestQuote
         [quoteDFlowUnbounded; quoteHashflowUnbounded]
       = Returned best
    /\ (forall q, In q before ->
          Number_gt (QuoteAggregatorService.calculateQuoteScore best)
                    (QuoteAggregatorService.calculateQuoteScore q) = true)
    /\ (forall q, In q after ->
          Number_gt (QuoteAggregatorService.calculateQuoteScore q)
                    (QuoteAggregatorService.calculateQuoteScore best)
          = false)
    /\ forall quotes',
         Permutation [quoteDFlowUnbounded; quoteHashflowUnbounded] quotes' ->
         exists best',
           QuoteAggregatorService.selectBestQuote quotes' = Returned best'
           /\ QuoteAggregatorService.calculateQuoteScore best'
              = QuoteAggregatorService.calculateQuoteScore best
           /\ ((forall q,
                   In q [quoteDFlowUnbounded; quoteHashflowUnbounded] ->
                   QuoteAggregatorService.calculateQuoteScore q
                   = QuoteAggregatorService.calculateQuoteScore best ->
                   q = best) ->
               best' = best).
Proof.
  apply (first_of_the_highest_scores_is_selected
           QuoteAggregatorService.calculateQuoteScore
           [quoteDFlowUnbounded; quoteHashflowUnbounded]).
  - discriminate.
  - intros q [<-|[<-|[]]];
      rewrite score_of_unbounded_amount by reflexivity; discriminate.
Defined.

(** Why the scores have to be numbers: an output amount that does not read
    as a number makes the score NaN, and NaN compares as a tie with every
    other score. *)
Example unreadable_amount_scores_NaN :
  QuoteAggregatorService.calculateQuoteScore quoteUnreadable = NaN
  /\ forall a, Number_gt a NaN = false /\ Number_gt NaN a = false.
Proof.
  split; [reflexivity|]. intros a. split; now destruct a.
Qed.

(** The breaker of a service through an outage and back: three failures
    open it, a call half a second later fails fast, and the first call
    after five seconds that succeeds closes it. *)
Example breaker_through_an_outage :
  let cb := JupiterQuoteService.circuitBreaker in
  let failing : Async World Z := fun _ w => (Thrown (ErrorObject "down"), w) in
  let working : Async World Z := fun _ w => (Returned 7, w) in
  let readings (n : nat) : Z :=
    if (n <=? 3)%nat then 1000        (* the three failures *)
    else if (n =? 4)%nat then 1500    (* a call while open *)
    else 6000 in                      (* the trial *)
  let env := mkEnv readings (random outage) (jupiterApi outage)
                   (dflowApi outage) (hashflowApi outage) (pythApi outage)
                   false false in
  runCalls cb env [failing; failing; failing; working; working]
           (initialState, emptyWorld)
  = ([Thrown (ErrorObject "down"); Thrown (ErrorObject "down");
      Thrown (ErrorObject "down"); Thrown circuitOpen; Returned 7],
     (mkState false 0 1000 6000, mkWorld 6 0 [])).
Proof. reflexivity. Qed.

(* ================================================================= *)
(** * Further properties of the code *)

(* ================================================================= *)
(** ** Circuit breaker: invariant, trial, pass-through *)

Lemma execute_keeps_counted T (cb : CircuitBreaker)
    (operation : Async World T) env st w :
  counted cb st ->
  counted cb (fst (snd (CircuitBreaker.execute cb operation env (st, w)))).
Proof.
  intros [Hcount Hopen]. rewrite execute_eq.
  destruct (isOpen st && _); [now split|].
  destruct (operation env _) as [[v|e] w2]; cbn [fst snd].
  - split; cbn; [lia | discriminate].
  - destruct (failureCount st + 1 >=? failureThreshold cb) eqn:Hc;
      cbn [fst snd]; split; cbn; try lia; try discriminate.
Qed.

(** X1.  Whatever calls a new breaker has served, and whatever they
    answered, its failure count is not negative and, when it is open, the
    count has reached the threshold. *)
Theorem breaker_invariant :
  forall T (cb : CircuitBreaker) env (operations : list (Async World T)) w,
    counted cb (fst (snd (runCalls cb env operations (initialState, w)))).
Proof.
  intros T cb env operations w.
  assert (Hgen : forall s, counted cb (fst s) ->
            counted cb (fst (snd (runCalls cb env operations s)))).
  { induction operations as [|op rest IH]; intros [st w0] Hs; [exact Hs|].
    cbn [runCalls].
    pose proof (execute_keeps_counted T cb op env st w0 Hs) as Hstep.
    destruct (CircuitBreaker.execute cb op env (st, w0)) as [c s1].
    specialize (IH s1 Hstep).
    destruct (runCalls cb env rest s1) as [cs s2]. exact IH. }
  apply Hgen. split; cbn; [lia | discriminate].
Qed.

(** X2.  A half-open trial that fails opens the breaker again at once: the
    count goes up by one, and the next attempt is due a full
    [halfOpenRetryDelayMs] after the clock reading taken at this failure. *)
Theorem failed_trial_reopens :
  forall T (cb : CircuitBreaker) (trial : Async World T) env st w e w2,
    isOpen st = true ->
    failureThreshold cb <= failureCount st ->
    nextAttemptTime st <= clock env (ticks w) ->
    trial env (tick w) = (Thrown e, w2) ->
    CircuitBreaker.execute cb trial env (st, w)
    = (Thrown e,
       (mkState true (failureCount st + 1) (clock env (ticks w2))
                (clock env (S (ticks w2)) + halfOpenRetryDelayMs cb),
        tick (tick w2))).
Proof.
  intros T cb trial env st w e w2 Hopen Hcount Hdue Htrial.
  rewrite execute_eq, Hopen. apply Z.ltb_ge in Hdue. rewrite Hdue.
  cbn [andb]. rewrite Htrial.
  replace (failureCount st + 1 >=? failureThreshold cb) with true;
    [reflexivity|].
  symmetry. apply Z.geb_le. lia.
Qed.

Lemma failed_trial_reopens_witness :
  CircuitBreaker.execute JupiterQuoteService.circuitBreaker
    (JupiterQuoteService.operation sampleRequest 900) outage
    (mkState true 3 500 900, emptyWorld)
  = (Thrown (ErrorObject "jupiter unreachable"),
     (mkState true 4 1010 6020,
      mkWorld 3 0 [Fetch jupiter])).
Proof.
  apply (failed_trial_reopens QuoteResponse JupiterQuoteService.circuitBreaker
           (JupiterQuoteService.operation sampleRequest 900) outage
           (mkState true 3 500 900) emptyWorld
           (ErrorObject "jupiter unreachable")
           (mkWorld 1 0 [Fetch jupiter]));
    [reflexivity | cbn; lia | cbn; lia | reflexivity].
Defined.

(** X3.  A call that the guard lets through completes the way the wrapped
    operation does: the value it returns or the very value it throws. *)
Theorem execute_passes_the_outcome_through :
  forall T (cb : CircuitBreaker) (operation : Async World T) env s,
    letThrough env s = true ->
    fst (CircuitBreaker.execute cb operation env s)
    = fst (operation env (pastGuard s)).
Proof.
  intros T cb operation env [st w] Hthrough.
  unfold letThrough, pastGuard in *. cbn [fst snd] in *.
  rewrite execute_eq.
  destruct (isOpen st); cbn [negb orb andb] in *.
  - apply negb_true_iff in Hthrough. rewrite Hthrough.
    destruct (operation env (tick w)) as [[v|e] w2]; [reflexivity|].
    now destruct (_ >=? _).
  - destruct (operation env w) as [[v|e] w2]; [reflexivity|].
    now destruct (_ >=? _).
Qed.

Lemma execute_passes_the_outcome_through_witness :
  fst (CircuitBreaker.execute JupiterQuoteService.circuitBreaker
         (JupiterQuoteService.operation sampleRequest 900) outage
         (initialState, emptyWorld))
  = fst (JupiterQuoteService.operation sampleRequest 900 outage
           (pastGuard (initialState, emptyWorld))).
Proof.
  apply execute_passes_the_outcome_through. reflexivity.
Defined.

(** X4.  Fewer consecutive failures than the threshold, counted from zero,
    leave the breaker closed. *)
Theorem below_threshold_stays_closed :
  forall T (cb : CircuitBreaker) env (failures : list (Async World T)) s,
    failureCount (fst s) = 0 ->
    failures <> [] ->
    Z.of_nat (List.length failures) < failureThreshold cb ->
    failureStreak cb env failures s = true ->
    isOpen (fst (snd (runCalls cb env failures s))) = false.
Proof.
  intros T cb env failures s. apply breaker_stays_closed_below_threshold.
Qed.

Lemma below_threshold_stays_closed_witness :
  isOpen
    (fst (snd (runCalls JupiterQuoteService.circuitBreaker outage
                 [JupiterQuoteService.operation sampleRequest 900;
                  JupiterQuoteService.operation sampleRequest 900]
                 (initialState, emptyWorld))))
  = false.
Proof.
  apply below_threshold_stays_closed;
    [reflexivity | discriminate | reflexivity | reflexivity].
Defined.

(** X5.  Only consecutive failures count: after a call that succeeds,
    whatever the breaker had counted before, it again takes a full
    threshold of failures to open it. *)
Theorem success_restarts_the_count :
  forall T (cb : CircuitBreaker) env (operation : Async World T) s v s1
         (failures : list (Async World T)),
    CircuitBreaker.execute cb operation env s = (Returned v, s1) ->
    failures <> [] ->
    Z.of_nat (List.length failures) < failureThreshold cb ->
    failureStreak cb env failures s1 = true ->
    isOpen (fst (snd (runCalls cb env failures s1))) = false.
Proof.
  intros T cb env operation s v s1 failures Hok Hne Hlen Hstreak.
  destruct (success_clears_count T cb env operation s v s1 Hok) as [Hzero _].
  now apply breaker_stays_closed_below_threshold.
Qed.

Lemma success_restarts_the_count_witness :
  isOpen
    (fst (snd (runCalls JupiterQuoteService.circuitBreaker calm
                 [alwaysDown; alwaysDown]
                 (mkState false 0 1000 0,
                  mkWorld 0 0 [Fetch jupiter]))))
  = false.
Proof.
  apply (success_restarts_the_count QuoteResponse
           JupiterQuoteService.circuitBreaker calm
           (JupiterQuoteService.operation sampleRequest 900)
           (mkState false 2 1000 0, emptyWorld)
           (JupiterQuoteService.validate liquidRoute));
    [reflexivity | discriminate | reflexivity | reflexivity].
Defined.

(* ================================================================= *)
(** ** Retry manager: budget, backoff, edges *)

Lemma backoff_capped baseDelayMs maxDelayMs attempt jitter :
  (RetryManager.backoff baseDelayMs maxDelayMs attempt jitter
   <= maxDelayMs)%Q.
Proof. unfold RetryManager.backoff. apply Q.le_min_r. Qed.

Section RetryBudget.
Context {T : Type}.
Variable script : nat -> Completion T.
Variables (maxRetries : Z) (baseDelayMs maxDelayMs : Q).
Variable env : Env.

(** A run that ends without a sleep, after no invocation or one. *)
Lemma retryAccount_done attempt n w i :
  (i <= 1)%nat ->
  (i = 0%nat -> maxRetries < attempt) ->
  (i = 1%nat -> attempt <= maxRetries) ->
  retryAccount maxRetries maxDelayMs attempt n w (i + n) w.
Proof.
  intros Hi H0 H1. exists []. cbn.
  split; [reflexivity|]. split; [constructor|].
  split; [reflexivity|]. split; [reflexivity|].
  destruct i as [|[|i]]; [| |lia].
  - specialize (H0 eq_refl). cbn. repeat split; lia.
  - specialize (H1 eq_refl).
    replace (1 + n - n)%nat with 1%nat by lia. cbn. repeat split; lia.
Qed.

(** The account of a run of the loop over a scripted operation: how often
    the operation was invoked, and what was slept in between. *)
Lemma attempts_account :
  forall fuel attempt lastError n w r n' w',
    (Z.to_nat (maxRetries + 1 - attempt) <= fuel)%nat ->
    RetryManager.attempts (scripted script) maxRetries baseDelayMs
                          maxDelayMs fuel attempt lastError env (n, w)
    = (r, (n', w')) ->
    retryAccount maxRetries maxDelayMs attempt n w n' w'.
Proof.
  induction fuel as [|fuel IH];
    intros attempt lastError n w r n' w' Hfuel Hrun.
  - cbn [RetryManager.attempts] in Hrun. unfold reject in Hrun.
    inversion Hrun; subst.
    apply (retryAccount_done attempt n' w' 0); lia.
  - cbn [RetryManager.attempts] in Hrun.
    destruct (attempt <=? maxRetries) eqn:Hguard.
    2:{ unfold reject in Hrun. apply Z.leb_gt in Hguard.
        inversion Hrun; subst.
        apply (retryAccount_done attempt n' w' 0); lia. }
    apply Z.leb_le in Hguard.
    unfold tryCatch, scripted in Hrun. cbn [fst snd] in Hrun.
    assert (Hone : forall (c : Completion T),
              (c, (S n, w)) = (r, (n', w')) ->
              retryAccount maxRetries maxDelayMs attempt n w n' w').
    { intros c H. inversion H; subst.
      apply (retryAccount_done attempt n w' 1); lia. }
    destruct (script n) as [v|error]; [now apply (Hone (Returned v))|].
    destruct (attempt =? maxRetries) eqn:Hlast;
      [now apply (Hone (Thrown error))|].
    apply Z.eqb_neq in Hlast.
    destruct (RetryManager.isNonRetryableError error) as [[|]|typeError];
      [now apply (Hone (Thrown error)) | | now apply (Hone (Thrown typeError))].
    unfold_async. cbn [fst snd] in Hrun.
    apply IH in Hrun; [|lia].
    destruct Hrun as (delays & H1 & H2 & H3 & H4 & H5 & H6 & H7 & H8).
    cbn [trace ticks rolls] in *.
    exists (delays ++ [RetryManager.backoff baseDelayMs maxDelayMs attempt
                         (random env (rolls w))]).
    specialize (H8 ltac:(lia)).
    rewrite map_app, <- app_assoc, length_app. cbn [map app List.length].
    split; [exact H1|]. split.
    { apply Forall_app. split; [exact H2|].
      constructor; [apply backoff_capped | constructor]. }
    repeat split; try lia.
Qed.

(** X6.  However the operation behaves, [executeWithRetry] invokes it at
    most [maxRetries + 1] times, sleeps exactly once between two
    invocations and never otherwise, and does not read the clock. *)
Theorem retry_stays_within_its_budget :
  forall n w r n' w',
    RetryManager.executeWithRetry (scripted script) maxRetries
                                  baseDelayMs maxDelayMs env (n, w)
    = (r, (n', w')) ->
    (n <= n')%nat
    /\ (n' - n <= Z.to_nat (maxRetries + 1))%nat
    /\ sleepCount w' = (Nat.pred (n' - n) + sleepCount w)%nat
    /\ ticks w' = ticks w.
Proof.
  intros n w r n' w' Hrun. unfold RetryManager.executeWithRetry in Hrun.
  apply attempts_account in Hrun;
    [|replace (maxRetries + 1 - 0) with (maxRetries + 1) by lia; lia].
  destruct Hrun as (delays & Htrace & _ & Hticks & _ & Hle & Hbound & Hlen & _).
  replace (maxRetries + 1 - 0) with (maxRetries + 1) in Hbound by lia.
  repeat split; try assumption.
  unfold sleepCount. rewrite Htrace, filter_app, length_app, <- Hlen.
  f_equal. clear. induction delays as [|d delays IH]; cbn; [reflexivity|].
  now rewrite IH.
Qed.

(** X7.  Every backoff [executeWithRetry] sleeps is at most
    [maxDelayMs], and sleeping is all it adds to the trace. *)
Theorem retry_sleeps_are_capped :
  forall n w r n' w',
    RetryManager.executeWithRetry (scripted script) maxRetries
                                  baseDelayMs maxDelayMs env (n, w)
    = (r, (n', w')) ->
    exists delays,
      trace w' = map Sleep delays ++ trace w
      /\ Forall (fun d => (d <= maxDelayMs)%Q) delays.
Proof.
  intros n w r n' w' Hrun. unfold RetryManager.executeWithRetry in Hrun.
  apply attempts_account in Hrun;
    [|replace (maxRetries + 1 - 0) with (maxRetries + 1) by lia; lia].
  destruct Hrun as (delays & Htrace & Hcap & _).
  now exists delays.
Qed.

(** The loop entered at [attempt] with transient failures up to the last
    attempt, which fails too. *)
Lemma attempts_exhaust :
  forall k fuel attempt n w lastError e,
    (k < fuel)%nat ->
    attempt + Z.of_nat k = maxRetries ->
    transientFailures script n k ->
    script (n + k)%nat = Thrown e ->
    exists w',
      RetryManager.attempts (scripted script) maxRetries baseDelayMs
                            maxDelayMs fuel attempt lastError env (n, w)
      = (Thrown e, ((n + k + 1)%nat, w'))
      /\ sleepCount w' = (k + sleepCount w)%nat.
Proof.
  induction k as [|k IH]; intros fuel attempt n w lastError e Hfuel Hroom
    Htransient Hlast.
  - destruct fuel as [|fuel]; [lia|].
    exists w. cbn [RetryManager.attempts].
    replace (attempt <=? maxRetries) with true
      by (symmetry; apply Z.leb_le; lia).
    unfold tryCatch, scripted. cbn [fst snd].
    rewrite Nat.add_0_r in Hlast. rewrite Hlast.
    replace (attempt =? maxRetries) with true
      by (symmetry; apply Z.eqb_eq; lia).
    replace (n + 0 + 1)%nat with (S n) by lia. split; reflexivity.
  - destruct fuel as [|fuel]; [lia|].
    destruct (Htransient 0%nat ltac:(lia)) as (e0 & He0 & Hclass).
    rewrite Nat.add_0_r in He0.
    destruct (IH fuel (attempt + 1) (S n)
                 (record (Sleep (RetryManager.backoff baseDelayMs maxDelayMs
                                   attempt (random env (rolls w))))
                         (mkWorld (ticks w) (S (rolls w)) (trace w)))
                 e0 e)
      as (w' & Hrun & Hsleeps).
    + lia.
    + lia.
    + intros i Hi. replace (S n + i)%nat with (n + S i)%nat by lia.
      apply Htransient. lia.
    + replace (S n + k)%nat with (n + S k)%nat by lia. exact Hlast.
    + exists w'. cbn [RetryManager.attempts].
      replace (attempt <=? maxRetries) with true
        by (symmetry; apply Z.leb_le; lia).
      unfold tryCatch at 1. unfold scripted at 1. cbn [fst snd].
      rewrite He0.
      replace (attempt =? maxRetries) with false
        by (symmetry; apply Z.eqb_neq; lia).
      rewrite Hclass. unfold_async. cbn [fst snd].
      cbn [fst snd] in Hrun. rewrite Hrun.
      replace (S n + k + 1)%nat with (n + S k + 1)%nat by lia.
      split; [reflexivity|].
      unfold sleepCount in *. cbn in Hsleeps. lia.
Qed.

(** X8.  When the operation fails on every attempt, the failures before
    the last being ones the classifier finds retryable, [executeWithRetry]
    throws the failure of the last attempt, after [maxRetries + 1]
    invocations and [maxRetries] sleeps. *)
Theorem retry_exhausted_throws_the_last_failure :
  forall n w e,
    0 <= maxRetries ->
    transientFailures script n (Z.to_nat maxRetries) ->
    script (n + Z.to_nat maxRetries)%nat = Thrown e ->
    exists w',
      RetryManager.executeWithRetry (scripted script) maxRetries
                                    baseDelayMs maxDelayMs env (n, w)
      = (Thrown e, ((n + Z.to_nat maxRetries + 1)%nat, w'))
      /\ sleepCount w' = (Z.to_nat maxRetries + sleepCount w)%nat.
Proof.
  intros n w e Hmax Htransient Hlast.
  unfold RetryManager.executeWithRetry.
  apply attempts_exhaust; try assumption; lia.
Qed.
End RetryBudget.

(** X9.  With a negative [maxRetries] the loop is never entered: the
    operation is not invoked and what is thrown is [undefined]. *)
Theorem negative_maxRetries_throws_undefined :
  forall X T (operation : Async (X * World) T) maxRetries baseDelayMs
         maxDelayMs env s,
    maxRetries < 0 ->
    RetryManager.executeWithRetry operation maxRetries baseDelayMs maxDelayMs
                                  env s
    = (Thrown Undefined, s).
Proof.
  intros X T operation maxRetries baseDelayMs maxDelayMs env s Hneg.
  unfold RetryManager.executeWithRetry.
  destruct (Z.to_nat (maxRetries + 1)) eqn:Hfuel; [reflexivity | lia].
Qed.

(** X10.  With [maxRetries] zero the wrapper changes nothing: the single
    attempt is the last one, so its failure is thrown as it is, without
    being classified and without a sleep. *)
Theorem zero_maxRetries_is_the_operation :
  forall X T (operation : Async (X * World) T) baseDelayMs maxDelayMs env s,
    RetryManager.executeWithRetry operation 0 baseDelayMs maxDelayMs env s
    = operation env s.
Proof.
  intros X T operation baseDelayMs maxDelayMs env s.
  unfold RetryManager.executeWithRetry.
  change (Z.to_nat (0 + 1)) with 1%nat. cbn [RetryManager.attempts].
  cbn [Z.leb Z.eqb Z.compare]. unfold tryCatch, reject.
  now destruct (operation env s) as [[v|e] s'].
Qed.

Lemma retry_stays_within_its_budget_witness :
  (0 <= 2)%nat
  /\ (2 - 0 <= Z.to_nat (3 + 1))%nat
  /\ sleepCount
       (snd (snd (RetryManager.executeWithRetry (scripted busyOnce) 3 100 1000
                    outage (0%nat, emptyWorld))))
     = (Nat.pred (2 - 0) + sleepCount emptyWorld)%nat
  /\ ticks
       (snd (snd (RetryManager.executeWithRetry (scripted busyOnce) 3 100 1000
                    outage (0%nat, emptyWorld))))
     = ticks emptyWorld.
Proof.
  apply (retry_stays_within_its_budget busyOnce 3 100 1000 outage
           0%nat emptyWorld (Returned 42)).
  reflexivity.
Defined.

Lemma retry_sleeps_are_capped_witness :
  exists delays,
    trace (snd (snd (RetryManager.executeWithRetry (scripted busyOnce) 3 100
                       1000 outage (0%nat, emptyWorld))))
    = map Sleep delays ++ trace emptyWorld
    /\ Forall (fun d => (d <= 1000)%Q) delays.
Proof.
  apply (retry_sleeps_are_capped busyOnce 3 100 1000 outage
           0%nat emptyWorld (Returned 42) 2%nat).
  reflexivity.
Defined.

Lemma retry_exhausted_throws_the_last_failure_witness :
  exists w',
    RetryManager.executeWithRetry (scripted alwaysBusy) 2 100 1000
                                  outage (0%nat, emptyWorld)
    = (Thrown (StringValue "busy"), ((0 + Z.to_nat 2 + 1)%nat, w'))
    /\ sleepCount w' = (Z.to_nat 2 + sleepCount emptyWorld)%nat.
Proof.
  apply retry_exhausted_throws_the_last_failure.
  - discriminate.
  - intros i Hi. exists (StringValue "busy"). split; reflexivity.
  - reflexivity.
Defined.

Lemma negative_maxRetries_throws_undefined_witness :
  RetryManager.executeWithRetry (scripted busyOnce) (-1) 100 1000
                                outage (0%nat, emptyWorld)
  = (Thrown Undefined, (0%nat, emptyWorld)).
Proof.
  apply negative_maxRetries_throws_undefined. reflexivity.
Defined.

(** X11.  A failure that is an [Error] instance is never retried: while
    retries remain, [isNonRetryableError] calls [includes] on it, which is
    not a function of an [Error], and the TypeError of that call is what
    [executeWithRetry] throws, after the one invocation and with no
    sleep. *)
Theorem error_instances_are_never_retried :
  forall T (script : nat -> Completion T) maxRetries baseDelayMs maxDelayMs
         env n w m,
    0 < maxRetries ->
    script n = Thrown (ErrorObject m) ->
    RetryManager.executeWithRetry (scripted script) maxRetries
                                  baseDelayMs maxDelayMs env (n, w)
    = (Thrown (TypeError "error.includes is not a function"), (S n, w)).
Proof.
  intros T script maxRetries baseDelayMs maxDelayMs env n w m.
  apply error_instance_is_not_retried.
Qed.

Lemma error_instances_are_never_retried_witness :
  RetryManager.executeWithRetry (scripted errorOnce) 2 50 200
                                outage (0%nat, emptyWorld)
  = (Thrown (TypeError "error.includes is not a function"),
     (1%nat, emptyWorld)).
Proof.
  apply (error_instances_are_never_retried Z errorOnce 2 50 200 outage 0%nat
           emptyWorld "Jupiter API error: 503 Busy").
  - reflexivity.
  - reflexivity.
Defined.

(* ================================================================= *)
(** ** The four services *)

(** A call that returns went past the guard, its operation returned that
    value, and the breaker is closed with a count of zero. *)
Lemma execute_returned T (cb : CircuitBreaker) (operation : Async World T)
    env st w v s' :
  CircuitBreaker.execute cb operation env (st, w) = (Returned v, s') ->
  operation env (pastGuard (st, w)) = (Returned v, snd s')
  /\ fst s' = mkState false 0 (lastFailureTime st) (nextAttemptTime st).
Proof.
  rewrite execute_eq. unfold pastGuard. cbn [fst snd].
  destruct (isOpen st && _); [discriminate|].
  destruct (operation env _) as [[v'|e] w2].
  - intros H; inversion H; subst. split; reflexivity.
  - destruct (_ >=? _); discriminate.
Qed.

(** A call through a closed breaker whose operation throws: the value is
    thrown on and the failure is counted. *)
Lemma execute_closed_failure T (cb : CircuitBreaker)
    (operation : Async World T) env st w e w2 :
  isOpen st = false ->
  operation env w = (Thrown e, w2) ->
  exists st' w',
    CircuitBreaker.execute cb operation env (st, w) = (Thrown e, (st', w'))
    /\ failureCount st' = failureCount st + 1
    /\ trace w' = trace w2.
Proof.
  intros Hclosed Hop. rewrite execute_eq, Hclosed. cbn [andb]. rewrite Hop.
  destruct (_ >=? _); eexists; eexists; (split; [reflexivity|]);
    split; reflexivity.
Qed.

(** X12.  A response of Jupiter that is not [ok] is an error whatever its
    body holds: [getQuote] throws "Jupiter API error:" with the status and
    its text, the request having been issued, and the breaker counts the
    failure. *)
Theorem jupiter_rejects_a_response_that_is_not_ok :
  forall request timeoutMs env st w status statusText body,
    isOpen st = false ->
    jupiterApi env (fetchCount jupiter w)
    = Response false status statusText body ->
    exists st' w',
      getQuote JupiterQuoteService.service request timeoutMs env (st, w)
      = (Thrown (ErrorObject ("Jupiter API error: " ++ Z_toString status
                              ++ " " ++ statusText)),
         (st', w'))
      /\ failureCount st' = failureCount st + 1
      /\ fetchCount jupiter w' = S (fetchCount jupiter w).
Proof.
  intros request timeoutMs env st w status statusText body Hclosed Hapi.
  cbn [getQuote JupiterQuoteService.service].
  destruct (execute_closed_failure QuoteResponse
              JupiterQuoteService.circuitBreaker
              (JupiterQuoteService.operation request timeoutMs) env st w
              (ErrorObject ("Jupiter API error: " ++ Z_toString status
                            ++ " " ++ statusText))
              (record (Fetch jupiter) w) Hclosed)
    as (st' & w' & Hrun & Hcount & Htrace).
  { unfold JupiterQuoteService.operation, fetch. unfold_async.
    rewrite Hapi. reflexivity. }
  exists st', w'. split; [exact Hrun|]. split; [exact Hcount|].
  unfold fetchCount. rewrite Htrace. reflexivity.
Qed.

Lemma jupiter_rejects_a_response_that_is_not_ok_witness :
  exists st' w',
    getQuote JupiterQuoteService.service sampleRequest 900 rateLimited
             (initialState, emptyWorld)
    = (Thrown (ErrorObject ("Jupiter API error: " ++ Z_toString 429
                            ++ " " ++ "Too Many Requests")),
       (st', w'))
    /\ failureCount st' = failureCount initialState + 1
    /\ fetchCount jupiter w' = S (fetchCount jupiter emptyWorld).
Proof.
  apply (jupiter_rejects_a_response_that_is_not_ok sampleRequest 900
           rateLimited initialState emptyWorld 429 "Too Many Requests"
           (Json liquidRoute));
    reflexivity.
Defined.

(** X13.  DFlow and Hashflow do not look at the status of the response: a
    body that parses becomes a quote, [ok] or not. *)
Theorem rfq_services_ignore_the_status :
  forall request timeoutMs env st w ok status statusText,
    isOpen st = false ->
    (forall data,
        dflowApi env (fetchCount dflow w)
        = Response ok status statusText (Json data) ->
        exists q s',
          getQuote DFlowQuoteService.service request timeoutMs env (st, w)
          = (Returned q, s')
          /\ outputAmount q = DFlowJson.outputAmount data
          /\ otherAmountThreshold q = DFlowJson.minOutputAmount data)
    /\ (forall data,
           hashflowApi env (fetchCount hashflow w)
           = Response ok status statusText (Json data) ->
           exists q s',
             getQuote HashflowQuoteService.service request timeoutMs env (st, w)
             = (Returned q, s')
             /\ outputAmount q = HashflowJson.quoteTokenAmount data
             /\ otherAmountThreshold q
                = HashflowJson.effectiveQuoteTokenAmount data).
Proof.
  intros request timeoutMs env st w ok status statusText Hclosed.
  split; intros data Hapi;
    cbn [getQuote DFlowQuoteService.service HashflowQuoteService.service];
    rewrite execute_eq, Hclosed; cbn [andb];
    unfold DFlowQuoteService.operation, HashflowQuoteService.operation,
      fetchJson, fetch; unfold_async; rewrite Hapi; cbn;
    eexists; eexists; (split; [reflexivity|]); split; reflexivity.
Qed.

Lemma rfq_services_ignore_the_status_witness :
  exists q s',
    getQuote DFlowQuoteService.service sampleRequest 800 dflowUnavailable
             (initialState, emptyWorld)
    = (Returned q, s')
    /\ outputAmount q = "51000"%string
    /\ otherAmountThreshold q = "50000"%string.
Proof.
  apply (proj1 (rfq_services_ignore_the_status sampleRequest 800
                  dflowUnavailable initialState emptyWorld false 503
                  "Service Unavailable" eq_refl)
           (DFlowJson.mk "51000" None "50000")).
  reflexivity.
Defined.

Lemma jupiter_operation_returned request timeoutMs env w q w' :
  JupiterQuoteService.operation request timeoutMs env w = (Returned q, w') ->
  exists data, q = JupiterQuoteService.validate data.
Proof.
  unfold JupiterQuoteService.operation, fetch. unfold_async.
  destruct (jupiterApi env _) as [m|ok status text [data|m]]; cbn;
    try destruct ok; cbn; try discriminate.
  intros H; inversion H. now exists data.
Qed.

Lemma dflow_operation_returned request timeoutMs env w q w' :
  DFlowQuoteService.operation request timeoutMs env w = (Returned q, w') ->
  source q = dflow /\ confidence q = medium /\ warnings q = None
  /\ inputAmount q = QuoteRequest.amount request
  /\ routePlan q = [] /\ swapMode q = "ExactIn"%string.
Proof.
  unfold DFlowQuoteService.operation, await.
  destruct (fetchJson dflow dflowApi env w) as [[data|e] w1];
    [|discriminate].
  unfold resolve. intros H; inversion H. repeat split.
Qed.

Lemma hashflow_operation_returned request timeoutMs env w q w' :
  HashflowQuoteService.operation request timeoutMs env w = (Returned q, w') ->
  source q = hashflow /\ confidence q = high /\ warnings q = None
  /\ slippageBps q = 0 /\ priceImpactPct q = ofZ 0
  /\ inputAmount q = QuoteRequest.amount request
  /\ routePlan q = [] /\ swapMode q = "ExactIn"%string.
Proof.
  unfold HashflowQuoteService.operation, await.
  destruct (fetchJson hashflow hashflowApi env w) as [[data|e] w1];
    [|discriminate].
  unfold resolve. intros H; inversion H. repeat split.
Qed.

Lemma pyth_operation_returned request timeoutMs env w q w' :
  PythOracleQuoteService.operation request timeoutMs env w = (Returned q, w') ->
  source q = pyth_oracle /\ confidence q = low
  /\ warnings q = Some PythOracleQuoteService.disclaimers
  /\ priceImpactPct q = ofZ 0
  /\ inputAmount q = QuoteRequest.amount request
  /\ routePlan q = [] /\ swapMode q = "ExactIn"%string.
Proof.
  unfold PythOracleQuoteService.operation, await.
  destruct (PythOracleQuoteService.Promise_all _ _ env w) as [[prices|e] w1];
    [|discriminate].
  unfold resolve. intros H; inversion H. repeat split.
Qed.

Lemma service_quote_tags src request timeoutMs env s
    q s' :
  getQuote (QuoteAggregatorService.services src) request timeoutMs env s
  = (Returned q, s') ->
  source q = src
  /\ (src = dflow -> confidence q = medium)
  /\ (src = hashflow -> confidence q = high).
Proof.
  destruct s as [st w]. intros Hget.
  destruct src; cbn [QuoteAggregatorService.services getQuote
                     JupiterQuoteService.service DFlowQuoteService.service
                     HashflowQuoteService.service
                     PythOracleQuoteService.service] in Hget;
    apply execute_returned in Hget; destruct Hget as [Hop _].
  - apply jupiter_operation_returned in Hop. destruct Hop as [data ->].
    split; [apply validate_confidence|]. split; discriminate.
  - apply dflow_operation_returned in Hop. destruct Hop as (H1 & H2 & _).
    split; [exact H1|]. split; [intros _; exact H2 | discriminate].
  - apply hashflow_operation_returned in Hop. destruct Hop as (H1 & H2 & _).
    split; [exact H1|]. split; [discriminate | intros _; exact H2].
  - apply pyth_operation_returned in Hop. destruct Hop as (H1 & _).
    split; [exact H1|]. split; discriminate.
Qed.

(** X14.  Whatever the upstream answers, a quote that a service returns is
    tagged with that service as its source.  A DFlow quote is of medium
    confidence, a Hashflow quote of high confidence with no slippage and no
    price impact, both without warnings; an oracle quote is of low
    confidence and carries the three disclaimers.  The three of them echo
    the requested amount, have an empty route and swap mode ExactIn. *)
Theorem quotes_are_tagged_by_their_service :
  forall src request timeoutMs env s q s',
    getQuote (QuoteAggregatorService.services src) request timeoutMs env s
    = (Returned q, s') ->
    source q = src
    /\ (src = dflow -> confidence q = medium /\ warnings q = None)
    /\ (src = hashflow ->
        confidence q = high /\ warnings q = None
        /\ slippageBps q = 0 /\ priceImpactPct q = ofZ 0)
    /\ (src = pyth_oracle ->
        confidence q = low
        /\ warnings q = Some PythOracleQuoteService.disclaimers
        /\ List.length (warningsOf q) = 3%nat)
    /\ (src <> jupiter ->
        inputAmount q = QuoteRequest.amount request
        /\ routePlan q = [] /\ swapMode q = "ExactIn"%string).
Proof.
  intros src request timeoutMs env [st w] q s' Hget.
  destruct src; cbn [QuoteAggregatorService.services getQuote
                     JupiterQuoteService.service DFlowQuoteService.service
                     HashflowQuoteService.service
                     PythOracleQuoteService.service] in Hget;
    apply execute_returned in Hget; destruct Hget as [Hop _].
  - apply jupiter_operation_returned in Hop. destruct Hop as [data ->].
    split; [apply validate_confidence|]. repeat split; intros; congruence.
  - apply dflow_operation_returned in Hop.
    destruct Hop as (H1 & H2 & H3 & H4 & H5 & H6).
    split; [exact H1|]. repeat split; intros; try congruence; assumption.
  - apply hashflow_operation_returned in Hop.
    destruct Hop as (H1 & H2 & H3 & H4 & H5 & H6 & H7 & H8).
    split; [exact H1|]. repeat split; intros; try congruence; assumption.
  - apply pyth_operation_returned in Hop.
    destruct Hop as (H1 & H2 & H3 & H4 & H5 & H6 & H7).
    split; [exact H1|].
    repeat split; intros; try congruence; try assumption.
    unfold warningsOf. now rewrite H3.
Qed.

Lemma quotes_are_tagged_by_their_service_witness :
  source (mkQuote "1000000000" "51000" (ofZ 0) [] "50000" "ExactIn" 50
                  dflow medium None)
  = dflow.
Proof.
  exact (proj1 (quotes_are_tagged_by_their_service dflow sampleRequest 800
                  dflowOnly (initialState, emptyWorld)
                  (mkQuote "1000000000" "51000" (ofZ 0) [] "50000" "ExactIn"
                           50 dflow medium None)
                  (initialState, record (Fetch dflow) emptyWorld)
                  eq_refl)).
Defined.

(** What Jupiter's validation does with the warnings. *)
Lemma validate_warnings data :
  let q := JupiterQuoteService.validate data in
  (confidence q = high -> warnings q = None)
  /\ warnings q <> Some []
  /\ (List.length (warningsOf q) <= 2)%nat
  /\ (List.length (warningsOf q) = 2%nat -> confidence q = low)
  /\ (confidence q = low -> warnings q <> None).
Proof.
  unfold JupiterQuoteService.validate, warningsOf.
  set (impact := parseFloat (orElse (JupiterJson.priceImpactPact data) "0")).
  destruct (Number_gt impact (ofZ 5)) eqn:H5;
    [|destruct (Number_gt impact (ofZ 1)) eqn:H1];
    (destruct (JupiterJson.routePlan data) as [plan|];
     [destruct (4 <? List.length plan)%nat eqn:Hhops|]);
    cbn -[Nat.ltb]; rewrite ?H5, ?H1, ?Hhops; cbn;
    repeat split; intros; try discriminate; try lia; try reflexivity.
Qed.

(** X15.  A quote of Jupiter is of high confidence only without warnings
    and of low confidence only with one; it carries at most two warnings,
    both together only at low confidence, and never an empty list of
    them. *)
Theorem jupiter_warnings_go_with_the_confidence :
  forall request timeoutMs env s q s',
    getQuote JupiterQuoteService.service request timeoutMs env s
    = (Returned q, s') ->
    (confidence q = high -> warnings q = None)
    /\ warnings q <> Some []
    /\ (List.length (warningsOf q) <= 2)%nat
    /\ (List.length (warningsOf q) = 2%nat -> confidence q = low)
    /\ (confidence q = low -> warnings q <> None).
Proof.
  intros request timeoutMs env s q s' H.
  destruct (jupiter_quote_is_validated _ _ _ _ _ _ H) as [data ->].
  apply validate_warnings.
Qed.

Lemma jupiter_warnings_go_with_the_confidence_witness :
  let q := JupiterQuoteService.validate illiquidRoute in
  (confidence q = high -> warnings q = None)
  /\ warnings q <> Some []
  /\ (List.length (warningsOf q) <= 2)%nat
  /\ (List.length (warningsOf q) = 2%nat -> confidence q = low)
  /\ (confidence q = low -> warnings q <> None).
Proof.
  exact (jupiter_warnings_go_with_the_confidence
           sampleRequest 900 illiquid (initialState, emptyWorld)
           (JupiterQuoteService.validate illiquidRoute)
           (mkState false 0 0 0, record (Fetch jupiter) emptyWorld)
           eq_refl).
Defined.

(** X16.  Jupiter reports healthy after every call that returned a quote,
    and unhealthy after every call that failed fast on the open breaker. *)
Theorem isHealthy_follows_the_breaker :
  forall request timeoutMs env st w r s',
    getQuote JupiterQuoteService.service request timeoutMs env (st, w)
    = (r, s') ->
    (forall q, r = Returned q -> JupiterQuoteService.isHealthy (fst s') = true)
    /\ (isOpen st = true ->
        clock env (ticks w) < nextAttemptTime st ->
        r = Thrown circuitOpen
        /\ JupiterQuoteService.isHealthy (fst s') = false).
Proof.
  intros request timeoutMs env st w r s' Hget.
  cbn [getQuote JupiterQuoteService.service] in Hget. split.
  - intros q ->. apply execute_returned in Hget. destruct Hget as [_ ->].
    reflexivity.
  - intros Hopen Hdue.
    rewrite (fast_fail_leaves_state_unchanged _ _ _ _ _ _ Hopen Hdue) in Hget.
    inversion Hget; subst. split; [reflexivity|].
    unfold JupiterQuoteService.isHealthy, CircuitBreaker.isOpen_.
    cbn [fst]. now rewrite Hopen.
Qed.

Lemma isHealthy_follows_the_breaker_witness :
  @Thrown QuoteResponse circuitOpen = Thrown circuitOpen
  /\ JupiterQuoteService.isHealthy
       (fst (mkState true 3 1000 6000, tick emptyWorld)) = false.
Proof.
  apply (proj2 (isHealthy_follows_the_breaker sampleRequest 900 outage
                  (mkState true 3 1000 6000) emptyWorld
                  (Thrown circuitOpen)
                  (mkState true 3 1000 6000, tick emptyWorld)
                  eq_refl));
    reflexivity.
Defined.

(* ================================================================= *)
(** ** The aggregator: calls, timeouts, stages *)

(** The trace of one call: the call, the requests to that upstream, and
    the answer when there is one; the quote carries the tag of its
    service, and what is thrown is an [Error] instance. *)
Lemma call_trace src request timeoutMs env s r s' :
  QuoteAggregatorService.call src request timeoutMs env s = (r, s') ->
  (exists fetches,
      forallb (isFetch src) fetches = true
      /\ trace (snd s')
         = match r with Returned _ => [Answered src] | Thrown _ => [] end
           ++ fetches ++ Called src timeoutMs :: trace (snd s))
  /\ match r with
     | Returned q => source q = src
                     /\ (src = dflow -> confidence q = medium)
                     /\ (src = hashflow -> confidence q = high)
     | Thrown e => isErrorInstance e = true
     end.
Proof.
  destruct s as [b w]. rewrite call_eq.
  destruct (getQuote _ _ _ _ _) as [r0 [st' w1]] eqn:Hget.
  destruct (getQuote_footprint _ _ _ _ _ _ _ _ _ Hget)
    as ((fetches & Htrace & Hfetches) & Herr).
  cbn [trace record] in Htrace.
  destruct r0 as [q|e]; intros H; inversion H; subst; cbn [fst snd].
  - split.
    + exists fetches. split; [exact Hfetches|]. cbn. now rewrite Htrace.
    + exact (service_quote_tags _ _ _ _ _ _ _ Hget).
  - split.
    + exists fetches. split; [exact Hfetches|]. cbn. now rewrite Htrace.
    + now apply Herr.
Qed.

Lemma call_request_events src request timeoutMs env s r s' :
  QuoteAggregatorService.call src request timeoutMs env s = (r, s') ->
  stageTimeout src timeoutMs = true ->
  extends requestEvent (snd s) (snd s').
Proof.
  intros Hcall Ht.
  destruct (call_trace _ _ _ _ _ _ _ Hcall) as ((fetches & Hf & Htr) & _).
  exists (match r with Returned _ => [Answered src] | Thrown _ => [] end
          ++ fetches ++ [Called src timeoutMs]).
  split.
  - rewrite Htr, <- !app_assoc. reflexivity.
  - rewrite !forallb_app. cbn. rewrite Ht.
    replace (forallb requestEvent fetches) with true.
    + now destruct r.
    + symmetry. apply forallb_forall. intros e He.
      rewrite forallb_forall in Hf. specialize (Hf e He). now destruct e.
Qed.

(** Around a call to a service the retry loop is that one call: a quote is
    returned, and a failure leaves as the classifier's TypeError. *)
Lemma retried_call_eq src request timeoutMs env s :
  RetryManager.executeWithRetry
    (QuoteAggregatorService.call src request timeoutMs) 2 50 200 env s
  = match QuoteAggregatorService.call src request timeoutMs env s with
    | (Returned q, s1) => (Returned q, s1)
    | (Thrown _, s1) =>
        (Thrown (TypeError "error.includes is not a function"), s1)
    end.
Proof.
  unfold RetryManager.executeWithRetry.
  change (Z.to_nat (2 + 1)) with 3%nat. cbn [RetryManager.attempts].
  change (0 <=? 2) with true. cbn iota. unfold tryCatch.
  destruct (QuoteAggregatorService.call src request timeoutMs env s)
    as [[q|e] s1] eqn:Hcall; [reflexivity|].
  destruct (call_trace _ _ _ _ _ _ _ Hcall) as (_ & Hinst).
  destruct e; try discriminate. reflexivity.
Qed.

Lemma primaryAttempt_eq request startTime env b w :
  QuoteAggregatorService.primaryAttempt request startTime env (b, w)
  = let remaining := QuoteAggregatorService.QUOTE_TIMEOUT_MS
                     - (clock env (ticks w) - startTime) in
    if remaining >? 200 then
      match QuoteAggregatorService.call jupiter request
              (inject_Z (Z.min (remaining - 100) 1000)) env (b, tick w) with
      | (Returned q, s1) => (Returned ([q], []), s1)
      | (Thrown _, s1) =>
          (Returned ([], [TypeError "error.includes is not a function"]), s1)
      end
    else (Returned ([], []), (b, tick w)).
Proof.
  unfold QuoteAggregatorService.primaryAttempt.
  unfold tryCatch at 1. unfold await at 1. rewrite remainingTime_eq.
  cbv zeta.
  destruct (_ >? 200); [|reflexivity].
  unfold await. rewrite retried_call_eq.
  now destruct (QuoteAggregatorService.call _ _ _ _ _) as [[q|e] s1].
Qed.

Lemma backupAttempts_eq request startTime collected env b w :
  QuoteAggregatorService.backupAttempts request startTime collected env (b, w)
  = let remaining := QuoteAggregatorService.QUOTE_TIMEOUT_MS
                     - (clock env (ticks w) - startTime) in
    if remaining >? 300 then
      let t := Qmin (inject_Z remaining / 2) 800 in
      let (first, s1) :=
        QuoteAggregatorService.call dflow request t env (b, tick w) in
      let (second, s2) :=
        QuoteAggregatorService.call hashflow request t env s1 in
      (Returned
         (fst collected ++ QuoteAggregatorService.fulfilled first
            ++ QuoteAggregatorService.fulfilled second,
          snd collected ++
            match first, second with
            | Thrown e1, Thrown e2 =>
                if backupRace env then [e2; e1] else [e1; e2]
            | Thrown e1, Returned _ => [e1]
            | Returned _, Thrown e2 => [e2]
            | Returned _, Returned _ => []
            end), s2)
    else (Returned collected, (b, tick w)).
Proof.
  unfold QuoteAggregatorService.backupAttempts.
  unfold await at 1. rewrite remainingTime_eq. cbv zeta.
  destruct (_ >? 300); [|reflexivity].
  unfold await. rewrite backup_eq.
  destruct (QuoteAggregatorService.call dflow _ _ _ _) as [first s1].
  cbn [fst snd]. rewrite backup_eq.
  destruct (QuoteAggregatorService.call hashflow _ _ _ _) as [second s2].
  reflexivity.
Qed.

Lemma oracleFallback_eq request startTime collected env b w :
  QuoteAggregatorService.oracleFallback request startTime collected env (b, w)
  = if QuoteAggregatorService.noGoodQuotes (fst collected) then
      let remaining := QuoteAggregatorService.QUOTE_TIMEOUT_MS
                       - (clock env (ticks w) - startTime) in
      if remaining >? 200 then
        match QuoteAggregatorService.call pyth_oracle request
                (inject_Z (remaining - 50)) env (b, tick w) with
        | (Returned q, s1) =>
            (Returned (fst collected ++ [q], snd collected), s1)
        | (Thrown e, s1) =>
            (Returned (fst collected, snd collected ++ [e]), s1)
        end
      else (Returned collected, (b, tick w))
    else (Returned collected, (b, w)).
Proof.
  unfold QuoteAggregatorService.oracleFallback.
  destruct (QuoteAggregatorService.noGoodQuotes _); [|reflexivity].
  unfold await at 1. rewrite remainingTime_eq. cbv zeta.
  destruct (_ >? 200); [|reflexivity].
  unfold tryCatch, await.
  now destruct (QuoteAggregatorService.call _ _ _ _ _) as [[q|e] s1].
Qed.

Lemma Qlt_bool_true a b : (a < b)%Q -> Qlt_bool a b = true.
Proof.
  intros H. unfold Qlt_bool. destruct (Qle_bool b a) eqn:Hle; [|reflexivity].
  apply Qle_bool_iff in Hle. exfalso. exact (Qlt_not_le _ _ H Hle).
Qed.

Lemma Qle_bool_true a b : (a <= b)%Q -> Qle_bool a b = true.
Proof. apply Qle_bool_iff. Qed.

Lemma primary_timeout remaining :
  remaining > 200 ->
  stageTimeout jupiter (inject_Z (Z.min (remaining - 100) 1000)) = true.
Proof.
  intros H. cbn [stageTimeout]. apply andb_true_intro. split.
  - apply Qlt_bool_true. unfold Qlt. cbn. lia.
  - apply Qle_bool_true. unfold Qle. cbn. lia.
Qed.

Lemma backup_timeout src remaining :
  remaining > 300 -> backups src = true ->
  stageTimeout src (Qmin (inject_Z remaining / 2) 800) = true.
Proof.
  intros H Hsrc.
  assert (Hlow : (150 < Qmin (inject_Z remaining / 2) 800)%Q).
  { apply Q.min_glb_lt; [|reflexivity].
    unfold Qlt, Qdiv, Qmult, Qinv. cbn. lia. }
  assert (Hhigh : (Qmin (inject_Z remaining / 2) 800 <= 800)%Q)
    by apply Q.le_min_r.
  destruct src; try discriminate; cbn [stageTimeout];
    apply andb_true_intro; split;
    (apply Qlt_bool_true; exact Hlow) || (apply Qle_bool_true; exact Hhigh).
Qed.

Lemma oracle_timeout remaining :
  remaining > 200 ->
  stageTimeout pyth_oracle (inject_Z (remaining - 50)) = true.
Proof.
  intros H. cbn [stageTimeout]. apply Qlt_bool_true. unfold Qlt. cbn. lia.
Qed.

Lemma callCount_tick src (b b' : Breakers) w :
  (callCount src (snd (b', tick w)) <= S (callCount src (snd (b, w))))%nat.
Proof. apply Nat.le_succ_diag_r. Qed.

(** The primary stage: at most one quote, Jupiter's; one call at most, with
    a timeout of the stage. *)
Lemma primaryAttempt_shape request startTime env s r s' :
  QuoteAggregatorService.primaryAttempt request startTime env s = (r, s') ->
  exists results errors,
    r = Returned (results, errors)
    /\ (results = [] \/ exists q, results = [q] /\ source q = jupiter)
    /\ extends requestEvent (snd s) (snd s')
    /\ (callCount jupiter (snd s') <= S (callCount jupiter (snd s)))%nat.
Proof.
  destruct s as [b w]. rewrite primaryAttempt_eq. cbv zeta.
  set (remaining := QuoteAggregatorService.QUOTE_TIMEOUT_MS
                    - (clock env (ticks w) - startTime)).
  destruct (remaining >? 200) eqn:Hrem.
  - apply Z.gtb_lt, Z.lt_gt in Hrem.
    destruct (QuoteAggregatorService.call _ _ _ _ _) as [[q|e] s1] eqn:Hcall;
      intros H; inversion H; subst r s';
      pose proof (call_request_events _ _ _ _ _ _ _ Hcall
                    (primary_timeout remaining Hrem)) as Hext;
      destruct (call_spec _ _ _ _ _ _ _ Hcall) as (_ & Hcalls & _);
      destruct (call_trace _ _ _ _ _ _ _ Hcall) as (_ & Htag);
      eexists; eexists; (split; [reflexivity|]).
    + split; [right; exists q; split; [reflexivity | apply Htag]|].
      split; [exact Hext|]. rewrite Hcalls. apply Nat.le_refl.
    + split; [now left|]. split; [exact Hext|]. rewrite Hcalls.
      apply Nat.le_refl.
  - intros H; inversion H; subst. exists [], [].
    split; [reflexivity|]. split; [now left|].
    split; [apply extends_same_trace; reflexivity | apply callCount_tick].
Qed.

(** The backup stage: DFlow's quote, then Hashflow's, neither of low
    confidence; one call each at most, with a timeout of the stage. *)
Lemma backupAttempts_shape request startTime collected env s r s' :
  QuoteAggregatorService.backupAttempts request startTime collected env s
  = (r, s') ->
  exists added errors (d h : bool),
    r = Returned (fst collected ++ added, snd collected ++ errors)
    /\ map source added
       = (if d then [dflow] else []) ++ (if h then [hashflow] else [])
    /\ Forall (fun q => confidence q <> low) added
    /\ extends requestEvent (snd s) (snd s')
    /\ (callCount dflow (snd s') <= S (callCount dflow (snd s)))%nat
    /\ (callCount hashflow (snd s') <= S (callCount hashflow (snd s)))%nat.
Proof.
  destruct s as [b w]. rewrite backupAttempts_eq. cbv zeta.
  set (remaining := QuoteAggregatorService.QUOTE_TIMEOUT_MS
                    - (clock env (ticks w) - startTime)).
  destruct (remaining >? 300) eqn:Hrem.
  - apply Z.gtb_lt, Z.lt_gt in Hrem.
    destruct (QuoteAggregatorService.call dflow _ _ _ _)
      as [first s1] eqn:Hcall1.
    destruct (QuoteAggregatorService.call hashflow _ _ _ _)
      as [second s2] eqn:Hcall2.
    pose proof (call_request_events _ _ _ _ _ _ _ Hcall1
                  (backup_timeout dflow remaining Hrem eq_refl)) as Hext1.
    pose proof (call_request_events _ _ _ _ _ _ _ Hcall2
                  (backup_timeout hashflow remaining Hrem eq_refl)) as Hext2.
    destruct (call_spec _ _ _ _ _ _ _ Hcall1) as (Hconf1 & Hcalls1 & _).
    destruct (call_spec _ _ _ _ _ _ _ Hcall2) as (Hconf2 & Hcalls2 & _).
    destruct (call_trace _ _ _ _ _ _ _ Hcall1) as (_ & Htag1).
    destruct (call_trace _ _ _ _ _ _ _ Hcall2) as (_ & Htag2).
    destruct (confined_untouched _ _ _ dflow Hconf2 eq_refl) as (Hd & _).
    destruct (confined_untouched _ _ _ hashflow Hconf1 eq_refl) as (Hh & _).
    intros H; inversion H; subst r s'.
    exists (QuoteAggregatorService.fulfilled first
            ++ QuoteAggregatorService.fulfilled second).
    eexists.
    exists (match first with Returned _ => true | Thrown _ => false end),
           (match second with Returned _ => true | Thrown _ => false end).
    split; [reflexivity|]. split; [|split; [|split; [|split]]].
    + rewrite map_app.
      destruct first as [q1|e1], second as [q2|e2]; cbn;
        try (destruct Htag1 as (-> & _)); try (destruct Htag2 as (-> & _));
        reflexivity.
    + apply Forall_app. split.
      * destruct first as [q1|e1]; cbn; [|constructor].
        destruct Htag1 as (_ & Hm & _). constructor; [|constructor].
        rewrite (Hm eq_refl). discriminate.
      * destruct second as [q2|e2]; cbn; [|constructor].
        destruct Htag2 as (_ & _ & Hh'). constructor; [|constructor].
        rewrite (Hh' eq_refl). discriminate.
    + eapply extends_trans; [exact Hext1 | exact Hext2].
    + rewrite Hd, Hcalls1. apply Nat.le_refl.
    + rewrite Hcalls2, Hh. apply Nat.le_refl.
  - intros H; inversion H; subst. exists [], [], false, false.
    rewrite !app_nil_r. split; [now destruct collected|].
    split; [reflexivity|]. split; [constructor|].
    split; [apply extends_same_trace; reflexivity|].
    split; apply callCount_tick.
Qed.

(** The oracle stage: one quote at most, the oracle's, and only when no
    good quote was collected; one call at most, with a timeout of the
    stage. *)
Lemma oracleFallback_shape request startTime collected env s r s' :
  QuoteAggregatorService.oracleFallback request startTime collected env s
  = (r, s') ->
  exists added errors,
    r = Returned (fst collected ++ added, snd collected ++ errors)
    /\ (added = [] \/ exists q, added = [q] /\ source q = pyth_oracle)
    /\ extends requestEvent (snd s) (snd s')
    /\ (callCount pyth_oracle (snd s') <= S (callCount pyth_oracle (snd s)))%nat
    /\ (callCount pyth_oracle (snd s') <> callCount pyth_oracle (snd s) ->
        QuoteAggregatorService.noGoodQuotes (fst collected) = true).
Proof.
  destruct s as [b w]. rewrite oracleFallback_eq.
  destruct (QuoteAggregatorService.noGoodQuotes _) eqn:Hgood.
  - cbv zeta.
    set (remaining := QuoteAggregatorService.QUOTE_TIMEOUT_MS
                      - (clock env (ticks w) - startTime)).
    destruct (remaining >? 200) eqn:Hrem.
    + apply Z.gtb_lt, Z.lt_gt in Hrem.
      destruct (QuoteAggregatorService.call _ _ _ _ _) as [[q|e] s1] eqn:Hcall;
        intros H; inversion H; subst r s';
        pose proof (call_request_events _ _ _ _ _ _ _ Hcall
                      (oracle_timeout remaining Hrem)) as Hext;
        destruct (call_spec _ _ _ _ _ _ _ Hcall) as (_ & Hcalls & _);
        destruct (call_trace _ _ _ _ _ _ _ Hcall) as (_ & Htag).
      * exists [q], []. rewrite app_nil_r. split; [reflexivity|].
        split; [right; exists q; split; [reflexivity | apply Htag]|].
        split; [exact Hext|]. rewrite Hcalls.
        split; [apply Nat.le_refl | reflexivity].
      * exists [], [e]. rewrite app_nil_r. split; [reflexivity|].
        split; [now left|].
        split; [exact Hext|]. rewrite Hcalls.
        split; [apply Nat.le_refl | reflexivity].
    + intros H; inversion H; subst. exists [], [].
      rewrite !app_nil_r. split; [now destruct collected|].
      split; [now left|].
      split; [apply extends_same_trace; reflexivity|].
      split; [apply callCount_tick | reflexivity].
  - intros H; inversion H; subst. exists [], [].
    rewrite !app_nil_r. split; [now destruct collected|].
    split; [now left|]. split; [apply extends_refl|].
    split; [apply Nat.le_succ_diag_r | congruence].
Qed.

Lemma no_low_among_low (added : list QuoteResponse) :
  Forall (fun q => confidence q <> low) added ->
  Forall (fun q => confidence q = low) added ->
  added = [].
Proof.
  destruct added as [|q rest]; [reflexivity|].
  intros Hno Hlow. inversion Hno; inversion Hlow; subst. contradiction.
Qed.

(** The three stages together: what they collect and what they add to the
    trace. *)
Lemma collect_shape request startTime env s r s' :
  QuoteAggregatorService.collect request startTime env s = (r, s') ->
  exists results errors,
    r = Returned (results, errors)
    /\ extends requestEvent (snd s) (snd s')
    /\ (forall src,
           (callCount src (snd s') <= S (callCount src (snd s)))%nat)
    /\ inStageOrder (map source results)
    /\ (callCount pyth_oracle (snd s') <> callCount pyth_oracle (snd s) ->
        Forall (fun q => source q = jupiter /\ confidence q = low
                         \/ source q = pyth_oracle) results).
Proof.
  unfold QuoteAggregatorService.collect. unfold await at 1.
  destruct (QuoteAggregatorService.primaryAttempt request startTime env s)
    as [r1 s1] eqn:H1.
  destruct (primaryAttempt_shape _ _ _ _ _ _ H1)
    as (results1 & errors1 & -> & Hshape1 & Hext1 & Hcount1).
  destruct (primaryAttempt_spec _ _ _ _ _ _ H1)
    as (? & ? & _ & Hconf1 & _).
  assert (Hprimary : exists j : bool,
             map source results1 = if j then [jupiter] else []).
  { destruct Hshape1 as [->|(q & -> & Hq)];
      [now exists false | exists true; cbn; now rewrite Hq]. }
  destruct Hprimary as [j Hj].
  cbn [fst]. destruct (QuoteAggregatorService.succeededWithHighConfidence _).
  - unfold resolve. intros H; inversion H; subst s1.
    exists results1, errors1. split; [reflexivity|]. split; [exact Hext1|].
    split; [|split].
    + intros [| | |]; try exact Hcount1;
        match goal with
        | |- (callCount ?src _ <= _)%nat =>
            destruct (confined_untouched _ _ _ src Hconf1 eq_refl) as (E & _)
        end; lia.
    + exists j, false, false, false. now rewrite Hj, !app_nil_r.
    + destruct (confined_untouched _ _ _ pyth_oracle Hconf1 eq_refl)
        as (E & _).
      intros Hne. contradiction.
  - unfold await.
    destruct (QuoteAggregatorService.backupAttempts _ _ _ _ _)
      as [r2 s2] eqn:H2.
    destruct (backupAttempts_shape _ _ _ _ _ _ _ H2)
      as (added2 & errors2 & d & h & -> & Hshape2 & Hgood2 & Hext2
          & Hcountd & Hcounth).
    destruct (backupAttempts_spec _ _ _ _ _ _ _ H2)
      as (? & ? & _ & Hconf2 & _).
    intros H3.
    destruct (oracleFallback_shape _ _ _ _ _ _ _ H3)
      as (added3 & errors3 & -> & Hshape3 & Hext3 & Hcountp & Hlast).
    destruct (oracleFallback_spec _ _ _ _ _ _ _ H3)
      as (? & ? & _ & Hconf3 & _).
    cbn [fst snd] in *.
    eexists. eexists. split; [reflexivity|]. split; [|split; [|split]].
    + eapply extends_trans; [exact Hext1|].
      eapply extends_trans; [exact Hext2 | exact Hext3].
    + intros src.
      destruct src;
        match goal with
        | |- (callCount ?src _ <= _)%nat =>
            try (destruct (confined_untouched _ _ _ src Hconf1 eq_refl)
                  as (E1 & _));
            try (destruct (confined_untouched _ _ _ src Hconf2 eq_refl)
                  as (E2 & _));
            try (destruct (confined_untouched _ _ _ src Hconf3 eq_refl)
                  as (E3 & _))
        end; lia.
    + assert (Horacle : exists p : bool,
                 map source added3 = if p then [pyth_oracle] else []).
      { destruct Hshape3 as [->|(q & -> & Hq)];
          [now exists false | exists true; cbn; now rewrite Hq]. }
      destruct Horacle as [p Hp].
      exists j, d, h, p.
      now rewrite !map_app, Hj, Hshape2, Hp, <- !app_assoc.
    + intros Hne.
      destruct (confined_untouched _ _ _ pyth_oracle Hconf1 eq_refl)
        as (E1 & _).
      destruct (confined_untouched _ _ _ pyth_oracle Hconf2 eq_refl)
        as (E2 & _).
      assert (Hno : QuoteAggregatorService.noGoodQuotes (results1 ++ added2)
                    = true) by (apply Hlast; congruence).
      apply noGoodQuotes_iff in Hno.
      assert (Hlow : Forall (fun q => confidence q = low) (results1 ++ added2)).
      { destruct Hno as [->|Hno]; [constructor | exact Hno]. }
      apply Forall_app in Hlow. destruct Hlow as [Hlow1 Hlow2].
      rewrite (no_low_among_low _ Hgood2 Hlow2), app_nil_r.
      apply Forall_app. split.
      * destruct Hshape1 as [->|(q & -> & Hq)]; [constructor|].
        inversion Hlow1; subst. constructor; [now left | constructor].
      * destruct Hshape3 as [->|(q & -> & Hq)]; [constructor|].
        constructor; [now right | constructor].
Qed.

Lemma Zgtb_false a b : a <= b -> (a >? b) = false.
Proof. intros H. rewrite Z.gtb_ltb. now apply Z.ltb_ge. Qed.

Lemma getOptimalQuote_state request env b w :
  snd (QuoteAggregatorService.getOptimalQuote request env (b, w))
  = snd (QuoteAggregatorService.collect request (clock env (ticks w)) env
           (b, tick w)).
Proof.
  rewrite getOptimalQuote_eq.
  now destruct (QuoteAggregatorService.collect _ _ _ _)
    as [[[[|q rest] errors]|e] s'].
Qed.

(** X18.  During one request every service is called at most once and the
    retry manager never sleeps: a failure of Jupiter is not retried. *)
Theorem a_request_calls_each_service_once_at_most :
  forall request env s src,
    (callCount src
       (snd (snd (QuoteAggregatorService.getOptimalQuote request env s)))
     <= S (callCount src (snd s)))%nat
    /\ sleepCount
         (snd (snd (QuoteAggregatorService.getOptimalQuote request env s)))
       = sleepCount (snd s).
Proof.
  intros request env [b w] src. rewrite getOptimalQuote_state.
  destruct (QuoteAggregatorService.collect _ _ _ _) as [r s'] eqn:Hrun.
  destruct (collect_shape _ _ _ _ _ _ Hrun)
    as (results & errors & _ & Hext & Hcount & _).
  split; [exact (Hcount src)|].
  unfold sleepCount.
  apply (extends_count requestEvent isSleep (tick w)); [|exact Hext].
  now intros [].
Qed.

(** X19.  Every timeout that a request hands to a service lies within the
    bounds of its stage: above 100 ms and at most 1000 for Jupiter, above
    150 and at most 800 for DFlow and Hashflow, above 150 for the
    oracle. *)
Theorem timeouts_stay_within_the_stage_bounds :
  forall request env s,
  exists new,
    trace (snd (snd (QuoteAggregatorService.getOptimalQuote request env s)))
    = new ++ trace (snd s)
    /\ forall src timeoutMs,
         In (Called src timeoutMs) new ->
         match src with
         | jupiter => (100 < timeoutMs /\ timeoutMs <= 1000)%Q
         | dflow | hashflow => (150 < timeoutMs /\ timeoutMs <= 800)%Q
         | pyth_oracle => (150 < timeoutMs)%Q
         end.
Proof.
  intros request env [b w]. rewrite getOptimalQuote_state.
  destruct (QuoteAggregatorService.collect _ _ _ _) as [r s'] eqn:Hrun.
  destruct (collect_shape _ _ _ _ _ _ Hrun)
    as (results & errors & _ & (new & Htrace & Hnew) & _).
  exists new. split; [exact Htrace|].
  intros src timeoutMs Hin. rewrite forallb_forall in Hnew.
  specialize (Hnew _ Hin). cbn [requestEvent] in Hnew.
  assert (Hlt : forall a c, Qlt_bool a c = true -> (a < c)%Q).
  { intros a c H. unfold Qlt_bool in H. apply Qnot_le_lt. intros Hle.
    apply Qle_bool_iff in Hle. rewrite Hle in H. discriminate. }
  destruct src; cbn [stageTimeout] in Hnew;
    try (apply andb_prop in Hnew as [H1 H2]; split;
         [now apply Hlt | now apply Qle_bool_iff]);
    now apply Hlt.
Qed.

(** X20.  When the event loop stalls for 1800 ms or more after the start
    of a request, no service is called: the request reads the clock four
    times and throws the aggregate error with an empty list of reasons. *)
Theorem expired_deadline_calls_no_service :
  forall request env s,
    (forall n, (ticks (snd s) < n)%nat ->
               clock env (ticks (snd s)) + 1800 <= clock env n) ->
    QuoteAggregatorService.getOptimalQuote request env s
    = (Thrown (ErrorObject "All quote services failed: "),
       (fst s, ticked 4 (snd s))).
Proof.
  intros request env [b w] Hlate. cbn [fst snd] in *.
  rewrite getOptimalQuote_eq.
  unfold QuoteAggregatorService.collect, await.
  rewrite primaryAttempt_eq. cbv zeta. cbn [tick ticks].
  replace (_ >? 200) with false
    by (symmetry; apply Zgtb_false;
        pose proof (Hlate (S (ticks w)) ltac:(lia));
        unfold QuoteAggregatorService.QUOTE_TIMEOUT_MS; lia).
  cbn [fst QuoteAggregatorService.succeededWithHighConfidence].
  rewrite backupAttempts_eq. cbv zeta. cbn [tick ticks].
  replace (_ >? 300) with false
    by (symmetry; apply Zgtb_false;
        pose proof (Hlate (S (S (ticks w))) ltac:(lia));
        unfold QuoteAggregatorService.QUOTE_TIMEOUT_MS; lia).
  rewrite oracleFallback_eq.
  cbn [fst QuoteAggregatorService.noGoodQuotes List.length Nat.eqb orb].
  cbv zeta. cbn [tick ticks].
  replace (_ >? 200) with false
    by (symmetry; apply Zgtb_false;
        pose proof (Hlate (S (S (S (ticks w)))) ltac:(lia));
        unfold QuoteAggregatorService.QUOTE_TIMEOUT_MS; lia).
  reflexivity.
Qed.

Lemma expired_deadline_calls_no_service_witness :
  QuoteAggregatorService.getOptimalQuote sampleRequest stalled
    (freshBreakers, emptyWorld)
  = (Thrown (ErrorObject "All quote services failed: "),
     (freshBreakers, mkWorld 4 0 [])).
Proof.
  apply (expired_deadline_calls_no_service sampleRequest stalled
           (freshBreakers, emptyWorld)).
  intros [|n] Hn; [inversion Hn | cbn; lia].
Defined.

(** X21.  The stages never throw, and the results they collect hold at most
    one quote of each source, in the order Jupiter, DFlow, Hashflow,
    oracle. *)
Theorem results_follow_the_stage_order :
  forall request startTime env s,
  exists results errors,
    fst (QuoteAggregatorService.collect request startTime env s)
    = Returned (results, errors)
    /\ inStageOrder (map source results)
    /\ (List.length results <= 4)%nat.
Proof.
  intros request startTime env s.
  destruct (QuoteAggregatorService.collect _ _ _ _) as [r s'] eqn:Hrun.
  destruct (collect_shape _ _ _ _ _ _ Hrun)
    as (results & errors & -> & _ & _ & Horder & _).
  exists results, errors. split; [reflexivity|]. split; [exact Horder|].
  destruct Horder as (j & d & h & p & Hsources).
  rewrite <- (length_map source), Hsources.
  destruct j, d, h, p; cbn; lia.
Qed.

(** X22.  A quote of DFlow or Hashflow among the results means that the
    oracle was not called: both are of a confidence above low. *)
Theorem backup_quote_spares_the_oracle :
  forall request startTime env s results errors s' q,
    QuoteAggregatorService.collect request startTime env s
    = (Returned (results, errors), s') ->
    In q results ->
    source q = dflow \/ source q = hashflow ->
    callCount pyth_oracle (snd s') = callCount pyth_oracle (snd s).
Proof.
  intros request startTime env s results errors s' q Hrun Hin Hsource.
  destruct (collect_shape _ _ _ _ _ _ Hrun)
    as (results' & errors' & Heq & _ & _ & _ & Hlast).
  inversion Heq; subst results' errors'.
  destruct (Nat.eq_dec (callCount pyth_oracle (snd s'))
                       (callCount pyth_oracle (snd s))) as [E|Hne];
    [exact E|].
  specialize (Hlast Hne). rewrite Forall_forall in Hlast.
  destruct (Hlast q Hin) as [[Hj _]|Hp], Hsource as [Hd|Hh]; congruence.
Qed.

Lemma backup_quote_spares_the_oracle_witness :
  callCount pyth_oracle
    (snd (snd (QuoteAggregatorService.collect sampleRequest 1000 dflowOnly
                 (freshBreakers, emptyWorld))))
  = callCount pyth_oracle (snd (freshBreakers, emptyWorld)).
Proof.
  apply (backup_quote_spares_the_oracle sampleRequest 1000 dflowOnly
           (freshBreakers, emptyWorld) [quoteA]
           [TypeError "error.includes is not a function";
            ErrorObject "hashflow unreachable"]
           _ quoteA).
  - reflexivity.
  - now left.
  - now left.
Defined.

(** X23.  A quote that a request returns is one of the quotes the stages
    collected during that request, and when the collected scores are all
    numbers none of them is above the score of the returned quote. *)
Theorem returned_quote_is_a_collected_one :
  forall request env s q s',
    QuoteAggregatorService.getOptimalQuote request env s = (Returned q, s') ->
    exists results errors,
      QuoteAggregatorService.collect request (clock env (ticks (snd s))) env
        (fst s, tick (snd s))
      = (Returned (results, errors), s')
      /\ In q results
      /\ ((forall x, In x results ->
             QuoteAggregatorService.calculateQuoteScore x <> NaN) ->
          forall x, In x results ->
            Number_gt (QuoteAggregatorService.calculateQuoteScore x)
                      (QuoteAggregatorService.calculateQuoteScore q) = false).
Proof.
  intros request env [b w] q s' Hrun. rewrite getOptimalQuote_eq in Hrun.
  cbn [fst snd].
  destruct (QuoteAggregatorService.collect _ _ _ _)
    as [[[[|q0 rest] errors]|e] sc]; try discriminate.
  assert (Hne : q0 :: rest <> []) by discriminate.
  exists (q0 :: rest), errors.
  assert (Hs : sc = s') by now inversion Hrun.
  subst sc. split; [reflexivity|].
  assert (Hsel : QuoteAggregatorService.selectBestQuote (q0 :: rest)
                 = Returned q) by now inversion Hrun.
  split.
  - destruct (selectBestQuote_returns _ Hne) as (q' & Hq' & Hin).
    congruence.
  - intros Hnum x Hx.
    destruct (sorted_head_is_first_highest
                QuoteAggregatorService.calculateQuoteScore _ Hne Hnum)
      as (before & best & after & Hsplit & Hhead & Hbefore & Hafter).
    rewrite (selectBestQuote_head _ Hne), Hhead in Hsel.
    inversion Hsel; subst q. rewrite Hsplit in Hx.
    exact (first_highest_is_highest _ _ _ _ _ Hbefore Hafter Hx).
Qed.

Lemma returned_quote_is_a_collected_one_witness :
  exists results errors,
    QuoteAggregatorService.collect sampleRequest 1000 dflowOnly
      (freshBreakers, tick emptyWorld)
    = (Returned (results, errors),
       snd (QuoteAggregatorService.getOptimalQuote sampleRequest dflowOnly
              (freshBreakers, emptyWorld)))
    /\ In quoteA results.
Proof.
  assert (Hreturned :
    QuoteAggregatorService.getOptimalQuote sampleRequest dflowOnly
      (freshBreakers, emptyWorld)
    = (Returned quoteA,
       snd (QuoteAggregatorService.getOptimalQuote sampleRequest dflowOnly
              (freshBreakers, emptyWorld))))
    by (vm_compute; reflexivity).
  destruct (returned_quote_is_a_collected_one sampleRequest dflowOnly
              (freshBreakers, emptyWorld) quoteA _ Hreturned)
    as (results & errors & Hrun & Hin & _).
  exists results, errors. split; [exact Hrun | exact Hin].
Defined.

(** X24.  Selection throws on the empty list alone, and a request never
    hands it one: the error 'No quotes available' is not an outcome of
    [getOptimalQuote], nor is a failed read of the best quote. *)
Theorem no_quotes_available_is_unreachable :
  (forall quotes,
      (exists e, QuoteAggregatorService.selectBestQuote quotes = Thrown e)
      <-> quotes = [])
  /\ forall request env s,
       fst (QuoteAggregatorService.getOptimalQuote request env s)
       <> Thrown (ErrorObject "No quotes available")
       /\ fst (QuoteAggregatorService.getOptimalQuote request env s)
          <> Thrown (TypeError
               "Cannot read properties of undefined (reading 'quote')").
Proof.
  split.
  - intros quotes. split.
    + intros [e He]. destruct quotes as [|q rest]; [reflexivity|].
      destruct (selectBestQuote_returns (q :: rest) ltac:(discriminate))
        as (best & Hbest & _).
      congruence.
    + intros ->. now eexists.
  - intros request env [b w]. rewrite getOptimalQuote_eq.
    destruct (QuoteAggregatorService.collect _ _ _ _) as [rc sc] eqn:Hcollect.
    destruct (collect_spec _ _ _ _ _ _ Hcollect)
      as (results & errors & -> & _ & Hinst).
    destruct results as [|q rest].
    + destruct (messages_of_instances errors Hinst) as (reasons & -> & Hm).
      unfold QuoteAggregatorService.allFailed. rewrite Hm. cbn.
      split; discriminate.
    + destruct (selectBestQuote_returns (q :: rest) ltac:(discriminate))
        as (best & Hbest & _).
      rewrite Hbest. cbn. split; discriminate.
Qed.

(** X25.  While Jupiter's breaker is open and its next attempt is not due,
    the primary stage sends Jupiter no request and leaves every breaker as
    it was; what it collects is the classifier's TypeError, not the
    open-circuit error. *)
Theorem open_jupiter_breaker_costs_no_request :
  forall request startTime env b w,
    isOpen (jupiterBreaker b) = true ->
    clock env (S (ticks w)) < nextAttemptTime (jupiterBreaker b) ->
    QuoteAggregatorService.QUOTE_TIMEOUT_MS
    - (clock env (ticks w) - startTime) > 200 ->
    exists w',
      QuoteAggregatorService.primaryAttempt request startTime env (b, w)
      = (Returned ([], [TypeError "error.includes is not a function"]),
         (b, w'))
      /\ fetchCount jupiter w' = fetchCount jupiter w
      /\ callCount jupiter w' = S (callCount jupiter w)
      /\ ticks w' = (2 + ticks w)%nat.
Proof.
  intros request startTime env b w Hopen Hdue Hrem.
  rewrite primaryAttempt_eq. cbv zeta.
  replace (_ >? 200) with true by (symmetry; apply Z.gtb_lt; lia).
  rewrite call_eq.
  cbn [QuoteAggregatorService.services getQuote JupiterQuoteService.service
       breakerOf].
  rewrite execute_eq, Hopen. cbn [andb record tick ticks].
  replace (_ <? _) with true by (symmetry; now apply Z.ltb_lt).
  eexists. split; [|split; [|split]].
  - f_equal. f_equal. destruct b. cbn in *. reflexivity.
  - unfold fetchCount. cbn. reflexivity.
  - unfold callCount. cbn. reflexivity.
  - reflexivity.
Qed.

Lemma open_jupiter_breaker_costs_no_request_witness :
  exists w',
    QuoteAggregatorService.primaryAttempt sampleRequest 1000 outage
      (jupiterTripped, emptyWorld)
    = (Returned ([], [TypeError "error.includes is not a function"]),
       (jupiterTripped, w'))
    /\ fetchCount jupiter w' = fetchCount jupiter emptyWorld
    /\ callCount jupiter w' = S (callCount jupiter emptyWorld)
    /\ ticks w' = (2 + ticks emptyWorld)%nat.
Proof.
  apply (open_jupiter_breaker_costs_no_request sampleRequest 1000 outage
           jupiterTripped emptyWorld).
  - reflexivity.
  - vm_compute. reflexivity.
  - vm_compute. reflexivity.
Defined.

(** X26.  With more than 300 ms left the backup stage calls DFlow and
    Hashflow once each, whatever DFlow answers: a quote of DFlow does not
    stop the call to Hashflow. *)
Theorem backup_stage_calls_both_backups :
  forall request startTime collected env s,
    QuoteAggregatorService.QUOTE_TIMEOUT_MS
    - (clock env (ticks (snd s)) - startTime) > 300 ->
    callCount dflow
      (snd (snd (QuoteAggregatorService.backupAttempts request startTime
                   collected env s)))
    = S (callCount dflow (snd s))
    /\ callCount hashflow
         (snd (snd (QuoteAggregatorService.backupAttempts request startTime
                      collected env s)))
       = S (callCount hashflow (snd s)).
Proof.
  intros request startTime collected env [b w] Hrem. cbn [snd] in Hrem.
  rewrite backupAttempts_eq. cbv zeta.
  replace (_ >? 300) with true by (symmetry; apply Z.gtb_lt; lia).
  destruct (QuoteAggregatorService.call dflow _ _ _ _)
    as [first s1] eqn:Hcall1.
  destruct (QuoteAggregatorService.call hashflow _ _ _ _)
    as [second s2] eqn:Hcall2.
  destruct (call_spec _ _ _ _ _ _ _ Hcall1) as (Hconf1 & Hcalls1 & _).
  destruct (call_spec _ _ _ _ _ _ _ Hcall2) as (Hconf2 & Hcalls2 & _).
  destruct (confined_untouched _ _ _ dflow Hconf2 eq_refl) as (Hd & _).
  destruct (confined_untouched _ _ _ hashflow Hconf1 eq_refl) as (Hh & _).
  cbn [snd] in *. split.
  - rewrite Hd, Hcalls1. reflexivity.
  - rewrite Hcalls2, Hh. reflexivity.
Qed.

Lemma backup_stage_calls_both_backups_witness :
  callCount dflow
    (snd (snd (QuoteAggregatorService.backupAttempts sampleRequest 1000
                 ([], []) dflowOnly (freshBreakers, emptyWorld))))
  = 1%nat
  /\ callCount hashflow
       (snd (snd (QuoteAggregatorService.backupAttempts sampleRequest 1000
                    ([], []) dflowOnly (freshBreakers, emptyWorld))))
     = 1%nat.
Proof.
  apply (backup_stage_calls_both_backups sampleRequest 1000 ([], []) dflowOnly
           (freshBreakers, emptyWorld)).
  vm_compute. reflexivity.
Defined.
